(** * Verification of the web-poker-rpg rules engine

    A shallow embedding of the pot ledger ([Pot], [PotManager] in
    src/engine/BettingStructure.ts), the hand lifecycle state machine
    (src/engine/GameState.ts, [HandManager]), the preflop action order, the
    five-card hand evaluator and [HandRanking.compareTo].

    Numbers of the TypeScript code are integers here ([Z]); a JS [Map] or
    [Set] is an association list / list kept in insertion order, since the
    order of iteration is observable (eligibility order, odd-chip rule). *)

From Stdlib Require Import List ZArith String Ascii Lia Bool Sorting.Sorted.
From Stdlib Require Import Sorting.Permutation.
Import ListNotations.
Open Scope Z_scope.

(** ** JavaScript runtime pieces *)

(** A thrown [Error] with its message. *)
Inductive Exn := Error (message : string).

Inductive result (A : Type) :=
| Ok (a : A)
| Throw (e : Exn).
Arguments Ok {A} a.
Arguments Throw {A} e.

(** [Map<string, V>]: insertion-ordered association list. *)
Fixpoint map_get {V} (m : list (string * V)) (k : string) : option V :=
  match m with
  | [] => None
  | (k', v) :: r => if String.eqb k k' then Some v else map_get r k
  end.

(** [map.set(k, v)]: overwrite in place, or append a new entry. *)
Fixpoint map_set {V} (m : list (string * V)) (k : string) (v : V)
  : list (string * V) :=
  match m with
  | [] => [(k, v)]
  | (k', v') :: r =>
      if String.eqb k k' then (k', v) :: r else (k', v') :: map_set r k v
  end.

(** [map.get(k) ?? 0] *)
Definition get_or0 (m : list (string * Z)) (k : string) : Z :=
  match map_get m k with Some v => v | None => 0 end.

(** [Set<A>]: insertion-ordered list without duplicates. *)
Definition set_has {A} (eqb : A -> A -> bool) (s : list A) (x : A) : bool :=
  existsb (eqb x) s.

Definition set_add {A} (eqb : A -> A -> bool) (s : list A) (x : A) : list A :=
  if set_has eqb s x then s else s ++ [x].

Definition set_delete {A} (eqb : A -> A -> bool) (s : list A) (x : A) : list A :=
  filter (fun y => negb (eqb x y)) s.

(** [new Set(xs)] *)
Definition set_of_list {A} (eqb : A -> A -> bool) (xs : list A) : list A :=
  fold_left (set_add eqb) xs [].

(** [Array.prototype.sort] with a comparator: a stable sort (V8 sorts
    stably); written as insertion sort. *)
Fixpoint sort_insert {A} (cmp : A -> A -> Z) (x : A) (l : list A) : list A :=
  match l with
  | [] => [x]
  | y :: r => if cmp x y <? 0 then x :: y :: r else y :: sort_insert cmp x r
  end.

Definition js_sort {A} (cmp : A -> A -> Z) (l : list A) : list A :=
  fold_left (fun acc x => sort_insert cmp x acc) l [].

(** Decimal rendering of a count, as in a template literal [`${n}`]. *)
Fixpoint digits_aux (fuel : nat) (n : nat) (acc : string) : string :=
  match fuel with
  | O => acc
  | S f =>
      let acc' := String (ascii_of_nat (48 + Nat.modulo n 10)) acc in
      if Nat.ltb n 10 then acc' else digits_aux f (Nat.div n 10) acc'
  end.

Definition string_of_nat (n : nat) : string := digits_aux (S n) n "".

(** ** Pot ledger (src/engine/BettingStructure.ts) *)

Module Ledger.

Record Pot := mkPot {
  contributions : list (string * Z);
  eligiblePlayerIds : list string
}.

(** [new Pot(eligiblePlayers)] *)
Definition new_Pot (eligiblePlayers : list string) : Pot :=
  mkPot [] (set_of_list String.eqb eligiblePlayers).

(** [Pot.addContribution] *)
Definition addContribution (pot : Pot) (playerId : string) (amount : Z)
  : result Pot :=
  if amount <=? 0 then Throw (Error "Contribution must be positive")
  else
    let currentAmount := get_or0 (contributions pot) playerId in
    let c := map_set (contributions pot) playerId (currentAmount + amount) in
    let e := if set_has String.eqb (eligiblePlayerIds pot) playerId
             then eligiblePlayerIds pot
             else eligiblePlayerIds pot ++ [playerId] in
    Ok (mkPot c e).

(** [get total()] *)
Definition total (pot : Pot) : Z :=
  fold_left (fun sum kv => sum + snd kv) (contributions pot) 0.

Definition isPlayerEligible (pot : Pot) (playerId : string) : bool :=
  set_has String.eqb (eligiblePlayerIds pot) playerId.

Definition removePlayerEligibility (pot : Pot) (playerId : string) : Pot :=
  mkPot (contributions pot) (set_delete String.eqb (eligiblePlayerIds pot) playerId).

Record PotManager := mkPM {
  mainPot : Pot;
  sidePots : list Pot
}.

(** [new PotManager()] *)
Definition new_PotManager : PotManager := mkPM (new_Pot []) [].

(** The distinct positive bet amounts, sorted ascending. *)
Definition uniqueBetAmounts (playerBets : list (string * Z)) : list Z :=
  js_sort (fun a b => a - b)
    (set_of_list Z.eqb (filter (fun amt => 0 <? amt) (map snd playerBets))).

(** The inner [for (const playerId of contributingPlayers)] loop:
    add [contributionAmount] to the pot and subtract it from the player's
    remaining contribution. *)
Fixpoint collect_from (pot : Pot) (remaining : list (string * Z))
    (contributionAmount : Z) (players : list string)
  : result (Pot * list (string * Z)) :=
  match players with
  | [] => Ok (pot, remaining)
  | playerId :: rest =>
      match addContribution pot playerId contributionAmount with
      | Throw e => Throw e
      | Ok pot' =>
          let rem := get_or0 remaining playerId in
          collect_from pot' (map_set remaining playerId (rem - contributionAmount))
            contributionAmount rest
      end
  end.

(** The outer [for (let i = 0; i < uniqueBetAmounts.length; i++)] loop;
    [previousLevel] is [uniqueBetAmounts[i - 1]] (or 0 for i = 0). *)
Fixpoint collect_levels (foldedPlayers : list string) (previousLevel : Z)
    (levels : list Z) (remaining : list (string * Z)) (pm : PotManager)
  : result PotManager :=
  match levels with
  | [] => Ok pm
  | currentLevel :: rest =>
      let contributionAmount := currentLevel - previousLevel in
      let contributingPlayers :=
        map fst (filter (fun kv => contributionAmount <=? snd kv) remaining) in
      match contributingPlayers with
      | [] => collect_levels foldedPlayers currentLevel rest remaining pm
      | _ =>
          let eligiblePlayers :=
            filter (fun id => negb (set_has String.eqb foldedPlayers id))
              contributingPlayers in
          match collect_from (new_Pot eligiblePlayers) remaining
                  contributionAmount contributingPlayers with
          | Throw e => Throw e
          | Ok (pot, remaining') =>
              let pot' := fold_left removePlayerEligibility foldedPlayers pot in
              let pm' := if total (mainPot pm) =? 0
                         then mkPM pot' (sidePots pm)
                         else mkPM (mainPot pm) (sidePots pm ++ [pot']) in
              collect_levels foldedPlayers currentLevel rest remaining' pm'
          end
      end
  end.

(** [PotManager.collectBets]; [allInPlayers] is not read by the code. *)
Definition collectBets (pm : PotManager) (playerBets : list (string * Z))
    (allInPlayers foldedPlayers : list string) : result PotManager :=
  match playerBets with
  | [] => Ok pm
  | _ =>
      match uniqueBetAmounts playerBets with
      | [] => Ok pm
      | levels => collect_levels foldedPlayers 0 levels playerBets pm
      end
  end.

(** The crediting loop of [distributeSinglePot]: index 0 gets the odd chips. *)
Fixpoint credit_winners (first : bool) (eligibleWinners : list string)
    (amountPerWinner remainder : Z) (winnings : list (string * Z))
  : list (string * Z) :=
  match eligibleWinners with
  | [] => winnings
  | w :: rest =>
      let currentWinnings := get_or0 winnings w in
      let amount := if first then amountPerWinner + remainder else amountPerWinner in
      credit_winners false rest amountPerWinner remainder
        (map_set winnings w (currentWinnings + amount))
  end.

(** [PotManager.distributeSinglePot]; [Math.floor(t / n)] is [Z.div] and
    the JS [%] operator is [Z.rem]. *)
Definition distributeSinglePot (pot : Pot) (winners : list string)
    (winnings : list (string * Z)) : list (string * Z) :=
  if total pot =? 0 then winnings
  else
    let eligibleWinners := filter (isPlayerEligible pot) winners in
    match eligibleWinners with
    | [] => winnings
    | _ =>
        let n := Z.of_nat (List.length eligibleWinners) in
        credit_winners true eligibleWinners (total pot / n) (Z.rem (total pot) n)
          winnings
    end.

(** [PotManager.distributePots] *)
Definition distributePots (pm : PotManager) (winners : list string)
  : list (string * Z) :=
  fold_left (fun w pot => distributeSinglePot pot winners w) (sidePots pm)
    (distributeSinglePot (mainPot pm) winners []).

(** [PotManager.getTotalPotAmount] *)
Definition getTotalPotAmount (pm : PotManager) : Z :=
  fold_left (fun t pot => t + total pot) (sidePots pm) (total (mainPot pm)).

End Ledger.

(** ** Cards and hand rankings (src/models/Card.ts, src/engine/GTOTypes.ts) *)

Module Hands.

Inductive Suit := Spades | Hearts | Diamonds | Clubs.

Definition Suit_eqb (a b : Suit) : bool :=
  match a, b with
  | Spades, Spades | Hearts, Hearts | Diamonds, Diamonds | Clubs, Clubs => true
  | _, _ => false
  end.

Inductive Rank :=
  Two | Three | Four | Five | Six | Seven | Eight | Nine | Ten
| Jack | Queen | King | Ace.

(** [RANK_VALUES] *)
Definition RANK_VALUES (r : Rank) : Z :=
  match r with
  | Two => 2 | Three => 3 | Four => 4 | Five => 5 | Six => 6 | Seven => 7
  | Eight => 8 | Nine => 9 | Ten => 10 | Jack => 11 | Queen => 12
  | King => 13 | Ace => 14
  end.

Record Card := mkCard { rank : Rank; suit : Suit }.

(** [get value()] *)
Definition value (c : Card) : Z := RANK_VALUES (rank c).

(** [enum HandRank] with its numeric values. *)
Inductive HandRank :=
  HighCard | Pair | TwoPair | ThreeOfAKind | Straight | Flush | FullHouse
| FourOfAKind | StraightFlush | RoyalFlush.

Definition HandRank_value (r : HandRank) : Z :=
  match r with
  | HighCard => 0 | Pair => 1 | TwoPair => 2 | ThreeOfAKind => 3
  | Straight => 4 | Flush => 5 | FullHouse => 6 | FourOfAKind => 7
  | StraightFlush => 8 | RoyalFlush => 9
  end.

(** [class HandRanking]; the field [rank] of the class is [category]. *)
Record HandRanking := mkHR {
  category : HandRank;
  cards : list Card;
  primaryValue : Z;
  secondaryValue : Z;
  kickers : list Z
}.

(** The kicker loop of [compareTo]: [for (let i = 0; i < max; i++)] with
    [this.kickers[i] ?? 0]. *)
Fixpoint kicker_loop (mine theirs : list Z) (i : nat) (count : nat) : Z :=
  match count with
  | O => 0
  | S count' =>
      let thisKicker := nth i mine 0 in
      let otherKicker := nth i theirs 0 in
      if negb (thisKicker =? otherKicker) then thisKicker - otherKicker
      else kicker_loop mine theirs (S i) count'
  end.

(** [HandRanking.compareTo] *)
Definition compareTo (this other : HandRanking) : Z :=
  if negb (HandRank_value (category this) =? HandRank_value (category other))
  then HandRank_value (category this) - HandRank_value (category other)
  else if negb (primaryValue this =? primaryValue other)
  then primaryValue this - primaryValue other
  else if negb (secondaryValue this =? secondaryValue other)
  then secondaryValue this - secondaryValue other
  else kicker_loop (kickers this) (kickers other) 0
         (Nat.max (List.length (kickers this)) (List.length (kickers other))).

End Hands.

(** ** Hand evaluator (HandEvaluator, src/unnamed/part_003) *)

Module Evaluator.
Import Hands.

(** [groupByRank]: a [Map<number, Card[]>] in first-insertion order. *)
Fixpoint group_insert (groups : list (Z * list Card)) (card : Card)
  : list (Z * list Card) :=
  match groups with
  | [] => [(value card, [card])]
  | (k, cs) :: r =>
      if k =? value card then (k, cs ++ [card]) :: r
      else (k, cs) :: group_insert r card
  end.

Definition groupByRank (cards : list Card) : list (Z * list Card) :=
  fold_left group_insert cards [].

(** [isFlush] *)
Definition isFlush (cards : list Card) : bool :=
  match cards with
  | [] => true
  | first :: _ => forallb (fun c => Suit_eqb (suit c) (suit first)) cards
  end.

(** [values.every((val, i) => i === 0 || val === values[i - 1] - 1)] *)
Fixpoint isConsecutive (values : list Z) : bool :=
  match values with
  | x :: ((y :: _) as r) => (y =? x - 1) && isConsecutive r
  | _ => true
  end.

Definition desc (a b : Z) : Z := b - a.

(** [getStraightHighCard] *)
Definition getStraightHighCard (cards : list Card) : option Z :=
  let values := js_sort desc (set_of_list Z.eqb (map value cards)) in
  if negb (Nat.eqb (List.length values) 5) then None
  else if isConsecutive values then Some (hd 0 values)
  else
    match values with
    | [a; b; c; d; e] =>
        if (a =? 14) && (b =? 5) && (c =? 4) && (d =? 3) && (e =? 2)
        then Some 5 else None
    | _ => None
    end.

Definition checkStraightFlush (cards : list Card) : option HandRanking :=
  match isFlush cards, getStraightHighCard cards with
  | true, Some straight => Some (mkHR StraightFlush cards straight 0 [])
  | _, _ => None
  end.

Definition checkRoyalFlush (cards : list Card) : option HandRanking :=
  match checkStraightFlush cards with
  | Some sf => if primaryValue sf =? 14 then Some (mkHR RoyalFlush cards 14 0 [])
               else None
  | None => None
  end.

(** The first group (in map order) with exactly [n] cards. *)
Fixpoint first_group_of (n : nat) (groups : list (Z * list Card)) : option Z :=
  match groups with
  | [] => None
  | (r, cs) :: rest =>
      if Nat.eqb (List.length cs) n then Some r else first_group_of n rest
  end.

(** [cards.find((c) => c.value !== rank)?.value ?? 0] *)
Definition find_other_value (cards : list Card) (p : Z -> bool) : Z :=
  match find (fun c => p (value c)) cards with
  | Some c => value c
  | None => 0
  end.

Definition checkFourOfAKind (cards : list Card) : option HandRanking :=
  match first_group_of 4 (groupByRank cards) with
  | Some r =>
      let kicker := find_other_value cards (fun v => negb (v =? r)) in
      Some (mkHR FourOfAKind cards r 0 [kicker])
  | None => None
  end.

(** The loop of [checkFullHouse]: the last group of 3 and the last group of
    2 win ([else if]). *)
Fixpoint fullhouse_scan (groups : list (Z * list Card))
    (threeRank pairRank : option Z) : option Z * option Z :=
  match groups with
  | [] => (threeRank, pairRank)
  | (r, cs) :: rest =>
      if Nat.eqb (List.length cs) 3 then fullhouse_scan rest (Some r) pairRank
      else if Nat.eqb (List.length cs) 2 then fullhouse_scan rest threeRank (Some r)
      else fullhouse_scan rest threeRank pairRank
  end.

Definition checkFullHouse (cards : list Card) : option HandRanking :=
  match fullhouse_scan (groupByRank cards) None None with
  | (Some t, Some p) => Some (mkHR FullHouse cards t p [])
  | _ => None
  end.

Definition checkFlush (cards : list Card) : option HandRanking :=
  if isFlush cards then
    let values := js_sort desc (map value cards) in
    Some (mkHR Flush cards (hd 0 values) 0 (tl values))
  else None.

Definition checkStraight (cards : list Card) : option HandRanking :=
  match getStraightHighCard cards with
  | Some highCard => Some (mkHR Straight cards highCard 0 [])
  | None => None
  end.

(** [cards.filter(c => c.value !== rank).map(c => c.value).sort(desc)] *)
Definition kickers_without (cards : list Card) (r : Z) : list Z :=
  js_sort desc (map value (filter (fun c => negb (value c =? r)) cards)).

Definition checkThreeOfAKind (cards : list Card) : option HandRanking :=
  match first_group_of 3 (groupByRank cards) with
  | Some r => Some (mkHR ThreeOfAKind cards r 0 (kickers_without cards r))
  | None => None
  end.

Definition checkTwoPair (cards : list Card) : option HandRanking :=
  let pairs := map fst (filter (fun g => Nat.eqb (List.length (snd g)) 2)
                          (groupByRank cards)) in
  if Nat.eqb (List.length pairs) 2 then
    let sorted := js_sort desc pairs in
    let kicker :=
      find_other_value cards (fun v => negb (existsb (Z.eqb v) sorted)) in
    Some (mkHR TwoPair cards (nth 0 sorted 0) (nth 1 sorted 0) [kicker])
  else None.

Definition checkPair (cards : list Card) : option HandRanking :=
  match first_group_of 2 (groupByRank cards) with
  | Some r => Some (mkHR Pair cards r 0 (kickers_without cards r))
  | None => None
  end.

Definition checkHighCard (cards : list Card) : HandRanking :=
  let values := js_sort desc (map value cards) in
  mkHR HighCard cards (hd 0 values) 0 (tl values).

(** [evaluateHand]: the checks from the highest category down. *)
Definition evaluateHand (cards : list Card) : result HandRanking :=
  if negb (Nat.eqb (List.length cards) 5) then
    Throw (Error ("Expected 5 cards, got " ++ string_of_nat (List.length cards)))
  else
    let sortedCards := js_sort (fun a b => value b - value a) cards in
    let checks :=
      [checkRoyalFlush; checkStraightFlush; checkFourOfAKind; checkFullHouse;
       checkFlush; checkStraight; checkThreeOfAKind; checkTwoPair; checkPair] in
    match fold_left (fun found check =>
                       match found with
                       | Some h => Some h
                       | None => check sortedCards
                       end) checks None with
    | Some h => Ok h
    | None => Ok (checkHighCard sortedCards)
    end.

(** [get5CardCombinations]: the five nested index loops [i < j < k < l < m]
    enumerate the 5-subsets in lexicographic order, as [choose] does. *)
Fixpoint choose {A} (k : nat) (l : list A) : list (list A) :=
  match k, l with
  | O, _ => [[]]
  | S _, [] => []
  | S k', x :: xs => map (cons x) (choose k' xs) ++ choose k xs
  end.

(** [evaluateBest7CardHand] *)
Definition evaluateBest7CardHand (cards : list Card) : result HandRanking :=
  if negb (Nat.eqb (List.length cards) 7) then
    Throw (Error ("Expected 7 cards, got " ++ string_of_nat (List.length cards)))
  else
    let step (acc : result (option HandRanking)) (combo : list Card) :=
      match acc with
      | Throw e => Throw e
      | Ok best =>
          match evaluateHand combo with
          | Throw e => Throw e
          | Ok hand =>
              match best with
              | None => Ok (Some hand)
              | Some b => if 0 <? compareTo hand b then Ok (Some hand) else Ok (Some b)
              end
          end
      end in
    match fold_left step (choose 5 cards) (Ok None) with
    | Ok (Some h) => Ok h
    | Ok None => Throw (Error "no combination")
    | Throw e => Throw e
    end.

End Evaluator.

(** ** Players and the table (src/models/Player.ts, Table in part_001) *)

Module Seating.
Import Hands.

Inductive PlayerStatus := Active | Folded | AllIn | SittingOut | Eliminated.

Definition PlayerStatus_eqb (a b : PlayerStatus) : bool :=
  match a, b with
  | Active, Active | Folded, Folded | AllIn, AllIn
  | SittingOut, SittingOut | Eliminated, Eliminated => true
  | _, _ => false
  end.

Inductive PlayerAction := Fold | Check | Call | Bet | Raise | AllInAction.

Record Player := mkPlayer {
  id : string;
  holeCards : list Card;
  chipCount : Z;
  currentBet : Z;
  status : PlayerStatus;
  lastAction : option PlayerAction
}.

(** [new Player(id, name, initialChips)] *)
Definition new_Player (pid : string) (initialChips : Z) : Player :=
  mkPlayer pid [] initialChips 0 Active None.

(** [Player.removeChips] *)
Definition removeChips (p : Player) (amount : Z) : result (Z * Player) :=
  if amount <=? 0 then Throw (Error "Cannot remove zero or negative chips")
  else
    let actualAmount := Z.min amount (chipCount p) in
    Ok (actualAmount,
        mkPlayer (id p) (holeCards p) (chipCount p - actualAmount) (currentBet p)
          (status p) (lastAction p)).

(** The string values of [enum PlayerStatus]. *)
Definition PlayerStatus_string (s : PlayerStatus) : string :=
  match s with
  | Active => "ACTIVE" | Folded => "FOLDED" | AllIn => "ALL_IN"
  | SittingOut => "SITTING_OUT" | Eliminated => "ELIMINATED"
  end.

(** [Player.bet] *)
Definition bet (p : Player) (amount : Z) : result (Z * Player) :=
  if negb (PlayerStatus_eqb (status p) Active)
  then Throw (Error ("Cannot bet: player is " ++ PlayerStatus_string (status p)))
  else if 0 <? currentBet p
  then Throw (Error "Cannot bet after already betting (use raise instead)")
  else
    match removeChips p amount with
    | Throw e => Throw e
    | Ok (actualAmount, p1) =>
        if chipCount p1 =? 0 then
          Ok (actualAmount, mkPlayer (id p1) (holeCards p1) (chipCount p1)
                              actualAmount AllIn (Some AllInAction))
        else
          Ok (actualAmount, mkPlayer (id p1) (holeCards p1) (chipCount p1)
                              actualAmount (status p1) (Some Bet))
    end.

(** [Player.resetForNewHand] *)
Definition resetPlayerForNewHand (p : Player) : Player :=
  let st := match status p with
            | Folded | AllIn => if 0 <? chipCount p then Active else Eliminated
            | s => s
            end in
  mkPlayer (id p) [] (chipCount p) 0 st None.

(** [Player.getHoleCards] *)
Definition getHoleCards (p : Player) : list Card :=
  match status p with
  | Folded | SittingOut => []
  | _ => holeCards p
  end.

Definition hasFolded (p : Player) : bool := PlayerStatus_eqb (status p) Folded.

Record TableConfig := mkConfig {
  maxSeats : Z;
  smallBlind : Z;
  bigBlind : Z
}.

(** A seat is [None] when [isEmpty]. *)
Record Table := mkTable {
  seats : list (option Player);
  buttonPosition : Z;
  communityCards : list Card;
  config : TableConfig
}.

(** [this.seats[position]] (undefined out of range) *)
Definition seat_at (t : Table) (position : Z) : option (option Player) :=
  if position <? 0 then None else nth_error (seats t) (Z.to_nat position).

(** Replace the player object held in a seat. *)
Definition set_seat (t : Table) (position : Z) (p : Player) : Table :=
  mkTable
    (map (fun ip => if Nat.eqb (fst ip) (Z.to_nat position) then Some p else snd ip)
       (combine (seq 0 (List.length (seats t))) (seats t)))
    (buttonPosition t) (communityCards t) (config t).

Definition getPlayers (t : Table) : list Player :=
  flat_map (fun s => match s with Some p => [p] | None => [] end) (seats t).

Definition getActivePlayers (t : Table) : list Player :=
  filter (fun p => match status p with Active | AllIn => true | _ => false end)
    (getPlayers t).

Definition playerCount (t : Table) : Z := Z.of_nat (List.length (getPlayers t)).

Definition getPlayerAtSeat (t : Table) (position : Z) : option Player :=
  match seat_at t position with Some (Some p) => Some p | _ => None end.

(** The [while] condition: an empty seat or a sitting-out player. *)
Definition skip_seat (t : Table) (position : Z) : bool :=
  match seat_at t position with
  | Some None => true
  | Some (Some p) => PlayerStatus_eqb (status p) SittingOut
  | None => false
  end.

(** The [while (... && attempts < maxSeats)] loop; [attempts] grows by one
    per iteration, so [maxSeats + 1] rounds of fuel always suffice. *)
Fixpoint advance (fuel : nat) (t : Table) (position attempts : Z) : Z * Z :=
  match fuel with
  | O => (position, attempts)
  | S f =>
      if skip_seat t position && (attempts <? maxSeats (config t))
      then advance f t (Z.rem (position + 1) (maxSeats (config t))) (attempts + 1)
      else (position, attempts)
  end.

Definition next_seat_from (t : Table) (start : Z) : option Z :=
  let '(position, attempts) :=
    advance (S (Z.to_nat (maxSeats (config t)))) t
      (Z.rem (start + 1) (maxSeats (config t))) 0 in
  if attempts <? maxSeats (config t) then Some position else None.

(** [Table.getSmallBlindPosition] *)
Definition getSmallBlindPosition (t : Table) : option Z :=
  if playerCount t <? 2 then None
  else if playerCount t =? 2 then Some (buttonPosition t)
  else next_seat_from t (buttonPosition t).

(** [Table.getBigBlindPosition] *)
Definition getBigBlindPosition (t : Table) : option Z :=
  if playerCount t <? 2 then None
  else if playerCount t =? 2 then next_seat_from t (buttonPosition t)
  else match getSmallBlindPosition t with
       | None => None
       | Some sbPosition => next_seat_from t sbPosition
       end.

Definition getSmallBlindPlayer (t : Table) : option Player :=
  match getSmallBlindPosition t with Some pos => getPlayerAtSeat t pos | None => None end.

Definition getBigBlindPlayer (t : Table) : option Player :=
  match getBigBlindPosition t with Some pos => getPlayerAtSeat t pos | None => None end.

(** [Table.resetForNewHand] *)
Definition resetTableForNewHand (t : Table) : Table :=
  mkTable (map (option_map resetPlayerForNewHand) (seats t)) (buttonPosition t) []
    (config t).

(** [HandManager.postBlinds], a table transformer that keeps the mutations
    made before a throw. *)
Definition postBlinds (t : Table) : result unit * Table :=
  match getSmallBlindPosition t, getSmallBlindPlayer t,
        getBigBlindPosition t, getBigBlindPlayer t with
  | Some sbPos, Some sbPlayer, Some bbPos, Some _ =>
      let sbAmount := Z.min (chipCount sbPlayer) (smallBlind (config t)) in
      match bet sbPlayer sbAmount with
      | Throw e => (Throw e, t)
      | Ok (_, sb') =>
          let t1 := set_seat t sbPos sb' in
          match getPlayerAtSeat t1 bbPos with
          | None => (Throw (Error "Cannot determine blind players"), t1)
          | Some bbPlayer =>
              let bbAmount := Z.min (chipCount bbPlayer) (bigBlind (config t1)) in
              match bet bbPlayer bbAmount with
              | Throw e => (Throw e, t1)
              | Ok (_, bb') => (Ok tt, set_seat t1 bbPos bb')
              end
          end
      end
  | _, _, _, _ => (Throw (Error "Cannot determine blind players"), t)
  end.

End Seating.

(** ** Action order rules (ActionOrderRules, src/engine/GameState.ts) *)

Module ActionOrder.
Import Seating.

Inductive BettingStreet := Preflop | Flop | Turn | River.

Record ActionOrderResult := mkAOR {
  playerOrder : list string;
  startingBet : Z
}.

(** [Array.prototype.findIndex] / [indexOf]: -1 when absent. *)
Fixpoint findIndex {A} (f : A -> bool) (l : list A) : Z :=
  match l with
  | [] => -1
  | x :: r => if f x then 0 else let i := findIndex f r in if i =? -1 then -1 else i + 1
  end.

Definition indexOf (x : Z) (l : list Z) : Z := findIndex (Z.eqb x) l.

(** [sortByDistanceFromPosition] *)
Definition sortByDistanceFromPosition (positions : list Z) (startPos maxSeats : Z)
  : list Z :=
  js_sort (fun a b => Z.rem (a - startPos + maxSeats) maxSeats
                      - Z.rem (b - startPos + maxSeats) maxSeats) positions.

(** [activePlayers.map(p => allPlayers.findIndex(...)).filter(pos => pos !== -1)] *)
Definition activePositions (allPlayers activePlayers : list Player) : list Z :=
  filter (fun pos => negb (pos =? -1))
    (map (fun p => findIndex (fun q => String.eqb (id q) (id p)) allPlayers)
       activePlayers).

(** [orderedPositions.map(pos => allPlayers[pos]?.id).filter(defined)] *)
Definition ids_at (allPlayers : list Player) (positions : list Z) : list string :=
  flat_map (fun pos => if pos <? 0 then []
                       else match nth_error allPlayers (Z.to_nat pos) with
                            | Some p => [id p] | None => [] end) positions.

(** [getPreflopOrder]; a [null] big-blind position reads as 0 in the
    distance arithmetic and is never found by [indexOf]. *)
Definition getPreflopOrder (t : Table) (activePlayers : list Player)
  : ActionOrderResult :=
  let buttonPos := buttonPosition t in
  let bbPos := getBigBlindPosition t in
  let bbPlayer := getBigBlindPlayer t in
  let allPlayers := getPlayers t in
  let ms := maxSeats (config t) in
  let positions := activePositions allPlayers activePlayers in
  let orderedPositions :=
    if Nat.eqb (List.length activePlayers) 2 then
      sortByDistanceFromPosition positions buttonPos ms
    else
      let sorted := sortByDistanceFromPosition positions
                      (match bbPos with Some b => b | None => 0 end) ms in
      let bbIndex := match bbPos with Some b => indexOf b sorted | None => -1 end in
      if bbIndex =? 0 then
        match sorted with [] => [] | x :: r => r ++ [x] end
      else sorted in
  mkAOR (ids_at allPlayers orderedPositions)
    (match bbPlayer with Some p => currentBet p | None => 0 end).

(** [getPostFlopOrder] *)
Definition getPostFlopOrder (t : Table) (activePlayers : list Player)
  : ActionOrderResult :=
  let buttonPos := buttonPosition t in
  let allPlayers := getPlayers t in
  let sorted := sortByDistanceFromPosition
                  (activePositions allPlayers activePlayers) buttonPos
                  (maxSeats (config t)) in
  let orderedPositions :=
    if (indexOf buttonPos sorted =? 0) && Nat.ltb 1 (List.length sorted) then
      match sorted with [] => [] | x :: r => r ++ [x] end
    else sorted in
  mkAOR (ids_at allPlayers orderedPositions) 0.

(** [ActionOrderRules.getActionOrder] *)
Definition getActionOrder (t : Table) (street : BettingStreet) : ActionOrderResult :=
  let activePlayers := getActivePlayers t in
  match activePlayers with
  | [] => mkAOR [] 0
  | _ => match street with
         | Preflop => getPreflopOrder t activePlayers
         | _ => getPostFlopOrder t activePlayers
         end
  end.

End ActionOrder.

(** ** Hand lifecycle (src/engine/GameState.ts, HandManager) *)

Module Lifecycle.
Import Hands Seating ActionOrder Ledger.

Inductive GameState :=
  WaitingForPlayers | ReadyToStart | PostingBlinds | DealingHoleCards
| PreflopBetting | DealingFlop | FlopBetting | DealingTurn | TurnBetting
| DealingRiver | RiverBetting | Showdown | HandComplete | GameOver.

Scheme Equality for GameState.

Definition GameState_string (s : GameState) : string :=
  match s with
  | WaitingForPlayers => "WAITING_FOR_PLAYERS" | ReadyToStart => "READY_TO_START"
  | PostingBlinds => "POSTING_BLINDS" | DealingHoleCards => "DEALING_HOLE_CARDS"
  | PreflopBetting => "PREFLOP_BETTING" | DealingFlop => "DEALING_FLOP"
  | FlopBetting => "FLOP_BETTING" | DealingTurn => "DEALING_TURN"
  | TurnBetting => "TURN_BETTING" | DealingRiver => "DEALING_RIVER"
  | RiverBetting => "RIVER_BETTING" | Showdown => "SHOWDOWN"
  | HandComplete => "HAND_COMPLETE" | GameOver => "GAME_OVER"
  end.

(** The [validTransitions] table of [isValidTransition]. *)
Definition validTransitions (from : GameState) : list GameState :=
  match from with
  | WaitingForPlayers => [ReadyToStart]
  | ReadyToStart => [PostingBlinds]
  | PostingBlinds => [DealingHoleCards]
  | DealingHoleCards => [PreflopBetting]
  | PreflopBetting => [DealingFlop; Showdown; HandComplete]
  | DealingFlop => [FlopBetting]
  | FlopBetting => [DealingTurn; Showdown; HandComplete]
  | DealingTurn => [TurnBetting]
  | TurnBetting => [DealingRiver; Showdown; HandComplete]
  | DealingRiver => [RiverBetting]
  | RiverBetting => [Showdown; HandComplete]
  | Showdown => [HandComplete]
  | HandComplete => [ReadyToStart; GameOver]
  | GameOver => []
  end.

(** [isValidTransition] *)
Definition isValidTransition (from to : GameState) : bool :=
  existsb (GameState_beq to) (validTransitions from).

(** [isBettingState] *)
Definition isBettingState (s : GameState) : bool :=
  existsb (GameState_beq s) [PreflopBetting; FlopBetting; TurnBetting; RiverBetting].

(** The graph of spec section 4.5, written from the spec's words: the
    linear path, every betting state also to Showdown and HandComplete,
    HandComplete to ReadyToStart or GameOver. *)
Definition linear_next (s : GameState) : option GameState :=
  match s with
  | WaitingForPlayers => Some ReadyToStart
  | ReadyToStart => Some PostingBlinds
  | PostingBlinds => Some DealingHoleCards
  | DealingHoleCards => Some PreflopBetting
  | PreflopBetting => Some DealingFlop
  | DealingFlop => Some FlopBetting
  | FlopBetting => Some DealingTurn
  | DealingTurn => Some TurnBetting
  | TurnBetting => Some DealingRiver
  | DealingRiver => Some RiverBetting
  | RiverBetting => Some Showdown
  | Showdown => Some HandComplete
  | HandComplete => None
  | GameOver => None
  end.

Definition spec_edge (from to : GameState) : Prop :=
  linear_next from = Some to
  \/ (isBettingState from = true /\ (to = Showdown \/ to = HandComplete))
  \/ (from = HandComplete /\ (to = ReadyToStart \/ to = GameOver)).

(** [BettingRound] and the tracker's state after its constructor. *)
Inductive BettingRound := RPreflop | RFlop | RTurn | RRiver | RShowdown.

Record BettingRoundTracker := mkTracker {
  round : BettingRound;
  trackerBetAmount : Z;
  lastRaiserPosition : Z;
  playerIdOrder : list string;
  currentActionIndex : nat;
  playersActed : list string
}.

(** [toStreet] *)
Definition toStreet (r : BettingRound) : option BettingStreet :=
  match r with
  | RPreflop => Some Preflop | RFlop => Some Flop | RTurn => Some Turn
  | RRiver => Some River | RShowdown => None
  end.

(** [new BettingRoundTracker(table, round)] *)
Definition new_Tracker (t : Table) (r : BettingRound) : BettingRoundTracker :=
  match toStreet r with
  | None => mkTracker r 0 (-1) [] 0 []
  | Some street =>
      let orderResult := getActionOrder t street in
      mkTracker r (startingBet orderResult) (-1) (playerOrder orderResult) 0 []
  end.

(** [class Deck] *)
Record Deck := mkDeck { deckCards : list Card; dealtCards : list Card }.

(** [Deck.reset]: suits outer, ranks inner. *)
Definition full_deck : list Card :=
  flat_map (fun s => map (fun r => mkCard r s)
    [Two; Three; Four; Five; Six; Seven; Eight; Nine; Ten; Jack; Queen; King; Ace])
    [Spades; Hearts; Diamonds; Clubs].

Definition deck_reset : Deck := mkDeck full_deck [].

(** Write [x] at index [i] of a list. *)
Definition list_set {A} (l : list A) (i : nat) (x : A) : list A :=
  firstn i l ++ x :: skipn (S i) l.

Section Shuffle.
(** [Math.floor(Math.random() * (i + 1))]: the random index drawn for
    position [i] of the Fisher-Yates loop, reduced into [0..i]. *)
Variable random_index : nat -> nat.

Fixpoint fisher_yates (i : nat) (cs : list Card) : list Card :=
  match i with
  | O => cs
  | S i' =>
      let j := Nat.modulo (random_index i) (S i) in
      let ci := nth i cs (mkCard Two Spades) in
      let cj := nth j cs (mkCard Two Spades) in
      fisher_yates i' (list_set (list_set cs i cj) j ci)
  end.

(** [Deck.shuffle] *)
Definition deck_shuffle (d : Deck) : Deck :=
  mkDeck (fisher_yates (pred (List.length (deckCards d))) (deckCards d)) (dealtCards d).

End Shuffle.

(** [Deck.dealCard]: pop from the end. *)
Definition dealCard (d : Deck) : result (Card * Deck) :=
  match rev (deckCards d) with
  | [] => Throw (Error "Cannot deal from empty deck")
  | c :: r => Ok (c, mkDeck (rev r) (dealtCards d ++ [c]))
  end.

Record HandManager := mkHM {
  table : Table;
  deck : Deck;
  potManager : PotManager;
  currentState : GameState;
  handNumber : Z;
  bettingTracker : option BettingRoundTracker
}.

(** A state-and-exception monad over the hand manager: a throw keeps the
    mutations done before it, as in the TypeScript code. *)
Definition HM (A : Type) : Type := HandManager -> result A * HandManager.

Definition ret {A} (a : A) : HM A := fun s => (Ok a, s).
Definition throw {A} (e : Exn) : HM A := fun s => (Throw e, s).
Definition bind {A B} (m : HM A) (k : A -> HM B) : HM B :=
  fun s => match m s with
           | (Ok a, s') => k a s'
           | (Throw e, s') => (Throw e, s')
           end.
Definition get : HM HandManager := fun s => (Ok s, s).
Definition put (s : HandManager) : HM unit := fun _ => (Ok tt, s).

Notation "x <- m ;; k" := (bind m (fun x => k)) (at level 61, m at next level, right associativity).
Notation "m ;;; k" := (bind m (fun _ => k)) (at level 61, right associativity).

Definition with_table (t : Table) (s : HandManager) : HandManager :=
  mkHM t (deck s) (potManager s) (currentState s) (handNumber s) (bettingTracker s).
Definition with_deck (d : Deck) (s : HandManager) : HandManager :=
  mkHM (table s) d (potManager s) (currentState s) (handNumber s) (bettingTracker s).
Definition with_state (g : GameState) (s : HandManager) : HandManager :=
  mkHM (table s) (deck s) (potManager s) g (handNumber s) (bettingTracker s).
Definition with_handNumber (n : Z) (s : HandManager) : HandManager :=
  mkHM (table s) (deck s) (potManager s) (currentState s) n (bettingTracker s).
Definition with_tracker (b : option BettingRoundTracker) (s : HandManager) : HandManager :=
  mkHM (table s) (deck s) (potManager s) (currentState s) (handNumber s) b.

(** [HandManager.setState] *)
Definition setState (newState : GameState) : HM unit :=
  s <- get ;;
  if isValidTransition (currentState s) newState
  then put (with_state newState s)
  else throw (Error ("Invalid state transition: " ++ GameState_string (currentState s)
                     ++ " -> " ++ GameState_string newState)).

(** [HandManager.postBlinds] on the shared table *)
Definition hm_postBlinds : HM unit :=
  fun s => let '(r, t') := postBlinds (table s) in (r, with_table t' s).

(** [Dealer.dealHoleCards]: two rounds, one card per active player each. *)
Fixpoint deal_round (ids : list string) : HM unit :=
  match ids with
  | [] => ret tt
  | pid :: rest =>
      s <- get ;;
      match dealCard (deck s) with
      | Throw e => throw e
      | Ok (card, d') =>
          match find (fun p => String.eqb (id p) pid) (getPlayers (table s)),
                findIndex (fun so => match so with
                                     | Some p => String.eqb (id p) pid
                                     | None => false end) (seats (table s)) with
          | Some p, pos =>
              if pos <? 0 then put (with_deck d' s) ;;; deal_round rest else
              let p' := mkPlayer (id p) (getHoleCards p ++ [card]) (chipCount p)
                          (currentBet p) (status p) (lastAction p) in
              put (with_table (set_seat (table s) pos p') (with_deck d' s)) ;;;
              deal_round rest
          | None, _ => put (with_deck d' s) ;;; deal_round rest
          end
      end
  end.

Definition dealHoleCards : HM unit :=
  s <- get ;;
  let players := getActivePlayers (table s) in
  if Nat.ltb (List.length players) 2 then throw (Error "Need at least 2 players to deal")
  else deal_round (map id players) ;;; deal_round (map id players).

(** [Dealer.prepareNewHand] *)
Definition prepareNewHand (random_index : nat -> nat) : HM unit :=
  s <- get ;;
  put (with_table (resetTableForNewHand (table s))
         (with_deck (deck_shuffle random_index deck_reset) s)).

(** [HandManager.startHand] *)
Definition startHand (random_index : nat -> nat) : HM unit :=
  s <- get ;;
  if negb (GameState_beq (currentState s) ReadyToStart)
  then throw (Error ("Cannot start hand from state: " ++ GameState_string (currentState s)))
  else
    put (with_handNumber (handNumber s + 1) s) ;;;
    prepareNewHand random_index ;;;
    s2 <- get ;;
    let playerCount := List.length (getActivePlayers (table s2)) in
    if Nat.ltb playerCount 2
    then throw (Error "Need at least 2 players to start hand")
    else
      setState PostingBlinds ;;;
      hm_postBlinds ;;;
      setState DealingHoleCards ;;;
      dealHoleCards ;;;
      setState PreflopBetting ;;;
      s3 <- get ;;
      put (with_tracker (Some (new_Tracker (table s3) RPreflop)) s3).

End Lifecycle.

(** ** Showdown (Dealer.determineWinners, Dealer.distributePots) *)

Module Showdown.
Import Hands Evaluator Seating Ledger.

(** The last step of [determineWinners]: sort by descending ranking and
    keep every hand comparing equal to the first. *)
Definition select_best (playerHands : list (Player * HandRanking))
  : list (Player * HandRanking) :=
  let sortedHands := js_sort (fun a b => compareTo (snd b) (snd a)) playerHands in
  match sortedHands with
  | [] => []
  | (_, bestHand) :: _ => filter (fun ph => compareTo (snd ph) bestHand =? 0) sortedHands
  end.

(** The evaluation loop of [determineWinners]. *)
Fixpoint evaluate_players (players : list Player) (communityCards : list Card)
  : result (list (Player * HandRanking)) :=
  match players with
  | [] => Ok []
  | player :: rest =>
      let allCards := getHoleCards player ++ communityCards in
      if Nat.ltb (List.length allCards) 5 then
        Throw (Error ("Player " ++ id player ++ " has insufficient cards to evaluate"))
      else
        let hand := if Nat.eqb (List.length allCards) 7
                    then evaluateBest7CardHand allCards
                    else evaluateHand (firstn 5 allCards) in
        match hand with
        | Throw e => Throw e
        | Ok h =>
            match evaluate_players rest communityCards with
            | Throw e => Throw e
            | Ok hs => Ok ((player, h) :: hs)
            end
        end
  end.

(** [Dealer.determineWinners] *)
Definition determineWinners (t : Table) : result (list (Player * HandRanking)) :=
  let players := filter (fun p => negb (hasFolded p)) (getPlayers t) in
  let communityCards := communityCards t in
  match players with
  | [] => Ok []
  | [winner] =>
      let holeCards := getHoleCards winner in
      let allCards := holeCards ++ communityCards in
      if Nat.leb 5 (List.length allCards) then
        match evaluateHand (firstn 5 allCards) with
        | Throw e => Throw e
        | Ok h => Ok [(winner, h)]
        end
      else Ok [(winner, mkHR HighCard holeCards 0 0 [])]
  | _ =>
      match evaluate_players players communityCards with
      | Throw e => Throw e
      | Ok playerHands => Ok (select_best playerHands)
      end
  end.

(** [Player.addChips] *)
Definition addChips (p : Player) (amount : Z) : result Player :=
  if amount <=? 0 then Throw (Error "Cannot add zero or negative chips")
  else
    let st := if PlayerStatus_eqb (status p) Eliminated && (0 <? chipCount p + amount)
              then Active else status p in
    Ok (mkPlayer (id p) (holeCards p) (chipCount p + amount) (currentBet p) st
          (lastAction p)).

(** Award the winnings to each winner with a positive amount; the result
    lists [(playerId, amountWon)]. *)
Fixpoint award (winners : list (Player * HandRanking)) (winnings : list (string * Z))
    (t : Table) : result (list (string * Z) * Table) :=
  match winners with
  | [] => Ok ([], t)
  | (player, _) :: rest =>
      let amount := get_or0 winnings (id player) in
      if 0 <? amount then
        let pos := ActionOrder.findIndex
                     (fun so => match so with
                                | Some q => String.eqb (id q) (id player)
                                | None => false end) (seats t) in
        match getPlayerAtSeat t pos with
        | None => Throw (Error "player not seated")
        | Some current =>
            match addChips current amount with
            | Throw e => Throw e
            | Ok p' =>
                match award rest winnings (set_seat t pos p') with
                | Throw e => Throw e
                | Ok (rs, t') => Ok ((id player, amount) :: rs, t')
                end
            end
        end
      else award rest winnings t
  end.

(** [Dealer.distributePots] *)
Definition dealer_distributePots (t : Table) (pm : PotManager)
  : result (list (string * Z) * Table) :=
  match determineWinners t with
  | Throw e => Throw e
  | Ok [] => Ok ([], t)
  | Ok winners =>
      let winnings := distributePots pm (map (fun w => id (fst w)) winners) in
      award winners winnings t
  end.

End Showdown.

(** ** The other betting actions of [Player] (src/models/Player.ts) *)

Module PlayerActions.
Import Hands Seating.

(** The common tail of [call], [raise]: add what was removed to the
    current bet; an emptied stack makes the player all-in. *)
Definition after_removal (p1 : Player) (actualAmount : Z) (act : PlayerAction) : Player :=
  let cb := currentBet p1 + actualAmount in
  if chipCount p1 =? 0
  then mkPlayer (id p1) (holeCards p1) (chipCount p1) cb AllIn (Some AllInAction)
  else mkPlayer (id p1) (holeCards p1) (chipCount p1) cb (status p1) (Some act).

(** [Player.call] *)
Definition call (p : Player) (betAmount : Z) : result (Z * Player) :=
  if negb (PlayerStatus_eqb (status p) Active)
  then Throw (Error ("Cannot call: player is " ++ PlayerStatus_string (status p)))
  else
    let amountNeeded := betAmount - currentBet p in
    match removeChips p amountNeeded with
    | Throw e => Throw e
    | Ok (actualAmount, p1) => Ok (actualAmount, after_removal p1 actualAmount Call)
    end.

(** [Player.raise] *)
Definition raise (p : Player) (raiseAmount : Z) : result (Z * Player) :=
  if negb (PlayerStatus_eqb (status p) Active)
  then Throw (Error ("Cannot raise: player is " ++ PlayerStatus_string (status p)))
  else
    let amountNeeded := raiseAmount - currentBet p in
    match removeChips p amountNeeded with
    | Throw e => Throw e
    | Ok (actualAmount, p1) => Ok (actualAmount, after_removal p1 actualAmount Raise)
    end.

(** [Player.allIn] *)
Definition allIn (p : Player) : result (Z * Player) :=
  if negb (PlayerStatus_eqb (status p) Active)
  then Throw (Error ("Cannot go all-in: player is " ++ PlayerStatus_string (status p)))
  else
    let amount := chipCount p in
    match removeChips p amount with
    | Throw e => Throw e
    | Ok (_, p1) =>
        Ok (amount, mkPlayer (id p1) (holeCards p1) (chipCount p1)
                      (currentBet p1 + amount) AllIn (Some AllInAction))
    end.

(** [Player.fold] *)
Definition fold (p : Player) : result Player :=
  if negb (PlayerStatus_eqb (status p) Active)
  then Throw (Error ("Cannot fold: player is " ++ PlayerStatus_string (status p)))
  else Ok (mkPlayer (id p) [] (chipCount p) (currentBet p) Folded (Some Fold)).

(** [Player.resetBet] *)
Definition resetBet (p : Player) : Player :=
  mkPlayer (id p) (holeCards p) (chipCount p) 0 (status p) None.

End PlayerActions.

(** ** Seat management of [Table] (src/models/Table.ts) *)

Module TableOps.
Import Hands Seating.

(** [`${n}`] for an integer. *)
Definition string_of_Z (z : Z) : string :=
  if z <? 0 then "-" ++ string_of_nat (Z.to_nat (- z))
  else string_of_nat (Z.to_nat z).

(** [Table.seatPlayer]; reading [isEmpty] of a missing seat is a
    [TypeError]. *)
Definition seatPlayer (t : Table) (player : Player) (seatPosition : Z) : result Table :=
  if (seatPosition <? 0) || (maxSeats (config t) <=? seatPosition)
  then Throw (Error ("Invalid seat position: " ++ string_of_Z seatPosition))
  else match seat_at t seatPosition with
       | Some None => Ok (set_seat t seatPosition player)
       | Some (Some _) =>
           Throw (Error ("Seat " ++ string_of_Z seatPosition ++ " is already occupied"))
       | None => Throw (Error "Cannot read properties of undefined (reading 'isEmpty')")
       end.

(** [this.seats.find((s) => s.player?.id === playerId)], emptied. *)
Fixpoint remove_first (playerId : string) (ss : list (option Player))
  : bool * list (option Player) :=
  match ss with
  | [] => (false, [])
  | Some p :: r =>
      if String.eqb (id p) playerId then (true, None :: r)
      else let '(b, r') := remove_first playerId r in (b, Some p :: r')
  | None :: r => let '(b, r') := remove_first playerId r in (b, None :: r')
  end.

(** [Table.removePlayer]: the result and the table afterwards. *)
Definition removePlayer (t : Table) (playerId : string) : bool * Table :=
  let '(b, ss) := remove_first playerId (seats t) in
  (b, mkTable ss (buttonPosition t) (communityCards t) (config t)).

(** [Table.getPlayer] *)
Definition getPlayer (t : Table) (playerId : string) : option Player :=
  match find (fun s => match s with Some p => String.eqb (id p) playerId
                                  | None => false end) (seats t) with
  | Some (Some p) => Some p
  | _ => None
  end.

(** [this.seats.find((s) => s.isEmpty)?.position]; seat [i] has
    [position = i]. *)
Fixpoint first_empty (i : Z) (ss : list (option Player)) : option Z :=
  match ss with
  | [] => None
  | None :: _ => Some i
  | Some _ :: r => first_empty (i + 1) r
  end.

(** [Table.getNextEmptySeat] *)
Definition getNextEmptySeat (t : Table) : option Z := first_empty 0 (seats t).

(** [this.seats[position]?.isEmpty] *)
Definition empty_seat (t : Table) (position : Z) : bool :=
  match seat_at t position with Some None => true | _ => false end.

(** The [while] loop of [moveButton]; [attempts] grows by one per
    iteration, so [maxSeats + 1] rounds of fuel always suffice. *)
Fixpoint move_loop (fuel : nat) (t : Table) (position attempts : Z) : Z * Z :=
  match fuel with
  | O => (position, attempts)
  | S f =>
      if empty_seat t position && (attempts <? maxSeats (config t))
      then move_loop f t (Z.rem (position + 1) (maxSeats (config t))) (attempts + 1)
      else (position, attempts)
  end.

(** [Table.moveButton] *)
Definition moveButton (t : Table) : result Table :=
  let ms := maxSeats (config t) in
  let '(nextPosition, attempts) :=
    move_loop (S (Z.to_nat ms)) t (Z.rem (buttonPosition t + 1) ms) 0 in
  if ms <=? attempts then Throw (Error "No occupied seats to move button to")
  else Ok (mkTable (seats t) nextPosition (communityCards t) (config t)).

(** The [for (i < maxSeats)] loop of [getPlayersInOrder]. *)
Fixpoint in_order_loop (fuel : nat) (t : Table) (position : Z) : list Player :=
  match fuel with
  | O => []
  | S f =>
      match seat_at t position with Some (Some p) => [p] | _ => [] end
      ++ in_order_loop f t (Z.rem (position + 1) (maxSeats (config t)))
  end.

(** [Table.getPlayersInOrder] *)
Definition getPlayersInOrder (t : Table) (startPosition : Z) : list Player :=
  in_order_loop (Z.to_nat (maxSeats (config t))) t startPosition.

(** [Table.getActivePlayersInOrder] *)
Definition getActivePlayersInOrder (t : Table) (startPosition : Z) : list Player :=
  filter (fun p => PlayerStatus_eqb (status p) Active) (getPlayersInOrder t startPosition).

End TableOps.

(** ** Dealing from the deck (src/models/Deck.ts, src/models/Dealer.ts) *)

Module DeckOps.
Import Hands Seating Lifecycle TableOps.

(** [Deck.dealCard] on the dealer's deck. *)
Definition hm_dealCard : HM Card :=
  s <- get ;;
  match dealCard (deck s) with
  | Throw e => throw e
  | Ok (card, d') => put (with_deck d' s) ;;; ret card
  end.

(** The [for (let i = 0; i < count; i++) dealt.push(this.dealCard())] loop. *)
Fixpoint deal_loop (n : nat) : HM (list Card) :=
  match n with
  | O => ret []
  | S n' => card <- hm_dealCard ;; dealt <- deal_loop n' ;; ret (card :: dealt)
  end.

(** [Deck.dealCards]; a negative [count] runs the loop zero times. *)
Definition hm_dealCards (count : Z) : HM (list Card) :=
  s <- get ;;
  let remaining := List.length (deckCards (deck s)) in
  if Z.of_nat remaining <? count
  then throw (Error ("Cannot deal " ++ string_of_Z count ++ " cards, only "
                     ++ string_of_nat remaining ++ " remaining"))
  else deal_loop (Z.to_nat count).

(** [Deck.burnCard] *)
Definition hm_burnCard : HM unit := hm_dealCard ;;; ret tt.

(** [Table.setCommunityCards] *)
Definition setCommunityCards (t : Table) (cs : list Card) : Table :=
  mkTable (seats t) (buttonPosition t) cs (config t).

(** [Dealer.dealFlop] *)
Definition dealFlop : HM (list Card) :=
  hm_burnCard ;;;
  flopCards <- hm_dealCards 3 ;;
  s <- get ;;
  put (with_table (setCommunityCards (table s) flopCards) s) ;;;
  ret flopCards.

(** [Dealer.dealTurn] and [Dealer.dealRiver] (the same code). *)
Definition dealTurn : HM Card :=
  hm_burnCard ;;;
  turnCard <- hm_dealCard ;;
  s <- get ;;
  put (with_table (setCommunityCards (table s) (communityCards (table s) ++ [turnCard])%list) s) ;;;
  ret turnCard.

Definition dealRiver : HM Card :=
  hm_burnCard ;;;
  riverCard <- hm_dealCard ;;
  s <- get ;;
  put (with_table (setCommunityCards (table s) (communityCards (table s) ++ [riverCard])%list) s) ;;;
  ret riverCard.

(** [HandManager.dealRemainingCards] *)
Definition dealRemainingCards : HM unit :=
  s <- get ;;
  let cc := List.length (communityCards (table s)) in
  (if Nat.ltb cc 3 then dealFlop ;;; ret tt else ret tt) ;;;
  (if Nat.ltb cc 4 then dealTurn ;;; ret tt else ret tt) ;;;
  (if Nat.ltb cc 5 then dealRiver ;;; ret tt else ret tt).

End DeckOps.

(** ** Hand flow of [HandManager] (src/engine/GameState.ts,
    src/engine/HandManager.ts) *)

Module HandFlow.
Import Ledger Hands Seating Lifecycle PlayerActions TableOps.

(** [getNextState] *)
Definition getNextState (current : GameState) (allButOneFolded : bool) : GameState :=
  if allButOneFolded && isBettingState current then HandComplete
  else match current with
       | WaitingForPlayers => ReadyToStart
       | ReadyToStart => PostingBlinds
       | PostingBlinds => DealingHoleCards
       | DealingHoleCards => PreflopBetting
       | PreflopBetting => DealingFlop
       | DealingFlop => FlopBetting
       | FlopBetting => DealingTurn
       | DealingTurn => TurnBetting
       | TurnBetting => DealingRiver
       | DealingRiver => RiverBetting
       | RiverBetting => Showdown
       | Showdown => HandComplete
       | HandComplete => ReadyToStart
       | GameOver => GameOver
       end.

(** [HandManager.setReadyToStart] *)
Definition setReadyToStart : HM unit :=
  s <- get ;;
  if GameState_beq (currentState s) ReadyToStart then ret tt
  else if negb (GameState_beq (currentState s) WaitingForPlayers)
  then throw (Error ("Cannot transition to ReadyToStart from state: "
                     ++ GameState_string (currentState s)))
  else if Nat.ltb (List.length (getActivePlayers (table s))) 2
  then throw (Error "Need at least 2 players to be ready to start")
  else setState ReadyToStart.

(** [Player.isEliminated] *)
Definition isEliminated (p : Player) : bool :=
  Z.eqb (chipCount p) 0 || PlayerStatus_eqb (status p) Eliminated.

(** The loop of [prepareNextHand] over the players read before it. *)
Fixpoint remove_eliminated (t : Table) (players : list Player) : Table :=
  match players with
  | [] => t
  | player :: rest =>
      remove_eliminated (if isEliminated player then snd (removePlayer t (id player)) else t) rest
  end.

(** [HandManager.prepareNextHand]; [PotManager.reset] puts back a new
    empty main pot and no side pots. *)
Definition prepareNextHand : HM unit :=
  s <- get ;;
  if negb (GameState_beq (currentState s) HandComplete)
  then throw (Error ("Cannot prepare next hand from state: " ++ GameState_string (currentState s)))
  else match moveButton (table s) with
       | Throw e => throw e
       | Ok t1 =>
           let t2 := remove_eliminated t1 (getPlayers t1) in
           put (mkHM t2 (deck s) (mkPM (mkPot [] []) []) (currentState s) (handNumber s)
                  (bettingTracker s)) ;;;
           if Nat.ltb (List.length (getPlayers t2)) 2
           then setState GameOver
           else setState ReadyToStart
       end.

(** [HandManager.isGameOver] *)
Definition isGameOver (s : HandManager) : bool :=
  GameState_beq (currentState s) GameOver || Nat.ltb (List.length (getPlayers (table s))) 2.

(** The loop of [HandManager.collectBets] building [playerBets],
    [allInPlayers] and [foldedPlayers]. *)
Definition collect_loop (players : list Player)
  : list (string * Z) * list string * list string :=
  fold_left (fun acc player =>
               let '(playerBets, allInPlayers, foldedPlayers) := acc in
               (map_set playerBets (id player) (currentBet player),
                if PlayerStatus_eqb (status player) AllIn
                then set_add String.eqb allInPlayers (id player) else allInPlayers,
                if PlayerStatus_eqb (status player) Folded
                then set_add String.eqb foldedPlayers (id player) else foldedPlayers))
    players ([], [], []).

(** [player.resetBet()] on every seated player. *)
Definition reset_bets (t : Table) : Table :=
  mkTable (map (option_map resetBet) (seats t)) (buttonPosition t) (communityCards t) (config t).

(** [HandManager.collectBets]; the ledger's [collectBets] returns the new
    pot manager, so a throw inside it leaves the old one. *)
Definition hm_collectBets : HM unit :=
  s <- get ;;
  let '(playerBets, allInPlayers, foldedPlayers) := collect_loop (getPlayers (table s)) in
  match collectBets (potManager s) playerBets allInPlayers foldedPlayers with
  | Throw e => throw e
  | Ok pm' =>
      put (mkHM (reset_bets (table s)) (deck s) pm' (currentState s) (handNumber s)
             (bettingTracker s))
  end.

End HandFlow.

(** * Properties *)

Import Ledger Hands Evaluator Seating ActionOrder Lifecycle Showdown
  PlayerActions TableOps DeckOps HandFlow.
Open Scope string_scope.
Open Scope Z_scope.

(** ** State machine *)

Lemma isValidTransition_spec (from to : GameState) :
  isValidTransition from to = true <-> spec_edge from to.
Proof.
  unfold spec_edge.
  destruct from, to; cbn; split; intros H;
    repeat match goal with
           | H : _ \/ _ |- _ => destruct H
           | H : _ /\ _ |- _ => destruct H
           end;
    try discriminate; try congruence; auto;
    try (left; reflexivity);
    try (right; left; split; [reflexivity | auto]);
    try (right; right; split; [reflexivity | auto]).
Qed.

(** C3: [setState] accepts exactly the edges of the spec's graph: an edge
    moves [currentState] to the target, any other pair throws the
    invalid-state-transition error and leaves the manager unchanged. *)
Theorem setState_exactly_spec_graph (s : HandManager) (to : GameState) :
  (isValidTransition (currentState s) to = true <-> spec_edge (currentState s) to)
  /\ (spec_edge (currentState s) to -> setState to s = (Ok tt, with_state to s))
  /\ (~ spec_edge (currentState s) to ->
      setState to s =
        (Throw (Error ("Invalid state transition: " ++ GameState_string (currentState s)
                       ++ " -> " ++ GameState_string to)), s)).
Proof.
  pose proof (isValidTransition_spec (currentState s) to) as Hs.
  split; [exact Hs|split]; intros H; unfold setState, bind, get, put, throw; cbn.
  - apply Hs in H. now rewrite H.
  - destruct (isValidTransition (currentState s) to) eqn:E.
    + exfalso. apply H, Hs. reflexivity.
    + reflexivity.
Qed.

(** ** Pot ledger: no-op collection and re-eligibility *)

Lemma set_of_list_nil {A} (eqb : A -> A -> bool) : set_of_list eqb [] = [].
Proof. reflexivity. Qed.

Lemma filter_pos_nil (bets : list (string * Z)) :
  forallb (fun kv => snd kv <=? 0) bets = true ->
  filter (fun amt => 0 <? amt) (map snd bets) = [].
Proof.
  induction bets as [|[k v] r IH]; cbn; intros H; [reflexivity|].
  apply andb_true_iff in H as [H1 H2].
  rewrite IH by exact H2.
  destruct (0 <? v) eqn:E; [|reflexivity].
  apply Z.leb_le in H1. apply Z.ltb_lt in E. lia.
Qed.

(** C9: with an empty map, or one without a strictly positive amount,
    [collectBets] returns normally and leaves the pots unchanged. *)
Theorem collectBets_no_positive_noop (pm : PotManager) (bets : list (string * Z))
    (allIn folded : list string) :
  bets = [] \/ forallb (fun kv => snd kv <=? 0) bets = true ->
  collectBets pm bets allIn folded = Ok pm.
Proof.
  intros [H|H].
  - subst. reflexivity.
  - unfold collectBets, uniqueBetAmounts.
    rewrite (filter_pos_nil bets H). cbn.
    destruct bets; reflexivity.
Qed.

Lemma collectBets_no_positive_noop_witness :
  (["p1"; "p2"] = [] \/ forallb (fun kv => snd kv <=? 0) [("p1", 0); ("p2", -3)] = true)
  /\ collectBets new_PotManager [("p1", 0); ("p2", -3)] [] ["p2"] = Ok new_PotManager.
Proof.
  split.
  - right. reflexivity.
  - apply (collectBets_no_positive_noop new_PotManager [("p1", 0); ("p2", -3)] [] ["p2"]).
    right. reflexivity.
Defined.

(** C10: a positive contribution after [removePlayerEligibility p] does not
    throw and makes [p] eligible again. *)
Theorem addContribution_restores_eligibility (pot : Pot) (p : string) (a : Z) :
  0 < a ->
  exists pot', addContribution (removePlayerEligibility pot p) p a = Ok pot'
               /\ isPlayerEligible pot' p = true.
Proof.
  intros Ha. unfold addContribution.
  destruct (a <=? 0) eqn:E; [apply Z.leb_le in E; lia|].
  eexists; split; [reflexivity|].
  unfold isPlayerEligible, set_has; cbn.
  destruct (existsb (String.eqb p) (set_delete String.eqb (eligiblePlayerIds pot) p)) eqn:Hs.
  - rewrite Hs. reflexivity.
  - rewrite existsb_app. cbn. rewrite String.eqb_refl.
    apply orb_true_r.
Qed.

Lemma addContribution_restores_eligibility_witness :
  exists pot', addContribution (removePlayerEligibility (mkPot [("p1", 20)] ["p1"]) "p1") "p1" 5
                 = Ok pot' /\ isPlayerEligible pot' "p1" = true.
Proof.
  apply (addContribution_restores_eligibility (mkPot [("p1", 20)] ["p1"]) "p1" 5).
  lia.
Defined.

(** ** startHand on too few players *)

(** C8: from ReadyToStart, when the active-player count after the reset is
    below 2, [startHand] throws after having incremented the hand number,
    reset and shuffled the deck and reset every player for the new hand;
    [currentState] stays ReadyToStart. *)
Theorem startHand_not_atomic (random_index : nat -> nat) (s : HandManager) :
  currentState s = ReadyToStart ->
  (List.length (getActivePlayers (resetTableForNewHand (table s))) < 2)%nat ->
  startHand random_index s =
    (Throw (Error "Need at least 2 players to start hand"),
     mkHM (resetTableForNewHand (table s)) (deck_shuffle random_index deck_reset)
       (potManager s) ReadyToStart (handNumber s + 1) (bettingTracker s)).
Proof.
  intros Hst Hlt.
  destruct s as [t d pm st n tr]; cbn [currentState table] in Hst, Hlt; subst st.
  apply Nat.ltb_lt in Hlt.
  unfold startHand, prepareNewHand, bind, get, put, throw.
  cbn [currentState GameState_beq negb table with_handNumber with_table with_deck].
  rewrite Hlt. reflexivity.
Qed.

Definition c8_table : Table :=
  mkTable [Some (new_Player "a" 1000); Some (mkPlayer "b" [] 1000 0 SittingOut None)]
    0 [] (mkConfig 2 5 10).

Lemma startHand_not_atomic_witness :
  currentState (mkHM c8_table deck_reset new_PotManager ReadyToStart 4 None) = ReadyToStart
  /\ (List.length (getActivePlayers (resetTableForNewHand c8_table)) < 2)%nat
  /\ startHand (fun _ => O) (mkHM c8_table deck_reset new_PotManager ReadyToStart 4 None) =
     (Throw (Error "Need at least 2 players to start hand"),
      mkHM (resetTableForNewHand c8_table) (deck_shuffle (fun _ => O) deck_reset)
        new_PotManager ReadyToStart 5 None).
Proof.
  split; [reflexivity|]. split; [cbn; lia|].
  apply (startHand_not_atomic (fun _ => O)
           (mkHM c8_table deck_reset new_PotManager ReadyToStart 4 None)).
  - reflexivity.
  - cbn. lia.
Defined.

(** ** Wheel and no wrap-around *)

(** C6: A,5,4,3,2 of one suit is a StraightFlush with primaryValue 5;
    Q,K,A,2,3 (any suits) is evaluated, and never as Straight or
    StraightFlush. *)
Theorem evaluateHand_wheel_no_wrap :
  (forall s : Suit,
     exists h, evaluateHand [mkCard Ace s; mkCard Five s; mkCard Four s;
                             mkCard Three s; mkCard Two s] = Ok h
               /\ category h = StraightFlush /\ primaryValue h = 5)
  /\ (forall s1 s2 s3 s4 s5 : Suit,
        exists h, evaluateHand [mkCard Queen s1; mkCard King s2; mkCard Ace s3;
                                mkCard Two s4; mkCard Three s5] = Ok h
                  /\ category h <> Straight /\ category h <> StraightFlush).
Proof.
  split.
  - intros s; destruct s; eexists; (split; [vm_compute; reflexivity | split; reflexivity]).
  - intros s1 s2 s3 s4 s5.
    destruct s1, s2, s3, s4, s5;
      eexists; (split; [vm_compute; reflexivity | split; discriminate]).
Qed.

(** ** compareTo *)

Lemma kicker_loop_antisym (a b : list Z) (n i : nat) :
  kicker_loop a b i n = - kicker_loop b a i n.
Proof.
  revert i; induction n as [|n IH]; intros i; cbn; [reflexivity|].
  rewrite (Z.eqb_sym (nth i b 0)).
  destruct (nth i a 0 =? nth i b 0); cbn; [apply IH | lia].
Qed.

Lemma compareTo_antisym (a b : HandRanking) : compareTo a b = - compareTo b a.
Proof.
  unfold compareTo.
  rewrite (Z.eqb_sym (HandRank_value (category b))),
          (Z.eqb_sym (primaryValue b)), (Z.eqb_sym (secondaryValue b)),
          (Nat.max_comm (List.length (kickers b))).
  destruct (HandRank_value (category a) =? HandRank_value (category b)); cbn; [|lia].
  destruct (primaryValue a =? primaryValue b); cbn; [|lia].
  destruct (secondaryValue a =? secondaryValue b); cbn; [|lia].
  apply kicker_loop_antisym.
Qed.

Lemma kicker_loop_past_end (a b : list Z) (n i : nat) :
  (Nat.max (List.length a) (List.length b) <= i)%nat -> kicker_loop a b i n = 0.
Proof.
  revert i; induction n as [|n IH]; intros i Hi; cbn; [reflexivity|].
  rewrite (nth_overflow a), (nth_overflow b) by lia. cbn. apply IH. lia.
Qed.

(** The loop bound only matters up to the longer kicker list. *)
Lemma kicker_loop_extend (a b : list Z) (n k i : nat) :
  (Nat.max (List.length a) (List.length b) <= i + n)%nat ->
  kicker_loop a b i n = kicker_loop a b i (n + k).
Proof.
  revert i; induction n as [|n IH]; intros i Hi; cbn.
  - symmetry. apply kicker_loop_past_end. lia.
  - destruct (negb (nth i a 0 =? nth i b 0)); [reflexivity|]. apply IH. lia.
Qed.

Lemma kicker_loop_trans (a b c : list Z) (n i : nat) :
  0 < kicker_loop a b i n -> 0 < kicker_loop b c i n -> 0 < kicker_loop a c i n.
Proof.
  revert i; induction n as [|n IH]; intros i; cbn; [lia|].
  destruct (nth i a 0 =? nth i b 0) eqn:E1, (nth i b 0 =? nth i c 0) eqn:E2,
           (nth i a 0 =? nth i c 0) eqn:E3; cbn;
    rewrite ?Z.eqb_eq, ?Z.eqb_neq in *; try lia.
  apply IH.
Qed.

Lemma kicker_loop_zero (a b : list Z) (n i : nat) :
  kicker_loop a b i n = 0 <-> (forall j, (i <= j < i + n)%nat -> nth j a 0 = nth j b 0).
Proof.
  revert i; induction n as [|n IH]; intros i; cbn.
  - split; [intros _ j Hj; lia | reflexivity].
  - destruct (nth i a 0 =? nth i b 0) eqn:E; cbn; rewrite ?Z.eqb_eq, ?Z.eqb_neq in E.
    + rewrite IH. split.
      * intros H j Hj. destruct (Nat.eq_dec j i); [subst; exact E|]. apply H. lia.
      * intros H j Hj. apply H. lia.
    + split; [lia|]. intros H. exfalso. apply E, H. lia.
Qed.

Lemma HandRank_value_inj (r1 r2 : HandRank) : HandRank_value r1 = HandRank_value r2 -> r1 = r2.
Proof. destruct r1, r2; cbn; congruence. Qed.

Definition kicker_cmp (a b : HandRanking) : Z :=
  kicker_loop (kickers a) (kickers b) 0
    (Nat.max (List.length (kickers a)) (List.length (kickers b))).

Lemma compareTo_pos_iff (a b : HandRanking) :
  0 < compareTo a b <->
  HandRank_value (category a) > HandRank_value (category b)
  \/ (HandRank_value (category a) = HandRank_value (category b)
      /\ (primaryValue a > primaryValue b
          \/ (primaryValue a = primaryValue b
              /\ (secondaryValue a > secondaryValue b
                  \/ (secondaryValue a = secondaryValue b /\ 0 < kicker_cmp a b))))).
Proof.
  unfold compareTo, kicker_cmp.
  destruct (HandRank_value (category a) =? HandRank_value (category b)) eqn:E1;
    rewrite ?Z.eqb_eq, ?Z.eqb_neq in E1; cbn; [|lia].
  destruct (primaryValue a =? primaryValue b) eqn:E2;
    rewrite ?Z.eqb_eq, ?Z.eqb_neq in E2; cbn; [|lia].
  destruct (secondaryValue a =? secondaryValue b) eqn:E3;
    rewrite ?Z.eqb_eq, ?Z.eqb_neq in E3; cbn; lia.
Qed.

Lemma kicker_cmp_at (a b : HandRanking) (N : nat) :
  (Nat.max (List.length (kickers a)) (List.length (kickers b)) <= N)%nat ->
  kicker_cmp a b = kicker_loop (kickers a) (kickers b) 0 N.
Proof.
  intros H. unfold kicker_cmp.
  set (M := Nat.max (List.length (kickers a)) (List.length (kickers b))) in *.
  assert (HN : N = (M + (N - M))%nat) by lia.
  rewrite HN. apply kicker_loop_extend. unfold M. lia.
Qed.

Lemma kicker_cmp_trans (a b c : HandRanking) :
  0 < kicker_cmp a b -> 0 < kicker_cmp b c -> 0 < kicker_cmp a c.
Proof.
  set (N := Nat.max (List.length (kickers a))
              (Nat.max (List.length (kickers b)) (List.length (kickers c)))).
  rewrite (kicker_cmp_at a b N), (kicker_cmp_at b c N), (kicker_cmp_at a c N)
    by (unfold N; lia).
  apply kicker_loop_trans.
Qed.

(** C7 (as amended): [compareTo] is antisymmetric in sign, transitive, and
    returns 0 exactly when category, primaryValue and secondaryValue match
    and the kicker lists match once the shorter is padded with zeros. *)
Theorem compareTo_order_amended (a b c : HandRanking) :
  Z.sgn (compareTo a b) = - Z.sgn (compareTo b a)
  /\ (0 < compareTo a b -> 0 < compareTo b c -> 0 < compareTo a c)
  /\ (compareTo a b = 0 <->
      category a = category b /\ primaryValue a = primaryValue b
      /\ secondaryValue a = secondaryValue b
      /\ forall i, nth i (kickers a) 0 = nth i (kickers b) 0).
Proof.
  split; [|split].
  - rewrite (compareTo_antisym a b). apply Z.sgn_opp.
  - rewrite !compareTo_pos_iff.
    pose proof (kicker_cmp_trans a b c).
    intros H1 H2.
    destruct H1 as [H1|[H1 [H3|[H3 [H5|[H5 H7]]]]]],
             H2 as [H2|[H2 [H4|[H4 [H6|[H6 H8]]]]]]; lia.
  - unfold compareTo.
    destruct (HandRank_value (category a) =? HandRank_value (category b)) eqn:E1;
      rewrite ?Z.eqb_eq, ?Z.eqb_neq in E1; cbn;
      [|split; [lia|intros [H _]; exfalso; apply E1; now rewrite H]].
    destruct (primaryValue a =? primaryValue b) eqn:E2;
      rewrite ?Z.eqb_eq, ?Z.eqb_neq in E2; cbn; [|split; [lia|tauto]].
    destruct (secondaryValue a =? secondaryValue b) eqn:E3;
      rewrite ?Z.eqb_eq, ?Z.eqb_neq in E3; cbn; [|split; [lia|tauto]].
    rewrite kicker_loop_zero. split.
    + intros H. split; [now apply HandRank_value_inj|]. split; [exact E2|].
      split; [exact E3|]. intros i.
      destruct (Nat.lt_ge_cases i (Nat.max (List.length (kickers a))
                                    (List.length (kickers b)))) as [Hi|Hi].
      * apply H. lia.
      * rewrite !nth_overflow by lia. reflexivity.
    + intros (_ & _ & _ & H) j _. apply H.
Qed.

(** C7 refuted as stated: two rankings whose kicker lists differ ([[]]
    against [[0]]) still compare equal. *)
Lemma compareTo_zero_with_different_kickers :
  compareTo (mkHR HighCard [] 0 0 []) (mkHR HighCard [] 0 0 [0]) = 0
  /\ kickers (mkHR HighCard [] 0 0 []) <> kickers (mkHR HighCard [] 0 0 [0]).
Proof. split; [reflexivity | discriminate]. Qed.

(** ** Pot distribution *)

Definition sum_values (m : list (string * Z)) : Z :=
  fold_right (fun kv acc => snd kv + acc) 0 m.

(** The pot invariant kept by [addContribution]: every amount is positive. *)
Definition pot_invariant (pot : Pot) : Prop :=
  Forall (fun kv => 0 < snd kv) (contributions pot).

(** The split of spec section 4.2, written from the spec's words: among
    the [n] eligible winner entries [ew], the first gets
    [floor(T/n) + T mod n], every other entry [floor(T/n)]. *)
Definition credit_of (ew : list string) (T : Z) (p : string) : Z :=
  match ew with
  | [] => 0
  | first :: rest =>
      let n := Z.of_nat (List.length ew) in
      (if String.eqb first p then T / n + T mod n else 0)
      + T / n * Z.of_nat (count_occ String.string_dec rest p)
  end.

Lemma get_or0_map_set (m : list (string * Z)) (k p : string) (v : Z) :
  get_or0 (map_set m k v) p = if String.eqb p k then v else get_or0 m p.
Proof.
  unfold get_or0. induction m as [|[k' v'] r IH]; cbn.
  - destruct (String.eqb p k); reflexivity.
  - destruct (String.eqb k k') eqn:E; cbn.
    + apply String.eqb_eq in E; subst k'. destruct (String.eqb p k); reflexivity.
    + destruct (String.eqb p k') eqn:E2; [|exact IH].
      apply String.eqb_eq in E2; subst k'.
      destruct (String.eqb p k) eqn:E3; [|reflexivity].
      apply String.eqb_eq in E3; subst. rewrite String.eqb_refl in E. discriminate.
Qed.

Lemma sum_map_set (m : list (string * Z)) (k : string) (v : Z) :
  sum_values (map_set m k v) = sum_values m - get_or0 m k + v.
Proof.
  unfold get_or0. induction m as [|[k' v'] r IH]; cbn; [lia|].
  destruct (String.eqb k k'); cbn; [lia|]. unfold sum_values in IH. lia.
Qed.

Lemma fold_sum (l : list (string * Z)) (acc : Z) :
  fold_left (fun s kv => s + snd kv) l acc = acc + sum_values l.
Proof.
  revert acc; induction l as [|kv r IH]; intros acc; cbn; [lia|].
  rewrite IH. unfold sum_values. lia.
Qed.

Lemma total_sum (pot : Pot) : total pot = sum_values (contributions pot).
Proof. unfold total. rewrite fold_sum. lia. Qed.

Lemma sum_values_nonneg (m : list (string * Z)) :
  Forall (fun kv => 0 < snd kv) m -> 0 <= sum_values m.
Proof. induction 1; cbn; [lia|]. unfold sum_values in IHForall. lia. Qed.

Lemma total_nonneg (pot : Pot) : pot_invariant pot -> 0 <= total pot.
Proof. intros H. rewrite total_sum. now apply sum_values_nonneg. Qed.

Lemma get_or0_nonneg (m : list (string * Z)) (k : string) :
  Forall (fun kv => 0 < snd kv) m -> 0 <= get_or0 m k.
Proof.
  unfold get_or0. induction 1 as [|[k' v] r Hv _ IH]; cbn; [lia|].
  destruct (String.eqb k k'); cbn in *; lia.
Qed.

Lemma map_set_forall (m : list (string * Z)) (k : string) (v : Z) :
  Forall (fun kv => 0 < snd kv) m -> 0 < v -> Forall (fun kv => 0 < snd kv) (map_set m k v).
Proof.
  induction 1 as [|[k' v'] r Hv Hr IH]; intros Hpos; cbn.
  - constructor; [exact Hpos | constructor].
  - destruct (String.eqb k k'); constructor; auto.
Qed.

(** The pot invariant holds for a new pot and is kept by [addContribution]. *)
Lemma pot_invariant_new (e : list string) : pot_invariant (new_Pot e).
Proof. constructor. Qed.

Lemma pot_invariant_addContribution (pot pot' : Pot) (p : string) (a : Z) :
  pot_invariant pot -> addContribution pot p a = Ok pot' -> pot_invariant pot'.
Proof.
  unfold addContribution, pot_invariant. intros Hinv H.
  destruct (a <=? 0) eqn:E; [discriminate|]. injection H as <-; cbn.
  apply Z.leb_gt in E. apply map_set_forall; [exact Hinv|].
  pose proof (get_or0_nonneg _ p Hinv). lia.
Qed.

Lemma credit_winners_get (b : bool) (ew : list string) (q r : Z)
    (w : list (string * Z)) (p : string) :
  get_or0 (credit_winners b ew q r w) p =
  get_or0 w p + q * Z.of_nat (count_occ String.string_dec ew p)
  + (match ew with
     | f :: _ => if b && String.eqb f p then r else 0
     | [] => 0
     end).
Proof.
  revert b w; induction ew as [|f rest IH]; intros b w; cbn; [lia|].
  rewrite IH, get_or0_map_set.
  destruct (String.eqb f p) eqn:E.
  - apply String.eqb_eq in E; subst f. rewrite String.eqb_refl.
    destruct (String.string_dec p p) as [_|n]; [|contradiction].
    destruct b; cbn; destruct rest; lia.
  - rewrite String.eqb_sym, E.
    destruct (String.string_dec f p) as [e|_];
      [subst; rewrite String.eqb_refl in E; discriminate|].
    destruct b; cbn; destruct rest; lia.
Qed.

Lemma credit_winners_sum (b : bool) (ew : list string) (q r : Z)
    (w : list (string * Z)) :
  sum_values (credit_winners b ew q r w) =
  sum_values w + q * Z.of_nat (List.length ew)
  + (match ew with [] => 0 | _ :: _ => if b then r else 0 end).
Proof.
  revert b w; induction ew as [|f rest IH]; intros b w;
    cbn [credit_winners List.length]; [lia|].
  rewrite IH, sum_map_set. destruct b, rest; cbn [List.length]; lia.
Qed.

Lemma distributeSinglePot_split (pot : Pot) (winners : list string)
    (w : list (string * Z)) :
  pot_invariant pot ->
  (forall p, get_or0 (distributeSinglePot pot winners w) p =
             get_or0 w p + credit_of (filter (isPlayerEligible pot) winners) (total pot) p)
  /\ sum_values (distributeSinglePot pot winners w) =
     sum_values w + (match filter (isPlayerEligible pot) winners with
                     | [] => 0 | _ :: _ => total pot end).
Proof.
  intros Hinv. pose proof (total_nonneg pot Hinv) as HT.
  unfold distributeSinglePot.
  destruct (filter (isPlayerEligible pot) winners) as [|f rest] eqn:Ew.
  - destruct (total pot =? 0); split; intros; cbn; lia.
  - set (n := Z.of_nat (List.length (f :: rest))).
    assert (Hn : 0 < n) by (unfold n; cbn [List.length]; lia).
    assert (Hrem : Z.rem (total pot) n = total pot mod n)
      by (apply Z.rem_mod_nonneg; lia).
    destruct (total pot =? 0) eqn:E0.
    + apply Z.eqb_eq in E0. rewrite E0.
      split; [intros p; cbn [credit_of]; rewrite Z.div_0_l, Z.mod_0_l by lia;
              destruct (String.eqb f p); lia | lia].
    + fold n. rewrite Hrem. split.
      * intros p. rewrite credit_winners_get. cbn [credit_of count_occ andb].
        fold n.
        destruct (String.eqb f p) eqn:E.
        -- apply String.eqb_eq in E; subst f.
           destruct (String.string_dec p p) as [_|c]; [|contradiction]. lia.
        -- destruct (String.string_dec f p) as [e|_];
             [subst; rewrite String.eqb_refl in E; discriminate|]. lia.
      * rewrite credit_winners_sum.
        pose proof (Z.div_mod (total pot) n) as Hdm. fold n. lia.
Qed.

Lemma distribute_fold_split (pots : list Pot) (winners : list string)
    (w : list (string * Z)) :
  Forall pot_invariant pots ->
  (forall p, get_or0 (fold_left (fun w pot => distributeSinglePot pot winners w) pots w) p =
     get_or0 w p
     + fold_right (fun pot acc =>
         credit_of (filter (isPlayerEligible pot) winners) (total pot) p + acc) 0 pots)
  /\ sum_values (fold_left (fun w pot => distributeSinglePot pot winners w) pots w) =
     sum_values w
     + fold_right (fun pot acc =>
         (match filter (isPlayerEligible pot) winners with
          | [] => 0 | _ :: _ => total pot end) + acc) 0 pots.
Proof.
  revert w; induction pots as [|pot rest IH]; intros w Hall; cbn [fold_left fold_right].
  - split; [intros; lia | lia].
  - inversion Hall as [|? ? Hpot Hrest]; subst.
    destruct (distributeSinglePot_split pot winners w Hpot) as [Hg Hs].
    destruct (IH (distributeSinglePot pot winners w) Hrest) as [Hg' Hs'].
    split.
    + intros p. rewrite Hg', Hg. lia.
    + rewrite Hs', Hs. lia.
Qed.

(** C5: [distributePots] credits, for each pot (main pot first, then the
    side pots), its eligible winners as the split of the spec: with [n]
    eligible winner entries and total [T], the first entry gets
    [floor(T/n) + T mod n] and every other entry [floor(T/n)]; the map of
    winnings therefore grows by exactly [T] for every pot with an eligible
    winner (a pot without one pays nothing). *)
Theorem distributePots_split (pm : PotManager) (winners : list string) :
  Forall pot_invariant (mainPot pm :: sidePots pm) ->
  (forall p, get_or0 (distributePots pm winners) p =
     fold_right (fun pot acc =>
       credit_of (filter (isPlayerEligible pot) winners) (total pot) p + acc)
       0 (mainPot pm :: sidePots pm))
  /\ sum_values (distributePots pm winners) =
     fold_right (fun pot acc =>
       (match filter (isPlayerEligible pot) winners with
        | [] => 0 | _ :: _ => total pot end) + acc) 0 (mainPot pm :: sidePots pm).
Proof.
  intros Hall.
  destruct (distribute_fold_split (mainPot pm :: sidePots pm) winners [] Hall) as [Hg Hs].
  unfold distributePots. cbn [fold_left] in Hg, Hs.
  split.
  - intros p. rewrite Hg. reflexivity.
  - rewrite Hs. reflexivity.
Qed.

Definition c5_pm : PotManager :=
  mkPM (mkPot [("p1", 100); ("p2", 100); ("p3", 100)] ["p1"; "p2"; "p3"])
       [mkPot [("p3", 1)] ["p3"]].

Lemma distributePots_split_witness :
  Forall pot_invariant (mainPot c5_pm :: sidePots c5_pm)
  /\ get_or0 (distributePots c5_pm ["p2"; "p3"]) "p2" =
     fold_right (fun pot acc =>
       credit_of (filter (isPlayerEligible pot) ["p2"; "p3"]) (total pot) "p2" + acc)
       0 (mainPot c5_pm :: sidePots c5_pm).
Proof.
  assert (H : Forall pot_invariant (mainPot c5_pm :: sidePots c5_pm))
    by (repeat constructor; cbn; lia).
  split; [exact H|].
  exact (proj1 (distributePots_split c5_pm ["p2"; "p3"] H) "p2").
Defined.

(** ** Side pots at showdown *)

Definition c1_bets : list (string * Z) := [("p1", 50); ("p2", 200); ("p3", 200)].

Definition c1_pm : PotManager :=
  mkPM (mkPot [("p1", 50); ("p2", 50); ("p3", 50)] ["p1"; "p2"; "p3"])
       [mkPot [("p2", 150); ("p3", 150)] ["p2"; "p3"]].

Lemma c1_collect : collectBets new_PotManager c1_bets ["p1"] [] = Ok c1_pm.
Proof. vm_compute. reflexivity. Qed.

Definition c1_table : Table :=
  mkTable
    [Some (mkPlayer "p1" [mkCard Ace Spades; mkCard Ace Hearts] 0 0 AllIn None);
     Some (mkPlayer "p2" [mkCard Seven Clubs; mkCard Two Diamonds] 800 0 Active None);
     Some (mkPlayer "p3" [mkCard Eight Clubs; mkCard Three Diamonds] 800 0 Active None)]
    0
    [mkCard Ace Diamonds; mkCard King Spades; mkCard Nine Hearts;
     mkCard Five Clubs; mkCard Four Spades]
    (mkConfig 3 5 10).

Lemma compareTo_refl (a : HandRanking) : compareTo a a = 0.
Proof. pose proof (compareTo_antisym a a). lia. Qed.

Lemma select_best_strict (x1 x2 x3 : Player * HandRanking) :
  0 < compareTo (snd x1) (snd x2) -> 0 < compareTo (snd x1) (snd x3) ->
  select_best [x1; x2; x3] = [x1].
Proof.
  destruct x1 as [q1 h1], x2 as [q2 h2], x3 as [q3 h3]; cbn [snd].
  intros H12 H13.
  pose proof (compareTo_antisym h2 h1) as A2.
  pose proof (compareTo_antisym h3 h1) as A3.
  assert (E2 : (compareTo h1 h2 <? 0) = false) by (apply Z.ltb_ge; lia).
  assert (E3 : (compareTo h1 h3 <? 0) = false) by (apply Z.ltb_ge; lia).
  assert (F2 : (compareTo h2 h1 =? 0) = false) by (apply Z.eqb_neq; lia).
  assert (F3 : (compareTo h3 h1 =? 0) = false) by (apply Z.eqb_neq; lia).
  unfold select_best, js_sort. cbn [fold_left sort_insert snd].
  rewrite E2. cbn [sort_insert snd]. rewrite E3. cbn [sort_insert snd].
  destruct (compareTo h2 h3 <? 0);
    cbn [filter snd]; rewrite compareTo_refl, F2, F3; reflexivity.
Qed.

(** C1 (counterexample): with contributions {p1:50, p2:200, p3:200}, p1
    all-in and nobody folded, [collectBets] builds a main pot of 150 (all
    three eligible) and one side pot of 300 (p2 and p3 eligible).  On the
    table [c1_table], p1's pair of aces is the only best hand, and the payout
    of [Dealer.distributePots] is p1 receiving 150 and nobody else receiving
    anything: the 300 side pot is not paid to p2 or p3. *)
Lemma c1_side_pot_unpaid :
  collectBets new_PotManager c1_bets ["p1"] [] = Ok c1_pm
  /\ match dealer_distributePots c1_table c1_pm with
     | Ok (results, t') =>
         results = [("p1", 150)] /\ map chipCount (getPlayers t') = [150; 800; 800]
     | Throw _ => False
     end.
Proof. split; [exact c1_collect | vm_compute; split; reflexivity]. Qed.

(** C1 (amended): for the contributions {p1:50, p2:200, p3:200} with p1
    all-in and nobody folded, [collectBets] builds a main pot of 150 where
    p1, p2, p3 are eligible and exactly one side pot of 300 where p2 and p3
    are eligible.  On any table whose non-folded players are p1, p2, p3 and
    where p1's hand strictly beats the other two, [determineWinners] returns
    only p1, [distributePots] credits p1 exactly 150 and nobody else, and
    the payout of [Dealer.distributePots] is p1 receiving 150: the 300 side
    pot is left undistributed, not contested by p2 and p3. *)
Theorem c1_best_hand_takes_main_pot_only (t : Table) (q1 q2 q3 : Player)
    (h1 h2 h3 : HandRanking) :
  filter (fun p => negb (hasFolded p)) (getPlayers t) = [q1; q2; q3] ->
  evaluate_players [q1; q2; q3] (communityCards t) = Ok [(q1, h1); (q2, h2); (q3, h3)] ->
  id q1 = "p1" -> id q2 = "p2" -> id q3 = "p3" ->
  0 < compareTo h1 h2 -> 0 < compareTo h1 h3 ->
  collectBets new_PotManager c1_bets ["p1"] [] = Ok c1_pm
  /\ total (mainPot c1_pm) = 150
  /\ eligiblePlayerIds (mainPot c1_pm) = ["p1"; "p2"; "p3"]
  /\ map total (sidePots c1_pm) = [300]
  /\ map eligiblePlayerIds (sidePots c1_pm) = [["p2"; "p3"]]
  /\ determineWinners t = Ok [(q1, h1)]
  /\ distributePots c1_pm ["p1"] = [("p1", 150)]
  /\ (forall results t', dealer_distributePots t c1_pm = Ok (results, t') ->
        results = [("p1", 150)]).
Proof.
  intros Hf Hev Hid1 _ _ H12 H13.
  assert (Hdw : determineWinners t = Ok [(q1, h1)]).
  { unfold determineWinners. cbv zeta. rewrite Hf, Hev.
    rewrite (select_best_strict (q1, h1) (q2, h2) (q3, h3) H12 H13). reflexivity. }
  assert (Hdist : distributePots c1_pm ["p1"] = [("p1", 150)])
    by (vm_compute; reflexivity).
  split; [exact c1_collect|].
  split; [vm_compute; reflexivity|].
  split; [reflexivity|].
  split; [vm_compute; reflexivity|].
  split; [reflexivity|].
  split; [exact Hdw|].
  split; [exact Hdist|].
  intros results t' H.
  unfold dealer_distributePots in H. rewrite Hdw in H.
  cbn [map fst] in H. rewrite Hid1, Hdist in H.
  cbn [award] in H. rewrite Hid1 in H.
  change (get_or0 [("p1", 150)] "p1") with 150 in H. cbn [Z.ltb Z.compare] in H.
  destruct (getPlayerAtSeat t _) as [cur|]; [|discriminate].
  destruct (addChips cur 150) as [p'|e]; [|discriminate].
  cbn [award] in H. injection H as <- _. reflexivity.
Qed.

Lemma c1_best_hand_takes_main_pot_only_witness :
  filter (fun p => negb (hasFolded p)) (getPlayers c1_table)
    = [mkPlayer "p1" [mkCard Ace Spades; mkCard Ace Hearts] 0 0 AllIn None;
       mkPlayer "p2" [mkCard Seven Clubs; mkCard Two Diamonds] 800 0 Active None;
       mkPlayer "p3" [mkCard Eight Clubs; mkCard Three Diamonds] 800 0 Active None]
  /\ determineWinners c1_table
     = Ok [(mkPlayer "p1" [mkCard Ace Spades; mkCard Ace Hearts] 0 0 AllIn None,
            mkHR ThreeOfAKind [mkCard Ace Spades; mkCard Ace Hearts; mkCard Ace Diamonds;
                               mkCard King Spades; mkCard Nine Hearts] 14 0 [13; 9])].
Proof.
  split; [vm_compute; reflexivity|].
  refine (proj1 (proj2 (proj2 (proj2 (proj2 (proj2 (
    c1_best_hand_takes_main_pot_only c1_table _ _ _ _ _ _ _ _ _ _ _ _ _)))))));
    vm_compute; reflexivity.
Defined.

(** ** Blinds and the preflop starting bet *)

Lemma nth_error_set_seat_aux (l : list (option Player)) (s m : nat) (p : Player)
    (k : nat) :
  nth_error (map (fun ip => if Nat.eqb (fst ip) m then Some p else snd ip)
               (combine (seq s (List.length l)) l)) k
  = option_map (fun x => if Nat.eqb (s + k) m then Some p else x) (nth_error l k).
Proof.
  revert s k; induction l as [|x r IH]; intros s k; [destruct k; reflexivity|].
  destruct k as [|k]; cbn [List.length seq combine map nth_error fst snd option_map].
  - rewrite Nat.add_0_r. reflexivity.
  - rewrite IH. replace (S s + k)%nat with (s + S k)%nat by lia. reflexivity.
Qed.

Lemma seat_at_set_seat (t : Table) (pos : Z) (p : Player) (i : Z) :
  seat_at (set_seat t pos p) i
  = option_map (fun x => if Nat.eqb (Z.to_nat i) (Z.to_nat pos) then Some p else x)
      (seat_at t i).
Proof.
  unfold seat_at, set_seat; cbn [seats].
  destruct (i <? 0); [reflexivity|]. apply nth_error_set_seat_aux.
Qed.

Lemma seat_at_same_index (t : Table) (i j : Z) (x y : option Player) :
  seat_at t i = Some x -> seat_at t j = Some y -> Z.to_nat i = Z.to_nat j -> x = y.
Proof.
  unfold seat_at. destruct (i <? 0), (j <? 0); try discriminate.
  intros Hi Hj E. rewrite E in Hi. congruence.
Qed.

Lemma getPlayerAtSeat_set_seat (t : Table) (pos : Z) (p q : Player) (i : Z) :
  seat_at t i = Some (Some q) ->
  getPlayerAtSeat (set_seat t pos p) i
  = Some (if Nat.eqb (Z.to_nat i) (Z.to_nat pos) then p else q).
Proof.
  intros H. unfold getPlayerAtSeat. rewrite seat_at_set_seat, H. cbn [option_map].
  destruct (Nat.eqb (Z.to_nat i) (Z.to_nat pos)); reflexivity.
Qed.

Lemma players_len_aux (l : list (option Player)) (s m : nat) (p : Player) :
  (forall k, (s + k)%nat = m -> nth_error l k <> Some None) ->
  List.length (flat_map (fun so => match so with Some q => [q] | None => [] end)
     (map (fun ip => if Nat.eqb (fst ip) m then Some p else snd ip)
        (combine (seq s (List.length l)) l)))
  = List.length (flat_map (fun so => match so with Some q => [q] | None => [] end) l).
Proof.
  revert s; induction l as [|x r IH]; intros s H; [reflexivity|].
  cbn [List.length seq combine map flat_map fst snd]. rewrite !length_app.
  rewrite IH by (intros k Hk; apply (H (S k)); lia).
  destruct (Nat.eqb s m) eqn:E; [|reflexivity].
  apply Nat.eqb_eq in E. destruct x; [reflexivity|].
  exfalso. apply (H 0%nat); [lia|reflexivity].
Qed.

(** The data the blind positions depend on. *)
Definition same_layout (t u : Table) : Prop :=
  playerCount u = playerCount t /\ buttonPosition u = buttonPosition t
  /\ config u = config t /\ (forall i, skip_seat u i = skip_seat t i).

Lemma advance_layout (fuel : nat) (t u : Table) (pos att : Z) :
  config u = config t -> (forall i, skip_seat u i = skip_seat t i) ->
  advance fuel u pos att = advance fuel t pos att.
Proof.
  intros Hc Hs. revert pos att; induction fuel as [|f IH]; intros pos att;
    cbn [advance]; [reflexivity|].
  rewrite Hs, Hc. destruct (_ && _); [apply IH | reflexivity].
Qed.

Lemma blind_positions_layout (t u : Table) :
  same_layout t u ->
  getSmallBlindPosition u = getSmallBlindPosition t
  /\ getBigBlindPosition u = getBigBlindPosition t.
Proof.
  intros [Hp [Hb [Hc Hs]]].
  assert (Hn : forall s, next_seat_from u s = next_seat_from t s).
  { intros s. unfold next_seat_from. rewrite Hc, (advance_layout _ t u _ _ Hc Hs).
    reflexivity. }
  assert (Hsb : getSmallBlindPosition u = getSmallBlindPosition t).
  { unfold getSmallBlindPosition. rewrite Hp, Hb, Hn. reflexivity. }
  split; [exact Hsb|].
  unfold getBigBlindPosition. rewrite Hsb, Hp, Hb, Hn.
  destruct (getSmallBlindPosition t); [rewrite Hn|]; reflexivity.
Qed.

Lemma set_seat_layout (t : Table) (pos : Z) (p q : Player) :
  seat_at t pos = Some (Some q) ->
  PlayerStatus_eqb (status p) SittingOut = PlayerStatus_eqb (status q) SittingOut ->
  same_layout t (set_seat t pos p).
Proof.
  intros Hq Hst. repeat split.
  - unfold playerCount, getPlayers, set_seat. cbn [seats]. f_equal.
    apply players_len_aux. intros k Hk E.
    unfold seat_at in Hq. destruct (pos <? 0); [discriminate|].
    cbn in Hk. subst k. congruence.
  - intros i. unfold skip_seat. rewrite seat_at_set_seat.
    destruct (seat_at t i) as [o|] eqn:Ei; cbn [option_map]; [|reflexivity].
    destruct (Nat.eqb (Z.to_nat i) (Z.to_nat pos)) eqn:E; [|reflexivity].
    apply Nat.eqb_eq in E.
    rewrite (seat_at_same_index t i pos o (Some q) Ei Hq E). exact Hst.
Qed.

Lemma bet_ok (p : Player) (a x : Z) (p' : Player) :
  bet p a = Ok (x, p') ->
  status p = Active /\ currentBet p <= 0 /\ 0 < a /\ x = Z.min a (chipCount p)
  /\ currentBet p' = x /\ (status p' = Active \/ status p' = AllIn).
Proof.
  unfold bet, removeChips. intros H.
  destruct (status p) eqn:Es; cbn [PlayerStatus_eqb negb] in H; try discriminate.
  destruct (0 <? currentBet p) eqn:Ec; [discriminate|].
  destruct (a <=? 0) eqn:Ea; [discriminate|].
  apply Z.ltb_ge in Ec. apply Z.leb_gt in Ea.
  cbn [chipCount] in H.
  destruct (chipCount p - Z.min a (chipCount p) =? 0);
    injection H as <- <-; cbn [currentBet status]; repeat split; auto.
Qed.

Lemma getPlayerAtSeat_In (t : Table) (pos : Z) (q : Player) :
  getPlayerAtSeat t pos = Some q -> In q (getPlayers t).
Proof.
  unfold getPlayerAtSeat, seat_at, getPlayers. destruct (pos <? 0); [discriminate|].
  destruct (nth_error (seats t) (Z.to_nat pos)) as [[q'|]|] eqn:E; try discriminate.
  intros Hq. injection Hq as <-. apply in_flat_map. exists (Some q').
  split; [apply nth_error_In with (Z.to_nat pos); exact E | left; reflexivity].
Qed.

Definition c4_table : Table :=
  mkTable [Some (new_Player "a" 1000); Some (new_Player "b" 4)] 0 [] (mkConfig 2 5 10).

(** C4 (counterexample): heads-up, the big blind player "b" has only 4
    chips and posts an all-in partial blind of 4; [postBlinds] succeeds and
    the preflop starting bet is then 4, not the configured big blind 10. *)
Lemma c4_short_big_blind_starting_bet :
  match postBlinds c4_table with
  | (Ok tt, t') =>
      startingBet (getActionOrder t' Preflop) = 4
      /\ bigBlind (config c4_table) = 10
  | _ => False
  end.
Proof. vm_compute. split; reflexivity. Qed.

(** C4 (amended): whenever [postBlinds] succeeds on a table whose big blind
    player (before posting) is [bb], the preflop starting bet returned by
    [getActionOrder] is [min(bb.chipCount, bigBlind)], the amount [bb] posted;
    it equals the configured big blind exactly when [bb] had at least the big
    blind in chips, and is the partial all-in amount otherwise. *)
Theorem postBlinds_preflop_starting_bet (t t' : Table) (bb : Player) :
  postBlinds t = (Ok tt, t') ->
  getBigBlindPlayer t = Some bb ->
  startingBet (getActionOrder t' Preflop) = Z.min (chipCount bb) (bigBlind (config t))
  /\ (startingBet (getActionOrder t' Preflop) = bigBlind (config t)
      <-> bigBlind (config t) <= chipCount bb).
Proof.
  intros Hpb Hbb.
  enough (H : startingBet (getActionOrder t' Preflop)
              = Z.min (chipCount bb) (bigBlind (config t))) by (split; [exact H|]; lia).
  unfold postBlinds in Hpb.
  destruct (getSmallBlindPosition t) as [sbPos|] eqn:Esp; [|discriminate].
  destruct (getSmallBlindPlayer t) as [sb|] eqn:Esb; [|discriminate].
  destruct (getBigBlindPosition t) as [bbPos|] eqn:Ebp; [|discriminate].
  rewrite Hbb in Hpb.
  assert (Hsbs : seat_at t sbPos = Some (Some sb)).
  { unfold getSmallBlindPlayer, getPlayerAtSeat in Esb. rewrite Esp in Esb.
    destruct (seat_at t sbPos) as [[?|]|]; congruence. }
  assert (Hbbs : seat_at t bbPos = Some (Some bb)).
  { unfold getBigBlindPlayer, getPlayerAtSeat in Hbb. rewrite Ebp in Hbb.
    destruct (seat_at t bbPos) as [[?|]|]; congruence. }
  destruct (bet sb _) as [[x sb']|e] eqn:Eb1; [|discriminate].
  cbv zeta in Hpb.
  rewrite (getPlayerAtSeat_set_seat t sbPos sb' bb bbPos Hbbs) in Hpb.
  pose proof (bet_ok _ _ _ _ Eb1) as (Hs1 & _ & Ha1 & Hx & Hc1 & Hst1).
  destruct (Nat.eqb (Z.to_nat bbPos) (Z.to_nat sbPos)) eqn:Eeq.
  - destruct (bet sb' _) as [[y bb'']|e] eqn:Eb2; [|discriminate].
    pose proof (bet_ok _ _ _ _ Eb2) as (_ & Hc2 & _). lia.
  - destruct (bet bb _) as [[y bb']|e] eqn:Eb2; [|discriminate].
    injection Hpb as <-.
    pose proof (bet_ok _ _ _ _ Eb2) as (Hs2 & _ & Ha2 & Hy & Hc2 & Hst2).
    set (t1 := set_seat t sbPos sb').
    assert (L1 : same_layout t t1).
    { apply (set_seat_layout t sbPos sb' sb Hsbs). rewrite Hs1.
      destruct Hst1 as [-> | ->]; reflexivity. }
    assert (Hbbs1 : seat_at t1 bbPos = Some (Some bb)).
    { unfold t1. rewrite seat_at_set_seat, Hbbs. cbn [option_map]. rewrite Eeq.
      reflexivity. }
    assert (L2 : same_layout t1 (set_seat t1 bbPos bb')).
    { apply (set_seat_layout t1 bbPos bb' bb Hbbs1). rewrite Hs2.
      destruct Hst2 as [-> | ->]; reflexivity. }
    assert (Hpos : getBigBlindPosition (set_seat t1 bbPos bb') = Some bbPos).
    { rewrite (proj2 (blind_positions_layout _ _ L2)),
              (proj2 (blind_positions_layout _ _ L1)). exact Ebp. }
    assert (Hat : getPlayerAtSeat (set_seat t1 bbPos bb') bbPos = Some bb').
    { rewrite (getPlayerAtSeat_set_seat t1 bbPos bb' bb bbPos Hbbs1), Nat.eqb_refl.
      reflexivity. }
    unfold getActionOrder.
    destruct (getActivePlayers (set_seat t1 bbPos bb')) as [|a l] eqn:Eap.
    + exfalso.
      assert (Hin : In bb' (getActivePlayers (set_seat t1 bbPos bb'))).
      { apply filter_In. split; [exact (getPlayerAtSeat_In _ _ _ Hat)|].
        destruct Hst2 as [-> | ->]; reflexivity. }
      rewrite Eap in Hin. exact Hin.
    + unfold getPreflopOrder. cbn [startingBet]. unfold getBigBlindPlayer.
      rewrite Hpos, Hat. rewrite Hc2, Hy. unfold t1, set_seat. cbn [config]. lia.
Qed.

Lemma postBlinds_preflop_starting_bet_witness :
  getBigBlindPlayer c4_table = Some (new_Player "b" 4)
  /\ startingBet (getActionOrder (snd (postBlinds c4_table)) Preflop)
     = Z.min 4 (bigBlind (config c4_table)).
Proof.
  assert (Hbb : getBigBlindPlayer c4_table = Some (new_Player "b" 4))
    by (vm_compute; reflexivity).
  split; [exact Hbb|].
  exact (proj1 (postBlinds_preflop_starting_bet c4_table (snd (postBlinds c4_table))
                  (new_Player "b" 4) ltac:(vm_compute; reflexivity) Hbb)).
Defined.

(** ** Conservation of chips in [collectBets] *)

Lemma sort_insert_In {A} (cmp : A -> A -> Z) (x y : A) (l : list A) :
  In y (sort_insert cmp x l) <-> y = x \/ In y l.
Proof.
  induction l as [|z r IH]; cbn [sort_insert].
  - cbn [In]. intuition congruence.
  - destruct (cmp x z <? 0); cbn [In]; [|rewrite IH]; intuition congruence.
Qed.

Lemma sort_insert_sorted (x : Z) (l : list Z) :
  StronglySorted Z.lt l -> ~ In x l ->
  StronglySorted Z.lt (sort_insert (fun a b => a - b) x l).
Proof.
  induction l as [|z r IH]; intros Hs Hx; cbn [sort_insert].
  - repeat constructor.
  - apply StronglySorted_inv in Hs as [Hr Hz].
    destruct (x - z <? 0) eqn:E.
    + apply Z.ltb_lt in E. constructor; [constructor; assumption|].
      constructor; [lia|]. eapply Forall_impl; [|exact Hz]. cbn; intros; lia.
    + apply Z.ltb_ge in E. constructor.
      * apply IH; [exact Hr | intros H; apply Hx; right; exact H].
      * apply Forall_forall. intros y Hy. apply sort_insert_In in Hy as [->|Hy].
        -- assert (x <> z) by (intros ->; apply Hx; left; reflexivity). lia.
        -- rewrite Forall_forall in Hz. apply Hz, Hy.
Qed.

Lemma js_sort_aux (xs acc : list Z) :
  StronglySorted Z.lt acc -> NoDup xs -> (forall x, In x xs -> ~ In x acc) ->
  StronglySorted Z.lt (fold_left (fun acc x => sort_insert (fun a b => a - b) x acc) xs acc)
  /\ (forall y, In y (fold_left (fun acc x => sort_insert (fun a b => a - b) x acc) xs acc)
                <-> In y acc \/ In y xs).
Proof.
  revert acc; induction xs as [|x r IH]; intros acc Hs Hnd Hdis; cbn [fold_left].
  - split; [exact Hs | intros y; cbn; tauto].
  - inversion Hnd as [|? ? Hxr Hndr]; subst.
    destruct (IH (sort_insert (fun a b => a - b) x acc)) as [IH1 IH2].
    + apply sort_insert_sorted; [exact Hs | apply Hdis; left; reflexivity].
    + exact Hndr.
    + intros y Hy Hin. apply sort_insert_In in Hin as [->|Hin];
        [contradiction | apply (Hdis y); [right; exact Hy | exact Hin]].
    + split; [exact IH1|]. intros y. rewrite IH2, sort_insert_In. cbn [In].
      intuition congruence.
Qed.

Lemma set_of_list_aux (xs acc : list Z) :
  NoDup acc ->
  NoDup (fold_left (set_add Z.eqb) xs acc)
  /\ (forall y, In y (fold_left (set_add Z.eqb) xs acc) <-> In y acc \/ In y xs).
Proof.
  revert acc; induction xs as [|x r IH]; intros acc Hnd; cbn [fold_left].
  - split; [exact Hnd | intros y; cbn; tauto].
  - change (set_add Z.eqb acc x) with (if existsb (Z.eqb x) acc then acc else (acc ++ [x])%list).
    destruct (existsb (Z.eqb x) acc) eqn:E; cbv iota.
    + destruct (IH acc Hnd) as [IH1 IH2]. split; [exact IH1|].
      intros y. rewrite IH2. cbn [In].
      apply existsb_exists in E as [z [Hz Ez]]. apply Z.eqb_eq in Ez. subst z.
      intuition congruence.
    + assert (Hnd' : NoDup (acc ++ [x])%list).
      { apply NoDup_app; [exact Hnd | repeat constructor; intros [] |].
        intros y Hy [->|[]]. assert (existsb (Z.eqb y) acc = true)
          by (apply existsb_exists; exists y; split; [exact Hy | apply Z.eqb_refl]).
        congruence. }
      destruct (IH (acc ++ [x])%list Hnd') as [IH1 IH2]. split; [exact IH1|].
      intros y. rewrite IH2, in_app_iff. cbn [In]. intuition congruence.
Qed.

Lemma uniqueBetAmounts_spec (bets : list (string * Z)) :
  StronglySorted Z.lt (0 :: uniqueBetAmounts bets)
  /\ (forall v, In v (uniqueBetAmounts bets) <-> 0 < v /\ In v (map snd bets)).
Proof.
  unfold uniqueBetAmounts, js_sort, set_of_list.
  destruct (set_of_list_aux (filter (fun amt => 0 <? amt) (map snd bets)) [])
    as [Hnd Hin]; [constructor|].
  destruct (js_sort_aux (fold_left (set_add Z.eqb)
              (filter (fun amt => 0 <? amt) (map snd bets)) []) [])
    as [Hs Hin2]; [constructor | exact Hnd | intros x _ []|].
  assert (Hmem : forall v, In v (fold_left (fun acc x => sort_insert (fun a b => a - b) x acc)
                     (fold_left (set_add Z.eqb)
                        (filter (fun amt => 0 <? amt) (map snd bets)) []) [])
                 <-> 0 < v /\ In v (map snd bets)).
  { intros v. rewrite Hin2, Hin, filter_In, Z.ltb_lt. cbn [In]. tauto. }
  split; [|exact Hmem].
  constructor; [exact Hs|]. apply Forall_forall. intros v Hv. apply Hmem in Hv. lia.
Qed.

(** An entry of [remaining] after [collect_from ... ps]: the players of
    [ps] have [inc] subtracted. *)
Definition sub_entries (ps : list string) (inc : Z) (kv : string * Z) : string * Z :=
  if existsb (String.eqb (fst kv)) ps then (fst kv, snd kv - inc) else kv.

Lemma map_sub_absent (m : list (string * Z)) (p : string) (inc : Z) :
  ~ In p (map fst m) ->
  map (sub_entries [p] inc) m = m.
Proof.
  induction m as [|[k v] r IH]; intros Hp; [reflexivity|].
  cbn [map fst In] in *. unfold sub_entries at 1. cbn [existsb fst snd].
  destruct (String.eqb k p) eqn:E.
  - apply String.eqb_eq in E. subst. exfalso. apply Hp. left. reflexivity.
  - rewrite IH by tauto. reflexivity.
Qed.

Lemma map_set_sub (m : list (string * Z)) (p : string) (inc : Z) :
  NoDup (map fst m) -> In p (map fst m) ->
  map_set m p (get_or0 m p - inc) = map (sub_entries [p] inc) m.
Proof.
  induction m as [|[k v] r IH]; intros Hnd Hin; [destruct Hin|].
  cbn [map fst] in Hnd, Hin. inversion Hnd as [|? ? Hk Hndr]; subst.
  unfold get_or0. cbn [map_set map_get map]. unfold sub_entries at 1.
  cbn [existsb fst snd]. rewrite (String.eqb_sym k p).
  destruct (String.eqb p k) eqn:E.
  - apply String.eqb_eq in E. subst. rewrite map_sub_absent by exact Hk. reflexivity.
  - destruct Hin as [Hkp|Hin].
    + subst. rewrite String.eqb_refl in E. discriminate.
    + fold (get_or0 r p). rewrite IH by assumption. reflexivity.
Qed.

Lemma addContribution_total (pot : Pot) (p : string) (a : Z) :
  0 < a -> exists pot', addContribution pot p a = Ok pot'
                        /\ total pot' = total pot + a.
Proof.
  intros Ha. unfold addContribution.
  destruct (a <=? 0) eqn:E; [apply Z.leb_le in E; lia|].
  eexists; split; [reflexivity|].
  rewrite !total_sum. cbn [contributions]. rewrite sum_map_set. lia.
Qed.

Lemma collect_from_ok (ps : list string) (pot : Pot) (rem : list (string * Z))
    (inc : Z) :
  0 < inc -> NoDup ps -> NoDup (map fst rem) -> (forall p, In p ps -> In p (map fst rem)) ->
  exists pot', collect_from pot rem inc ps = Ok (pot', map (sub_entries ps inc) rem)
    /\ total pot' = total pot + inc * Z.of_nat (List.length ps)
    /\ sum_values (map (sub_entries ps inc) rem)
       = sum_values rem - inc * Z.of_nat (List.length ps).
Proof.
  revert pot rem; induction ps as [|p ps IH]; intros pot rem Hinc Hnd Hk Hsub.
  - exists pot. cbn [collect_from List.length].
    assert (E : map (sub_entries [] inc) rem = rem).
    { clear. induction rem as [|kv r IH]; [reflexivity|].
      cbn [map]. rewrite IH. reflexivity. }
    rewrite E. repeat split; lia.
  - inversion Hnd as [|? ? Hp Hndps]; subst.
    destruct (addContribution_total pot p inc Hinc) as [pot1 [Ea Ht1]].
    cbn [collect_from]. rewrite Ea.
    assert (Hin : In p (map fst rem)) by (apply Hsub; left; reflexivity).
    assert (Hsum1 : sum_values (map_set rem p (get_or0 rem p - inc)) = sum_values rem - inc)
      by (rewrite sum_map_set; lia).
    rewrite (map_set_sub rem p inc Hk Hin) in *.
    assert (Hk1 : map fst (map (sub_entries [p] inc) rem) = map fst rem).
    { rewrite map_map. apply map_ext. intros [k v]. unfold sub_entries.
      cbn [fst]. destruct (existsb _ _); reflexivity. }
    destruct (IH pot1 (map (sub_entries [p] inc) rem) Hinc Hndps)
      as [pot' [Ec [Ht Hs]]].
    { rewrite Hk1. exact Hk. }
    { intros q Hq. rewrite Hk1. apply Hsub. right. exact Hq. }
    assert (Hcomp : map (sub_entries ps inc) (map (sub_entries [p] inc) rem)
                    = map (sub_entries (p :: ps) inc) rem).
    { rewrite map_map. apply map_ext. intros [k v]. unfold sub_entries.
      cbn [fst snd existsb]. rewrite orb_false_r.
      destruct (String.eqb k p) eqn:E; cbn [fst snd orb].
      - apply String.eqb_eq in E. subst k.
        destruct (existsb (String.eqb p) ps) eqn:E2; [|reflexivity].
        apply existsb_exists in E2 as [q [Hq Eq]]. apply String.eqb_eq in Eq.
        subst q. contradiction.
      - reflexivity. }
    rewrite Hcomp in Ec, Hs. exists pot'. split; [exact Ec|].
    cbn [List.length]. split; lia.
Qed.

Lemma removeEligibility_total (folded : list string) (pot : Pot) :
  total (fold_left removePlayerEligibility folded pot) = total pot.
Proof.
  revert pot; induction folded as [|f r IH]; intros pot; [reflexivity|].
  cbn [fold_left]. rewrite IH. reflexivity.
Qed.

Lemma fold_total (l : list Pot) (a : Z) :
  fold_left (fun t pot => t + total pot) l a = a + fold_left (fun t pot => t + total pot) l 0.
Proof.
  revert a; induction l as [|pot r IH]; intros a; cbn [fold_left]; [lia|].
  rewrite IH, (IH (0 + total pot)). lia.
Qed.

Lemma NoDup_keys_filter (P : string * Z -> bool) (l : list (string * Z)) :
  NoDup (map fst l) -> NoDup (map fst (filter P l)).
Proof.
  induction l as [|kv r IH]; intros Hnd; [constructor|].
  cbn [map] in Hnd. inversion Hnd as [|? ? Hk Hr]; subst.
  cbn [filter]. destruct (P kv); [cbn [map]; constructor|]; auto.
  intros H. apply Hk. apply in_map_iff in H as [kv' [E Hin]].
  apply filter_In in Hin as [Hin _]. rewrite <- E. apply in_map, Hin.
Qed.

Lemma keys_unique (l : list (string * Z)) (a b : string * Z) :
  NoDup (map fst l) -> In a l -> In b l -> fst a = fst b -> a = b.
Proof.
  induction l as [|kv r IH]; intros Hnd Ha Hb E; [destruct Ha|].
  cbn [map] in Hnd. inversion Hnd as [|? ? Hk Hr]; subst.
  destruct Ha as [<-|Ha], Hb as [<-|Hb]; auto.
  - exfalso. apply Hk. rewrite E. apply in_map, Hb.
  - exfalso. apply Hk. rewrite <- E. apply in_map, Ha.
Qed.

Lemma contributors_exact (P : string * Z -> bool) (l : list (string * Z))
    (kv : string * Z) :
  NoDup (map fst l) -> In kv l ->
  existsb (String.eqb (fst kv)) (map fst (filter P l)) = P kv.
Proof.
  intros Hnd Hin. destruct (P kv) eqn:EP.
  - apply existsb_exists. exists (fst kv). split; [|apply String.eqb_refl].
    apply in_map, filter_In. split; assumption.
  - destruct (existsb _ _) eqn:E; [|reflexivity].
    apply existsb_exists in E as [k [Hk Ek]]. apply String.eqb_eq in Ek. subst k.
    apply in_map_iff in Hk as [kv' [E' Hin']]. apply filter_In in Hin' as [Hin' HP].
    rewrite (keys_unique l kv' kv Hnd Hin' Hin E') in HP. congruence.
Qed.

(** The loop invariant of [collect_levels]: every remaining amount is 0 or
    reaches one of the levels still to come. *)
Definition levels_invariant (prev : Z) (levels : list Z) (rem : list (string * Z)) : Prop :=
  Forall (fun kv => snd kv = 0 \/ (0 < snd kv /\ In (prev + snd kv) levels)) rem.

Lemma collect_levels_conserve (folded : list string) (levels : list Z) :
  forall prev rem pm,
  StronglySorted Z.lt (prev :: levels) ->
  NoDup (map fst rem) ->
  levels_invariant prev levels rem ->
  exists pm', collect_levels folded prev levels rem pm = Ok pm'
    /\ getTotalPotAmount pm' = getTotalPotAmount pm + sum_values rem.
Proof.
  induction levels as [|cur rest IH]; intros prev rem pm Hs Hnd Hinv.
  - exists pm. split; [reflexivity|].
    assert (H0 : sum_values rem = 0).
    { clear -Hinv. induction Hinv as [|kv r [H|[_ []]] _ IH]; [reflexivity|].
      cbn [sum_values fold_right] in *. unfold sum_values in IH. lia. }
    lia.
  - apply StronglySorted_inv in Hs as [Hs Hlt].
    apply StronglySorted_inv in Hs as Hs'. destruct Hs' as [_ Hrest].
    rewrite Forall_forall in Hlt, Hrest.
    assert (Hcur : prev < cur) by (apply Hlt; left; reflexivity).
    set (inc := cur - prev).
    (* an entry that is not 0 covers at least [inc] *)
    assert (Hge : forall kv, In kv rem -> snd kv = 0 \/ inc <= snd kv).
    { intros kv Hkv. unfold levels_invariant in Hinv. rewrite Forall_forall in Hinv.
      destruct (Hinv kv Hkv) as [H|[Hp [E|Hin]]]; [left; exact H|right..].
      - unfold inc. lia.
      - pose proof (Hrest _ Hin). unfold inc. lia. }
    cbn [collect_levels]. fold inc.
    destruct (map fst (filter (fun kv => inc <=? snd kv) rem)) as [|c cs] eqn:Ecp.
    + (* nobody contributes: every remaining amount is 0 *)
      assert (Hz : forall kv, In kv rem -> snd kv = 0).
      { intros kv Hkv. destruct (Hge kv Hkv) as [H|H]; [exact H|].
        assert (In (fst kv) (map fst (filter (fun kv => inc <=? snd kv) rem))).
        { apply in_map, filter_In. split; [exact Hkv | apply Z.leb_le, H]. }
        rewrite Ecp in H0. destruct H0. }
      apply IH; [exact Hs | exact Hnd |].
      apply Forall_forall. intros kv Hkv. left. apply Hz, Hkv.
    + assert (Hinc : 0 < inc) by (unfold inc; lia).
      assert (Hndc : NoDup (c :: cs)).
      { rewrite <- Ecp. apply NoDup_keys_filter, Hnd. }
      assert (Hsub : forall p, In p (c :: cs) -> In p (map fst rem)).
      { intros p Hp. rewrite <- Ecp in Hp. apply in_map_iff in Hp as [kv [<- Hkv]].
        apply filter_In in Hkv as [Hkv _]. apply in_map, Hkv. }
      destruct (collect_from_ok (c :: cs)
                  (new_Pot (filter (fun id => negb (set_has String.eqb folded id)) (c :: cs)))
                  rem inc Hinc Hndc Hnd Hsub) as [pot [Ec [Ht Hsum]]].
      rewrite Ec.
      set (pot' := fold_left removePlayerEligibility folded pot).
      set (rem' := map (sub_entries (c :: cs) inc) rem).
      set (pm'' := if total (mainPot pm) =? 0 then mkPM pot' (sidePots pm)
                   else mkPM (mainPot pm) (sidePots pm ++ [pot'])).
      assert (Hpm : getTotalPotAmount pm'' = getTotalPotAmount pm + total pot').
      { unfold pm'', getTotalPotAmount.
        destruct (total (mainPot pm) =? 0) eqn:E0; cbn [mainPot sidePots].
        - apply Z.eqb_eq in E0. rewrite E0, (fold_total _ (total pot')),
            (fold_total _ 0). lia.
        - rewrite fold_left_app. cbn [fold_left]. reflexivity. }
      assert (Hk' : map fst rem' = map fst rem).
      { unfold rem'. rewrite map_map. apply map_ext. intros [k v]. unfold sub_entries.
        cbn [fst]. destruct (existsb _ _); reflexivity. }
      assert (Hinv' : levels_invariant cur rest rem').
      { unfold levels_invariant, rem'. apply Forall_forall. intros kv' Hkv'.
        apply in_map_iff in Hkv' as [kv [<- Hkv]].
        unfold sub_entries. rewrite <- Ecp, (contributors_exact _ rem kv Hnd Hkv).
        unfold levels_invariant in Hinv. rewrite Forall_forall in Hinv.
        destruct (inc <=? snd kv) eqn:Ei; cbn [fst snd].
        - apply Z.leb_le in Ei.
          destruct (Hinv kv Hkv) as [H|[Hp [E|Hin]]]; [lia|left; unfold inc; lia|].
          pose proof (Hrest _ Hin). right. split; [unfold inc; lia|].
          replace (cur + (snd kv - inc)) with (prev + snd kv) by (unfold inc; lia).
          exact Hin.
        - apply Z.leb_gt in Ei. destruct (Hge kv Hkv) as [H|H]; [left; exact H | lia]. }
      destruct (IH cur rem' pm'' Hs) as [pmf [Ef Htf]].
      { rewrite Hk'. exact Hnd. }
      { exact Hinv'. }
      exists pmf. split; [exact Ef|].
      rewrite Htf, Hpm. unfold pot'. rewrite removeEligibility_total, Ht.
      unfold rem' in *. rewrite Hsum. unfold new_Pot, total. cbn [contributions fold_left].
      lia.
Qed.

(** A sequence of [collectBets] calls on one [PotManager], each given as
    (contributions, all-in players, folded players). *)
Fixpoint collect_all (pm : PotManager)
    (calls : list (list (string * Z) * list string * list string))
  : result PotManager :=
  match calls with
  | [] => Ok pm
  | (bets, allIn, folded) :: rest =>
      match collectBets pm bets allIn folded with
      | Throw e => Throw e
      | Ok pm' => collect_all pm' rest
      end
  end.

Definition valid_bets (bets : list (string * Z)) : Prop :=
  Forall (fun kv => 0 < snd kv) bets /\ NoDup (map fst bets).

Lemma collectBets_conserve_one (pm : PotManager) (bets : list (string * Z))
    (allIn folded : list string) :
  valid_bets bets ->
  exists pm', collectBets pm bets allIn folded = Ok pm'
    /\ getTotalPotAmount pm' = getTotalPotAmount pm + sum_values bets.
Proof.
  intros [Hpos Hnd]. unfold collectBets.
  destruct bets as [|kv0 r] eqn:Eb.
  - exists pm. split; [reflexivity|]. cbn. lia.
  - rewrite <- Eb in *.
    destruct (uniqueBetAmounts_spec bets) as [Hs Hmem].
    destruct (uniqueBetAmounts bets) as [|l ls] eqn:Eu.
    + exfalso. apply (proj2 (Hmem (snd kv0))).
      rewrite Forall_forall in Hpos. split.
      * apply Hpos. rewrite Eb. left. reflexivity.
      * apply in_map. rewrite Eb. left. reflexivity.
    + apply collect_levels_conserve; [exact Hs | exact Hnd |].
      unfold levels_invariant. rewrite Forall_forall in Hpos |- *.
      intros kv Hkv. right. split; [apply Hpos, Hkv|].
      rewrite Z.add_0_l. apply Hmem. split; [apply Hpos, Hkv | apply in_map, Hkv].
Qed.

Lemma collect_all_conserve (calls : list (list (string * Z) * list string * list string)) :
  forall pm, Forall (fun c => valid_bets (fst (fst c))) calls ->
  exists pm', collect_all pm calls = Ok pm'
    /\ getTotalPotAmount pm' = getTotalPotAmount pm
       + fold_right (fun c acc => sum_values (fst (fst c)) + acc) 0 calls.
Proof.
  induction calls as [|[[bets allIn] folded] rest IH]; intros pm Hall.
  - exists pm. split; [reflexivity|]. cbn. lia.
  - inversion Hall as [|? ? Hc Hrest]; subst. cbn [fst] in Hc.
    destruct (collectBets_conserve_one pm bets allIn folded Hc) as [pm1 [E1 H1]].
    destruct (IH pm1 Hrest) as [pm' [E' H']].
    exists pm'. cbn [collect_all fold_right fst]. rewrite E1. split; [exact E'|]. lia.
Qed.

(** C2: for a contribution map with strictly positive amounts (a JS [Map],
    so its keys are distinct) and any all-in and folded sets, [collectBets]
    succeeds and the main pot total plus all side pot totals afterwards
    equals the value before plus the sum of the amounts passed in; hence,
    over any sequence of such calls starting from a new [PotManager], that
    sum equals everything passed into [collectBets]. *)
Theorem collectBets_conserves_chips (pm : PotManager) (bets : list (string * Z))
    (allIn folded : list string)
    (calls : list (list (string * Z) * list string * list string)) :
  Forall (fun kv => 0 < snd kv) bets -> NoDup (map fst bets) ->
  Forall (fun c => Forall (fun kv => 0 < snd kv) (fst (fst c))
                   /\ NoDup (map fst (fst (fst c)))) calls ->
  (exists pm', collectBets pm bets allIn folded = Ok pm'
     /\ getTotalPotAmount pm' = getTotalPotAmount pm + sum_values bets)
  /\ (exists pm', collect_all new_PotManager calls = Ok pm'
     /\ getTotalPotAmount pm'
        = fold_right (fun c acc => sum_values (fst (fst c)) + acc) 0 calls).
Proof.
  intros Hpos Hnd Hcalls. split.
  - apply collectBets_conserve_one. split; assumption.
  - destruct (collect_all_conserve calls new_PotManager Hcalls) as [pm' [E H]].
    exists pm'. split; [exact E|]. rewrite H. reflexivity.
Qed.

Lemma collectBets_conserves_chips_witness :
  (exists pm', collectBets new_PotManager c1_bets ["p1"] [] = Ok pm'
     /\ getTotalPotAmount pm' = getTotalPotAmount new_PotManager + sum_values c1_bets)
  /\ (exists pm', collect_all new_PotManager
                    [(c1_bets, ["p1"], []); ([("p2", 100); ("p3", 40)], [], ["p3"])] = Ok pm'
     /\ getTotalPotAmount pm' = 590).
Proof.
  apply (collectBets_conserves_chips new_PotManager c1_bets ["p1"] []
           [(c1_bets, ["p1"], []); ([("p2", 100); ("p3", 40)], [], ["p3"])]).
  - repeat apply Forall_cons; try apply Forall_nil; cbn; lia.
  - cbn. repeat (apply NoDup_cons; [cbn; intuition discriminate|]). apply NoDup_nil.
  - repeat apply Forall_cons; try apply Forall_nil; cbn [fst]; split;
      try (repeat apply Forall_cons; try apply Forall_nil; cbn; lia);
      cbn; repeat (apply NoDup_cons; [cbn; intuition discriminate|]); apply NoDup_nil.
Defined.

(** * Further properties of the engine *)

(** ** Betting actions of a player *)

Lemma removeChips_ok (p : Player) (amount x : Z) (p1 : Player) :
  removeChips p amount = Ok (x, p1) ->
  0 < amount /\ x = Z.min amount (chipCount p) /\ chipCount p1 = chipCount p - x
  /\ id p1 = id p /\ currentBet p1 = currentBet p /\ status p1 = status p.
Proof.
  unfold removeChips. destruct (amount <=? 0) eqn:E; [discriminate|].
  apply Z.leb_gt in E. intros H. injection H as <- <-. cbn. repeat split; lia.
Qed.

(** X1: every betting action of [Player] moves exactly the amount it
    returns from the stack to the current bet and never overdraws a
    non-negative stack: [call] and [raise] take [min(target - currentBet,
    chips)] and never bring the current bet above the target, [bet] takes
    [min(amount, chips)], [allIn] takes the whole stack; after [call],
    [raise] or [bet] the player is all-in exactly when the stack is empty. *)
Theorem betting_actions_move_chips (p p' : Player) (amt x : Z) :
  0 <= chipCount p ->
  ((call p amt = Ok (x, p') \/ raise p amt = Ok (x, p')) ->
     x = Z.min (amt - currentBet p) (chipCount p) /\ (0 <= x <= chipCount p)
     /\ chipCount p' = chipCount p - x /\ currentBet p' = currentBet p + x
     /\ currentBet p' <= amt /\ (status p' = AllIn <-> chipCount p' = 0))
  /\ (bet p amt = Ok (x, p') ->
     x = Z.min amt (chipCount p) /\ (0 <= x <= chipCount p)
     /\ chipCount p' = chipCount p - x /\ currentBet p' = x
     /\ (status p' = AllIn <-> chipCount p' = 0))
  /\ (allIn p = Ok (x, p') ->
     x = chipCount p /\ chipCount p' = 0 /\ currentBet p' = currentBet p + x
     /\ status p' = AllIn).
Proof.
  intros Hc. split; [|split].
  - assert (Hcr : forall act q, PlayerStatus_eqb (status p) Active = true ->
              removeChips p (amt - currentBet p) = Ok (x, q) ->
              p' = after_removal q x act ->
              x = Z.min (amt - currentBet p) (chipCount p) /\ (0 <= x <= chipCount p)
              /\ chipCount p' = chipCount p - x /\ currentBet p' = currentBet p + x
              /\ currentBet p' <= amt /\ (status p' = AllIn <-> chipCount p' = 0)).
    { intros act q Hs Hr ->.
      destruct (removeChips_ok _ _ _ _ Hr) as (Ha & Hx & Hq & _ & Hcb & Hst).
      unfold after_removal. destruct (chipCount q =? 0) eqn:E; cbn.
      - apply Z.eqb_eq in E. repeat split; try lia; reflexivity.
      - apply Z.eqb_neq in E. rewrite Hst.
        destruct (status p); cbn in Hs; try discriminate.
        repeat split; try lia; discriminate. }
    intros [H|H]; unfold call, raise in H;
      destruct (PlayerStatus_eqb (status p) Active) eqn:Hs; cbn [negb] in H;
      try discriminate;
      destruct (removeChips p (amt - currentBet p)) as [[y q]|e] eqn:Hr; try discriminate;
      injection H as <- <-; eapply Hcr; eauto.
  - unfold bet. intros H.
    destruct (PlayerStatus_eqb (status p) Active) eqn:Hs; cbn [negb] in H; [|discriminate].
    destruct (0 <? currentBet p); [discriminate|].
    destruct (removeChips p amt) as [[y q]|e] eqn:Hr; [|discriminate].
    destruct (removeChips_ok _ _ _ _ Hr) as (Ha & Hx & Hq & _ & Hcb & Hst).
    destruct (chipCount q =? 0) eqn:E; injection H as <- <-; cbn.
    + apply Z.eqb_eq in E. repeat split; try lia; reflexivity.
    + apply Z.eqb_neq in E. rewrite Hst.
      destruct (status p); cbn in Hs; try discriminate.
      repeat split; try lia; discriminate.
  - unfold allIn. intros H.
    destruct (PlayerStatus_eqb (status p) Active) eqn:Hs; cbn [negb] in H; [|discriminate].
    destruct (removeChips p (chipCount p)) as [[y q]|e] eqn:Hr; [|discriminate].
    destruct (removeChips_ok _ _ _ _ Hr) as (Ha & Hx & Hq & _ & Hcb & Hst).
    injection H as <- <-. cbn. repeat split; lia.
Qed.

Lemma betting_actions_move_chips_witness :
  call (mkPlayer "a" [] 30 10 Active None) 100
    = Ok (30, mkPlayer "a" [] 0 40 AllIn (Some AllInAction))
  /\ 30 = Z.min (100 - 10) 30.
Proof.
  split; [reflexivity|].
  exact (proj1 (proj1 (betting_actions_move_chips (mkPlayer "a" [] 30 10 Active None)
            (mkPlayer "a" [] 0 40 AllIn (Some AllInAction)) 100 30 ltac:(cbn; lia))
            (or_introl eq_refl))).
Defined.



(** ** Seat management *)

Definition seat_players (l : list (option Player)) : list Player :=
  flat_map (fun s => match s with Some p => [p] | None => [] end) l.

Lemma getPlayers_seat_players (t : Table) : getPlayers t = seat_players (seats t).
Proof. reflexivity. Qed.

Lemma seat_players_app (l1 l2 : list (option Player)) :
  seat_players (l1 ++ l2) = (seat_players l1 ++ seat_players l2)%list.
Proof. unfold seat_players. apply flat_map_app. Qed.

Lemma set_map_after (l : list (option Player)) (s m : nat) (p : Player) :
  (m < s)%nat ->
  map (fun ip => if Nat.eqb (fst ip) m then Some p else snd ip)
    (combine (seq s (List.length l)) l) = l.
Proof.
  revert s; induction l as [|x r IH]; intros s Hs; [reflexivity|].
  cbn [List.length seq combine map fst snd].
  destruct (Nat.eqb s m) eqn:E; [apply Nat.eqb_eq in E; lia|].
  rewrite IH by lia. reflexivity.
Qed.

Lemma set_map_split (l1 l2 : list (option Player)) (x : option Player) (s : nat)
    (p : Player) :
  map (fun ip => if Nat.eqb (fst ip) (s + List.length l1) then Some p else snd ip)
    (combine (seq s (List.length (l1 ++ x :: l2)%list)) (l1 ++ x :: l2)%list)
  = (l1 ++ Some p :: l2)%list.
Proof.
  revert s; induction l1 as [|y r IH]; intros s.
  - cbn [List.length app seq combine map fst snd]. rewrite Nat.add_0_r, Nat.eqb_refl.
    rewrite set_map_after by lia. reflexivity.
  - cbn [List.length app seq combine map fst snd].
    destruct (Nat.eqb s (s + S (List.length r))) eqn:E; [apply Nat.eqb_eq in E; lia|].
    replace (s + S (List.length r))%nat with (S s + List.length r)%nat by lia.
    rewrite <- (IH (S s)). reflexivity.
Qed.

(** Seat [pos] of a table, split out of its seat list. *)
Lemma seat_at_split (t : Table) (pos : Z) (x : option Player) :
  seat_at t pos = Some x ->
  exists l1 l2, seats t = (l1 ++ x :: l2)%list /\ Z.of_nat (List.length l1) = pos.
Proof.
  unfold seat_at. destruct (pos <? 0) eqn:E; [discriminate|]. apply Z.ltb_ge in E.
  intros H. destruct (nth_error_split _ _ H) as (l1 & l2 & Hl & Hn).
  exists l1, l2. split; [exact Hl | lia].
Qed.

Lemma set_seat_seats (t : Table) (pos : Z) (p : Player) (l1 l2 : list (option Player))
    (x : option Player) :
  seats t = (l1 ++ x :: l2)%list -> Z.of_nat (List.length l1) = pos ->
  seats (set_seat t pos p) = (l1 ++ Some p :: l2)%list.
Proof.
  intros Hs Hn. unfold set_seat; cbn [seats]. rewrite Hs.
  replace (Z.to_nat pos) with (0 + List.length l1)%nat by lia.
  apply set_map_split.
Qed.

Lemma seat_at_in_range (t : Table) (pos : Z) :
  0 <= pos < Z.of_nat (List.length (seats t)) -> exists x, seat_at t pos = Some x.
Proof.
  intros H. unfold seat_at. destruct (pos <? 0) eqn:E; [apply Z.ltb_lt in E; lia|].
  destruct (nth_error (seats t) (Z.to_nat pos)) eqn:En; [eexists; reflexivity|].
  apply nth_error_None in En. lia.
Qed.

Lemma seat_at_range (t : Table) (pos : Z) (x : option Player) :
  seat_at t pos = Some x -> 0 <= pos < Z.of_nat (List.length (seats t)).
Proof.
  unfold seat_at. destruct (pos <? 0) eqn:E; [discriminate|]. apply Z.ltb_ge in E.
  intros H. assert (Hl : (Z.to_nat pos < List.length (seats t))%nat)
    by (apply nth_error_Some; congruence). lia.
Qed.

Lemma string_of_Z_seat_error (t : Table) (pl : Player) (pos : Z) :
  (pos <? 0) || (maxSeats (config t) <=? pos) = true ->
  seatPlayer t pl pos = Throw (Error ("Invalid seat position: " ++ string_of_Z pos)).
Proof. unfold seatPlayer. intros ->. reflexivity. Qed.

(** X3: [seatPlayer] on a table whose seat list has [maxSeats] entries
    rejects a position outside [0, maxSeats) and an occupied seat with their
    error messages, succeeds on any empty seat in range, and then puts the
    player at that seat, leaves every other seat, the button, the board and
    the config as they were, and adds exactly that player to [getPlayers]
    (so [playerCount] grows by one). *)
Theorem seatPlayer_spec (t : Table) (pl : Player) (pos : Z) :
  Z.of_nat (List.length (seats t)) = maxSeats (config t) ->
  ((pos < 0 \/ maxSeats (config t) <= pos) ->
     seatPlayer t pl pos = Throw (Error ("Invalid seat position: " ++ string_of_Z pos)))
  /\ (forall q, getPlayerAtSeat t pos = Some q ->
     seatPlayer t pl pos
       = Throw (Error ("Seat " ++ string_of_Z pos ++ " is already occupied")))
  /\ (0 <= pos < maxSeats (config t) -> getPlayerAtSeat t pos = None ->
     exists t', seatPlayer t pl pos = Ok t'
       /\ getPlayerAtSeat t' pos = Some pl
       /\ (forall i, i <> pos -> seat_at t' i = seat_at t i)
       /\ buttonPosition t' = buttonPosition t /\ communityCards t' = communityCards t
       /\ config t' = config t
       /\ Permutation (getPlayers t') (pl :: getPlayers t)
       /\ playerCount t' = playerCount t + 1).
Proof.
  intros Hlen. split; [|split].
  - intros H. apply string_of_Z_seat_error.
    destruct H as [H|H]; [apply Z.ltb_lt in H; rewrite H; reflexivity|].
    apply Z.leb_le in H. rewrite H. apply orb_true_r.
  - intros q Hq. unfold getPlayerAtSeat in Hq.
    destruct (seat_at t pos) as [[q'|]|] eqn:Es; try discriminate.
    apply seat_at_range in Es as Hr.
    unfold seatPlayer.
    replace ((pos <? 0) || (maxSeats (config t) <=? pos)) with false
      by (symmetry; apply orb_false_iff; split; [apply Z.ltb_ge | apply Z.leb_gt]; lia).
    rewrite Es. reflexivity.
  - intros Hr Hn. destruct (seat_at_in_range t pos) as [x Hx]; [lia|].
    unfold getPlayerAtSeat in Hn. rewrite Hx in Hn.
    destruct x as [q|]; [discriminate|].
    exists (set_seat t pos pl). split.
    { unfold seatPlayer.
      replace ((pos <? 0) || (maxSeats (config t) <=? pos)) with false
        by (symmetry; apply orb_false_iff; split; [apply Z.ltb_ge | apply Z.leb_gt]; lia).
      rewrite Hx. reflexivity. }
    destruct (seat_at_split _ _ _ Hx) as (l1 & l2 & Hs & Hl1).
    pose proof (set_seat_seats t pos pl l1 l2 None Hs Hl1) as Hs'.
    split; [|split; [|split; [reflexivity|split; [reflexivity|split; [reflexivity|]]]]].
    + unfold getPlayerAtSeat. rewrite seat_at_set_seat, Hx. cbn [option_map].
      rewrite Nat.eqb_refl. reflexivity.
    + intros i Hi. rewrite seat_at_set_seat.
      destruct (seat_at t i) as [y|] eqn:Ey; [|reflexivity]. cbn [option_map].
      apply seat_at_range in Ey.
      destruct (Nat.eqb (Z.to_nat i) (Z.to_nat pos)) eqn:E; [|reflexivity].
      apply Nat.eqb_eq in E. lia.
    + assert (Hp : Permutation (getPlayers (set_seat t pos pl)) (pl :: getPlayers t)).
      { rewrite !getPlayers_seat_players, Hs', Hs, !seat_players_app.
        cbn [seat_players flat_map app]. apply Permutation_sym, Permutation_middle. }
      split; [exact Hp|].
      unfold playerCount. rewrite (Permutation_length Hp). cbn [List.length]. lia.
Qed.

Lemma seatPlayer_spec_witness :
  let t := mkTable [None; None] 0 [] (mkConfig 2 5 10) in
  exists t', seatPlayer t (new_Player "a" 100) 1 = Ok t'
    /\ getPlayerAtSeat t' 1 = Some (new_Player "a" 100)
    /\ playerCount t' = playerCount t + 1.
Proof.
  intros t.
  destruct (proj2 (proj2 (seatPlayer_spec t (new_Player "a" 100) 1 eq_refl))
              ltac:(cbn; lia) eq_refl)
    as (t' & H1 & H2 & _ & _ & _ & _ & _ & H3).
  exists t'. split; [exact H1|split; [exact H2|exact H3]].
Defined.

Definition occupied (x : option Player) : Prop := x <> None.

Lemma first_empty_some (l : list (option Player)) (s i : Z) :
  first_empty s l = Some i ->
  exists l1 l2, l = (l1 ++ None :: l2)%list /\ Forall occupied l1
    /\ i = s + Z.of_nat (List.length l1).
Proof.
  revert s; induction l as [|x r IH]; intros s H; [discriminate|].
  destruct x as [q|]; cbn [first_empty] in H.
  - destruct (IH _ H) as (l1 & l2 & -> & Hf & ->).
    exists (Some q :: l1), l2. split; [reflexivity|split].
    + constructor; [discriminate|exact Hf].
    + cbn [List.length]. lia.
  - injection H as <-. exists [], r. split; [reflexivity|split; [constructor|cbn; lia]].
Qed.

Lemma first_empty_none (l : list (option Player)) (s : Z) :
  first_empty s l = None <-> Forall occupied l.
Proof.
  revert s; induction l as [|x r IH]; intros s; [split; [constructor|reflexivity]|].
  destruct x as [q|]; cbn [first_empty].
  - rewrite IH. split; [intros H; constructor; [discriminate|exact H]|].
    intros H; inversion H; assumption.
  - split; [discriminate|]. intros H; inversion H as [|? ? Hx]. exfalso; apply Hx; reflexivity.
Qed.

Lemma seat_players_length (l : list (option Player)) :
  (List.length (seat_players l) <= List.length l)%nat
  /\ (List.length (seat_players l) = List.length l <-> Forall occupied l).
Proof.
  induction l as [|x r [IH1 IH2]]; [split; [cbn; lia|split; [constructor|reflexivity]]|].
  destruct x as [q|]; cbn [seat_players flat_map app List.length] in *; fold (seat_players r).
  - split; [lia|]. split.
    + intros H. constructor; [discriminate|apply IH2; lia].
    + intros H. inversion H. f_equal. apply IH2. assumption.
  - split; [lia|]. split; [lia|].
    intros H; inversion H as [|? ? Hx]. exfalso; apply Hx; reflexivity.
Qed.

Lemma nth_error_app_occupied (l1 l2 : list (option Player)) (j : nat) :
  Forall occupied l1 -> (j < List.length l1)%nat ->
  exists q, nth_error (l1 ++ l2)%list j = Some (Some q).
Proof.
  intros Hf Hj. rewrite nth_error_app1 by exact Hj.
  destruct (nth_error l1 j) as [x|] eqn:E; [|apply nth_error_None in E; lia].
  apply nth_error_In in E. rewrite Forall_forall in Hf. specialize (Hf _ E).
  destruct x as [q|]; [exists q; reflexivity|exfalso; apply Hf; reflexivity].
Qed.

(** X4: on a table whose seat list has [maxSeats] entries,
    [getNextEmptySeat] answers [null] exactly when every seat is taken
    ([playerCount = maxSeats]); otherwise it gives the lowest empty seat,
    and seating a player there always succeeds. *)
Theorem getNextEmptySeat_spec (t : Table) (pl : Player) :
  Z.of_nat (List.length (seats t)) = maxSeats (config t) ->
  (getNextEmptySeat t = None <-> playerCount t = maxSeats (config t))
  /\ (forall i, getNextEmptySeat t = Some i ->
        seat_at t i = Some None
        /\ (forall j, 0 <= j < i -> exists q, seat_at t j = Some (Some q))
        /\ seatPlayer t pl i = Ok (set_seat t i pl)).
Proof.
  intros Hlen. split.
  - unfold getNextEmptySeat, playerCount. rewrite first_empty_none, getPlayers_seat_players.
    destruct (seat_players_length (seats t)) as [_ H]. rewrite <- H. lia.
  - intros i Hi. unfold getNextEmptySeat in Hi.
    destruct (first_empty_some _ _ _ Hi) as (l1 & l2 & Hs & Hf & ->).
    assert (Hsi : seat_at t (0 + Z.of_nat (List.length l1)) = Some None).
    { unfold seat_at. replace (0 + Z.of_nat (List.length l1) <? 0) with false
        by (symmetry; apply Z.ltb_ge; lia).
      replace (Z.to_nat (0 + Z.of_nat (List.length l1))) with (List.length l1) by lia.
      rewrite Hs, nth_error_app2, Nat.sub_diag by lia. reflexivity. }
    split; [exact Hsi|split].
    + intros j Hj. unfold seat_at. replace (j <? 0) with false by (symmetry; apply Z.ltb_ge; lia).
      rewrite Hs. apply nth_error_app_occupied; [exact Hf|lia].
    + apply seat_at_range in Hsi as Hr. unfold seatPlayer.
      replace ((0 + Z.of_nat (List.length l1) <? 0)
               || (maxSeats (config t) <=? 0 + Z.of_nat (List.length l1))) with false
        by (symmetry; apply orb_false_iff; split; [apply Z.ltb_ge | apply Z.leb_gt]; lia).
      rewrite Hsi. reflexivity.
Qed.

Lemma getNextEmptySeat_spec_witness :
  let t := mkTable [Some (new_Player "a" 100); None] 0 [] (mkConfig 2 5 10) in
  getNextEmptySeat t = Some 1
  /\ seatPlayer t (new_Player "b" 100) 1 = Ok (set_seat t 1 (new_Player "b" 100)).
Proof.
  intros t. split; [reflexivity|].
  exact (proj2 (proj2 (proj2 (getNextEmptySeat_spec t (new_Player "b" 100) eq_refl)
                        1 eq_refl))).
Defined.

Definition not_id (pid : string) (x : option Player) : Prop :=
  match x with Some p => id p <> pid | None => True end.

Lemma remove_first_cases (pid : string) (l : list (option Player)) :
  (remove_first pid l = (false, l) /\ Forall (not_id pid) l)
  \/ (exists l1 q l2, l = (l1 ++ Some q :: l2)%list /\ id q = pid
        /\ Forall (not_id pid) l1 /\ remove_first pid l = (true, l1 ++ None :: l2)%list).
Proof.
  induction l as [|x r IH]; [left; split; [reflexivity|constructor]|].
  destruct x as [p|]; cbn [remove_first].
  - destruct (String.eqb (id p) pid) eqn:E.
    + right. exists [], p, r. apply String.eqb_eq in E.
      split; [reflexivity|split; [exact E|split; [constructor|reflexivity]]].
    + apply String.eqb_neq in E. destruct IH as [[-> Hf]|(l1 & q & l2 & -> & Hq & Hf & ->)].
      * left. split; [reflexivity|constructor; assumption].
      * right. exists (Some p :: l1), q, l2.
        split; [reflexivity|split; [exact Hq|split; [constructor; assumption|reflexivity]]].
  - destruct IH as [[-> Hf]|(l1 & q & l2 & -> & Hq & Hf & ->)].
    + left. split; [reflexivity|constructor; [exact I|assumption]].
    + right. exists (None :: l1), q, l2.
      split; [reflexivity|split; [exact Hq|split; [constructor; [exact I|assumption]|reflexivity]]].
Qed.

Lemma getPlayer_find (t : Table) (pid : string) :
  getPlayer t pid = find (fun p => String.eqb (id p) pid) (getPlayers t).
Proof.
  unfold getPlayer. rewrite getPlayers_seat_players.
  induction (seats t) as [|x r IH]; [reflexivity|].
  destruct x as [p|]; cbn [find seat_players flat_map app] in *; fold (seat_players r) in *.
  - destruct (String.eqb (id p) pid); [reflexivity|exact IH].
  - exact IH.
Qed.

Lemma find_none_iff {A} (f : A -> bool) (l : list A) :
  find f l = None <-> (forall x, In x l -> f x = false).
Proof.
  split; [apply find_none|].
  induction l as [|x r IH]; intros H; [reflexivity|]. cbn [find].
  rewrite (H x (or_introl eq_refl)). apply IH. intros y Hy. apply H. right; exact Hy.
Qed.

Lemma seat_players_not_id (pid : string) (l : list (option Player)) :
  Forall (not_id pid) l -> Forall (fun p => id p <> pid) (seat_players l).
Proof.
  induction 1 as [|x r Hx _ IH]; [constructor|].
  destruct x as [p|]; cbn [seat_players flat_map app]; fold (seat_players r);
    [constructor|]; assumption.
Qed.

(** X5: [removePlayer] empties the first seat (in seat order) holding a
    player with the given id and answers [true]; when [getPlayer] finds no
    such player it answers [false] and changes nothing. Every other seat
    keeps its player, [playerCount] drops by one, and when the ids at the
    table are distinct the player can no longer be found. *)
Theorem removePlayer_spec (t : Table) (pid : string) :
  (getPlayer t pid = None -> removePlayer t pid = (false, t))
  /\ (forall q, getPlayer t pid = Some q ->
        id q = pid
        /\ exists l1 l2, seats t = (l1 ++ Some q :: l2)%list
          /\ removePlayer t pid
             = (true, mkTable (l1 ++ None :: l2)%list (buttonPosition t)
                        (communityCards t) (config t))
          /\ playerCount (snd (removePlayer t pid)) = playerCount t - 1
          /\ (NoDup (map id (getPlayers t)) -> getPlayer (snd (removePlayer t pid)) pid = None)).
Proof.
  assert (Hg : forall l1 q l2, seats t = (l1 ++ Some q :: l2)%list ->
             Forall (not_id pid) l1 -> id q = pid -> getPlayer t pid = Some q).
  { intros l1 q l2 Hs Hf Hq. rewrite getPlayer_find, getPlayers_seat_players, Hs,
      seat_players_app. cbn [seat_players flat_map app]. fold (seat_players l2).
    apply seat_players_not_id in Hf.
    induction Hf as [|p r Hp _ IH]; cbn [find app].
    - rewrite Hq, String.eqb_refl. reflexivity.
    - apply String.eqb_neq in Hp. rewrite Hp. exact IH. }
  unfold removePlayer.
  destruct (remove_first_cases pid (seats t)) as [[Hr Hf]|(l1 & q & l2 & Hs & Hq & Hf & Hr)].
  - split.
    + intros _. rewrite Hr. destruct t; reflexivity.
    + intros q Hq. exfalso. rewrite getPlayer_find in Hq. apply find_some in Hq as [Hin Heq].
      apply String.eqb_eq in Heq. rewrite getPlayers_seat_players in Hin.
      apply seat_players_not_id in Hf. rewrite Forall_forall in Hf. exact (Hf q Hin Heq).
  - rewrite (Hg l1 q l2 Hs Hf Hq). split; [discriminate|].
    intros q' Hq'. injection Hq' as <-. split; [exact Hq|].
    exists l1, l2. rewrite Hr. split; [exact Hs|split; [reflexivity|split]].
    + unfold playerCount. cbn [snd]. rewrite !getPlayers_seat_players. cbn [seats].
      rewrite Hs, !seat_players_app. cbn [seat_players flat_map app].
      rewrite !length_app. cbn [List.length]. lia.
    + intros Hnd. cbn [snd]. rewrite getPlayer_find, find_none_iff.
      rewrite getPlayers_seat_players, Hs, seat_players_app in Hnd.
      cbn [seat_players flat_map app] in Hnd. fold (seat_players l2) in Hnd.
      rewrite map_app in Hnd. cbn [map] in Hnd. apply NoDup_remove_2 in Hnd.
      intros x Hx. rewrite getPlayers_seat_players in Hx. cbn [seats] in Hx.
      rewrite seat_players_app in Hx. cbn [seat_players flat_map app] in Hx.
      fold (seat_players l2) in Hx.
      apply String.eqb_neq. intros Hid. apply Hnd. rewrite Hq, <- Hid, <- map_app.
      apply in_map. exact Hx.
Qed.

Lemma removePlayer_spec_witness :
  let t := mkTable [Some (new_Player "a" 100); Some (new_Player "b" 100)] 0 []
             (mkConfig 2 5 10) in
  playerCount (snd (removePlayer t "b")) = playerCount t - 1
  /\ getPlayer (snd (removePlayer t "b")) "b" = None.
Proof.
  intros t.
  destruct (proj2 (removePlayer_spec t "b") (new_Player "b" 100) eq_refl)
    as (_ & l1 & l2 & _ & _ & Hc & Hn).
  split; [exact Hc|]. apply Hn. cbn. repeat constructor; cbn; intuition discriminate.
Defined.

(** ** Moving the button *)

Lemma empty_seat_iff (t : Table) (i : Z) : empty_seat t i = true <-> seat_at t i = Some None.
Proof.
  unfold empty_seat. destruct (seat_at t i) as [[q|]|]; split; congruence.
Qed.

Lemma move_loop_spec (t : Table) (b : Z) (fuel : nat) (a : Z) :
  0 < maxSeats (config t) -> 0 <= b -> 0 <= a <= maxSeats (config t) ->
  maxSeats (config t) - a < Z.of_nat fuel ->
  (forall j, 1 <= j <= a -> empty_seat t ((b + j) mod maxSeats (config t)) = true) ->
  let r := move_loop fuel t ((b + 1 + a) mod maxSeats (config t)) a in
  a <= snd r <= maxSeats (config t)
  /\ fst r = (b + 1 + snd r) mod maxSeats (config t)
  /\ (forall j, 1 <= j <= snd r -> empty_seat t ((b + j) mod maxSeats (config t)) = true)
  /\ (snd r < maxSeats (config t) -> empty_seat t (fst r) = false).
Proof.
  set (ms := maxSeats (config t)). intros Hms Hb.
  revert a; induction fuel as [|f IH]; intros a Ha Hf Hj; [cbn in Hf; lia|].
  cbn [move_loop]. fold ms.
  destruct (empty_seat t ((b + 1 + a) mod ms)) eqn:He; cbn [andb].
  - destruct (a <? ms) eqn:Ea.
    + apply Z.ltb_lt in Ea.
      assert (Hp : Z.rem ((b + 1 + a) mod ms + 1) ms = (b + 1 + (a + 1)) mod ms).
      { assert (0 <= (b + 1 + a) mod ms) by (apply Z.mod_pos_bound; lia).
        rewrite Z.rem_mod_nonneg by lia. rewrite Z.add_mod_idemp_l by lia.
        f_equal. lia. }
      rewrite Hp.
      destruct (IH (a + 1) ltac:(lia) ltac:(lia)) as (H1 & H2 & H3 & H4).
      { intros j Hj'. destruct (Z.eq_dec j (a + 1)) as [->|Hne].
        - replace (b + (a + 1)) with (b + 1 + a) by lia. exact He.
        - apply Hj. lia. }
      split; [lia|split; [exact H2|split; [exact H3|exact H4]]].
    + apply Z.ltb_ge in Ea. cbn [fst snd].
      split; [lia|split; [reflexivity|split; [exact Hj|lia]]].
  - cbn [fst snd]. split; [lia|split; [reflexivity|split; [exact Hj|]]].
    intros _. exact He.
Qed.

Lemma seat_players_nil (l : list (option Player)) :
  seat_players l = [] <-> Forall (fun x => x = None) l.
Proof.
  induction l as [|x r IH]; [split; [constructor|reflexivity]|].
  destruct x as [q|]; cbn [seat_players flat_map app]; fold (seat_players r).
  - split; [discriminate|]. intros H; inversion H; discriminate.
  - rewrite IH. split; [intros H; constructor; [reflexivity|exact H]|].
    intros H; inversion H; assumption.
Qed.

Lemma all_seats_empty (t : Table) (b : Z) :
  0 < maxSeats (config t) -> Z.of_nat (List.length (seats t)) = maxSeats (config t) ->
  (forall j, 1 <= j <= maxSeats (config t) ->
     empty_seat t ((b + j) mod maxSeats (config t)) = true) ->
  getPlayers t = [].
Proof.
  intros Hms Hlen Hj. rewrite getPlayers_seat_players, seat_players_nil, Forall_forall.
  intros x Hx. apply In_nth_error in Hx as [n Hn].
  assert (Hr : (n < List.length (seats t))%nat) by (apply nth_error_Some; congruence).
  set (ms := maxSeats (config t)) in *.
  specialize (Hj ((Z.of_nat n - b - 1) mod ms + 1)).
  assert (Hm : (b + ((Z.of_nat n - b - 1) mod ms + 1)) mod ms = Z.of_nat n).
  { replace (b + ((Z.of_nat n - b - 1) mod ms + 1))
      with ((b + 1) + (Z.of_nat n - b - 1) mod ms) by lia.
    rewrite Z.add_mod_idemp_r by lia. replace (b + 1 + (Z.of_nat n - b - 1)) with (Z.of_nat n)
      by lia. apply Z.mod_small. lia. }
  rewrite Hm in Hj. apply empty_seat_iff in Hj.
  - unfold seat_at in Hj. replace (Z.of_nat n <? 0) with false in Hj
      by (symmetry; apply Z.ltb_ge; lia).
    rewrite Nat2Z.id, Hn in Hj. congruence.
  - pose proof (Z.mod_pos_bound (Z.of_nat n - b - 1) ms Hms). lia.
Qed.

(** X6: on a table whose seat list has [maxSeats > 0] entries and whose
    button is at a non-negative position, [moveButton] throws exactly when
    no seat is occupied; otherwise it moves the button to the first occupied
    seat after the old button going round the table (possibly the button's
    own seat after a full turn), changing nothing else. *)
Theorem moveButton_next_occupied (t : Table) :
  0 < maxSeats (config t) -> Z.of_nat (List.length (seats t)) = maxSeats (config t) ->
  0 <= buttonPosition t ->
  (getPlayers t = [] ->
     moveButton t = Throw (Error "No occupied seats to move button to"))
  /\ (getPlayers t <> [] ->
     exists k q, 1 <= k <= maxSeats (config t)
       /\ moveButton t
          = Ok (mkTable (seats t) ((buttonPosition t + k) mod maxSeats (config t))
                  (communityCards t) (config t))
       /\ getPlayerAtSeat t ((buttonPosition t + k) mod maxSeats (config t)) = Some q
       /\ (forall j, 1 <= j < k ->
             seat_at t ((buttonPosition t + j) mod maxSeats (config t)) = Some None)).
Proof.
  intros Hms Hlen Hb. set (ms := maxSeats (config t)) in *. set (b := buttonPosition t) in *.
  assert (Hstart : Z.rem (b + 1) ms = (b + 1 + 0) mod ms)
    by (rewrite Z.rem_mod_nonneg by lia; f_equal; lia).
  destruct (move_loop_spec t b (S (Z.to_nat ms)) 0 Hms Hb ltac:(lia) ltac:(lia)
              ltac:(intros; lia)) as (H1 & H2 & H3 & H4).
  cbv zeta in H1, H2, H3, H4. fold ms in H1, H2, H3, H4.
  unfold moveButton. fold ms b. rewrite Hstart.
  destruct (move_loop (S (Z.to_nat ms)) t ((b + 1 + 0) mod ms) 0) as [p' a'] eqn:Hr.
  cbn [fst snd] in H1, H2, H3, H4.
  assert (Hin : 0 <= p' < ms) by (rewrite H2; apply Z.mod_pos_bound; lia).
  destruct (ms <=? a') eqn:Ea.
  - apply Z.leb_le in Ea. split; [reflexivity|].
    intros Hne. exfalso. apply Hne. apply (all_seats_empty t b Hms Hlen).
    intros j Hj. apply H3. lia.
  - apply Z.leb_gt in Ea. specialize (H4 Ea).
    destruct (seat_at_in_range t p' ltac:(lia)) as [[q|] Hq];
      [|apply empty_seat_iff in Hq; congruence].
    split.
    + intros Hnil. exfalso.
      assert (Hi : In q (getPlayers t))
        by (apply getPlayerAtSeat_In with (pos := p'); unfold getPlayerAtSeat; rewrite Hq;
            reflexivity).
      rewrite Hnil in Hi. exact Hi.
    + intros _. exists (a' + 1), q. split; [lia|].
      replace (b + (a' + 1)) with (b + 1 + a') by lia. rewrite <- H2.
      split; [reflexivity|split; [unfold getPlayerAtSeat; rewrite Hq; reflexivity|]].
      intros j Hj. apply empty_seat_iff, H3. lia.
Qed.

Lemma moveButton_next_occupied_witness :
  let t := mkTable [Some (new_Player "a" 100); None; Some (new_Player "b" 100)] 0 []
             (mkConfig 3 5 10) in
  exists k q, 1 <= k <= 3 /\ moveButton t = Ok (mkTable (seats t) ((0 + k) mod 3) [] (config t))
    /\ getPlayerAtSeat t ((0 + k) mod 3) = Some q.
Proof.
  intros t.
  destruct (proj2 (moveButton_next_occupied t ltac:(cbn; lia) eq_refl ltac:(cbn; lia))
              ltac:(discriminate)) as (k & q & Hk & Hm & Hq & _).
  exists k, q. split; [exact Hk|split; [exact Hm|exact Hq]].
Defined.

(** ** Players in seat order *)

Lemma seat_at_nth (t : Table) (n : nat) : seat_at t (Z.of_nat n) = nth_error (seats t) n.
Proof.
  unfold seat_at. replace (Z.of_nat n <? 0) with false by (symmetry; apply Z.ltb_ge; lia).
  rewrite Nat2Z.id. reflexivity.
Qed.

Lemma seat_player_of (x : option Player) :
  match x with Some p => [p] | None => [] end = seat_players [x].
Proof. destruct x; reflexivity. Qed.

Lemma skipn_nth {A} (l : list A) (p : nat) (x : A) :
  nth_error l p = Some x -> skipn p l = x :: skipn (S p) l.
Proof.
  rewrite <- hd_error_skipn. replace (S p) with (1 + p)%nat by lia. rewrite <- skipn_skipn.
  destruct (skipn p l); cbn; congruence.
Qed.

Lemma Permutation_filter_bool {A} (f : A -> bool) (l l' : list A) :
  Permutation l l' -> Permutation (filter f l) (filter f l').
Proof.
  induction 1 as [|x l l' _ IH|x y l|l l' l'' _ IH1 _ IH2]; cbn [filter].
  - constructor.
  - destruct (f x); [constructor|]; exact IH.
  - destruct (f x), (f y); try constructor; reflexivity.
  - etransitivity; eassumption.
Qed.

Lemma in_order_no_wrap (t : Table) (n : nat) (p : nat) :
  Z.of_nat (List.length (seats t)) = maxSeats (config t) ->
  (p + n <= List.length (seats t))%nat ->
  in_order_loop n t (Z.of_nat p) = seat_players (firstn n (skipn p (seats t))).
Proof.
  intros Hlen. revert p; induction n as [|n IH]; intros p Hp.
  - rewrite firstn_O. reflexivity.
  - cbn [in_order_loop]. rewrite seat_at_nth.
    destruct (nth_error (seats t) p) as [x|] eqn:Hx; [|apply nth_error_None in Hx; lia].
    rewrite (skipn_nth _ _ _ Hx), seat_player_of. cbn [firstn].
    change (x :: firstn n (skipn (S p) (seats t)))
      with ([x] ++ firstn n (skipn (S p) (seats t)))%list.
    rewrite seat_players_app. f_equal. destruct n as [|n]; [reflexivity|].
    rewrite Z.rem_mod_nonneg by lia. rewrite Z.mod_small by lia.
    replace (Z.of_nat p + 1) with (Z.of_nat (S p)) by lia.
    apply IH. lia.
Qed.

Lemma in_order_wrap (t : Table) (k m p : nat) :
  Z.of_nat (List.length (seats t)) = maxSeats (config t) ->
  (p + k = List.length (seats t))%nat -> (0 < k)%nat ->
  in_order_loop (k + m) t (Z.of_nat p)
  = (seat_players (skipn p (seats t)) ++ in_order_loop m t 0)%list.
Proof.
  intros Hlen. revert p; induction k as [|k IH]; intros p Hp Hk; [lia|].
  cbn [in_order_loop Nat.add]. rewrite seat_at_nth.
  destruct (nth_error (seats t) p) as [x|] eqn:Hx; [|apply nth_error_None in Hx; lia].
  rewrite (skipn_nth _ _ _ Hx), seat_player_of.
  change (x :: skipn (S p) (seats t)) with ([x] ++ skipn (S p) (seats t))%list.
  rewrite seat_players_app, <- app_assoc. f_equal.
  rewrite Z.rem_mod_nonneg by lia.
  destruct k as [|k].
  - replace (Z.of_nat p + 1) with (maxSeats (config t)) by lia. rewrite Z.mod_same by lia.
    rewrite skipn_all2 by lia. reflexivity.
  - rewrite Z.mod_small by lia. replace (Z.of_nat p + 1) with (Z.of_nat (S p)) by lia.
    apply IH; lia.
Qed.

(** X7: on a table whose seat list has [maxSeats] entries, for a start
    position in [0, maxSeats), [getPlayersInOrder] lists the players of the
    seats from [startPosition] to the last seat and then those of the seats
    before [startPosition]: a rotation of [getPlayers], so every seated
    player appears exactly once; [getActivePlayersInOrder] keeps those of
    them whose status is [Active]. *)
Theorem getPlayersInOrder_rotation (t : Table) (start : Z) :
  Z.of_nat (List.length (seats t)) = maxSeats (config t) ->
  0 <= start < maxSeats (config t) ->
  getPlayersInOrder t start
  = (seat_players (skipn (Z.to_nat start) (seats t))
     ++ seat_players (firstn (Z.to_nat start) (seats t)))%list
  /\ Permutation (getPlayersInOrder t start) (getPlayers t)
  /\ Permutation (getActivePlayersInOrder t start)
       (filter (fun p => PlayerStatus_eqb (status p) Active) (getPlayers t)).
Proof.
  intros Hlen Hs.
  assert (Heq : getPlayersInOrder t start
     = (seat_players (skipn (Z.to_nat start) (seats t))
        ++ seat_players (firstn (Z.to_nat start) (seats t)))%list).
  { unfold getPlayersInOrder.
    replace (Z.to_nat (maxSeats (config t)))
      with (Z.to_nat (maxSeats (config t) - start) + Z.to_nat start)%nat by lia.
    assert (E := in_order_wrap t (Z.to_nat (maxSeats (config t) - start)) (Z.to_nat start)
                   (Z.to_nat start) Hlen ltac:(lia) ltac:(lia)).
    rewrite Z2Nat.id in E by lia. rewrite E. f_equal.
    change 0 with (Z.of_nat 0). rewrite in_order_no_wrap by lia. reflexivity. }
  assert (Hp : Permutation (getPlayersInOrder t start) (getPlayers t)).
  { rewrite Heq, getPlayers_seat_players.
    rewrite <- (firstn_skipn (Z.to_nat start) (seats t)) at 3.
    rewrite seat_players_app. apply Permutation_app_comm. }
  split; [exact Heq|split; [exact Hp|]].
  unfold getActivePlayersInOrder. apply Permutation_filter_bool. exact Hp.
Qed.

Lemma getPlayersInOrder_rotation_witness :
  let t := mkTable [Some (new_Player "a" 100); None; Some (new_Player "b" 100)] 0 []
             (mkConfig 3 5 10) in
  getPlayersInOrder t 2 = [new_Player "b" 100; new_Player "a" 100]
  /\ Permutation (getPlayersInOrder t 2) (getPlayers t).
Proof.
  intros t. split; [reflexivity|].
  exact (proj1 (proj2 (getPlayersInOrder_rotation t 2 eq_refl ltac:(cbn; lia)))).
Defined.

(** ** Action order covers the active players *)

Lemma sort_insert_perm {A} (cmp : A -> A -> Z) (x : A) (l : list A) :
  Permutation (sort_insert cmp x l) (x :: l).
Proof.
  induction l as [|y r IH]; cbn [sort_insert]; [reflexivity|].
  destruct (cmp x y <? 0); [reflexivity|].
  etransitivity; [apply perm_skip, IH|apply perm_swap].
Qed.

Lemma js_sort_perm {A} (cmp : A -> A -> Z) (l : list A) : Permutation (js_sort cmp l) l.
Proof.
  unfold js_sort. assert (H : forall acc, Permutation (fold_left (fun acc x => sort_insert cmp x acc) l acc) (acc ++ l)%list).
  { induction l as [|x r IH]; intros acc; cbn [fold_left]; [rewrite app_nil_r; reflexivity|].
    rewrite IH. rewrite sort_insert_perm. cbn [app]. apply Permutation_middle. }
  rewrite H. reflexivity.
Qed.

Lemma Permutation_flat_map_l {A B} (g : A -> list B) (l l' : list A) :
  Permutation l l' -> Permutation (flat_map g l) (flat_map g l').
Proof.
  induction 1 as [|x l l' _ IH|x y l|l l' l'' _ IH1 _ IH2]; cbn [flat_map].
  - constructor.
  - apply Permutation_app_head. exact IH.
  - rewrite !app_assoc. apply Permutation_app_tail, Permutation_app_comm.
  - etransitivity; eassumption.
Qed.

Lemma findIndex_found {A} (f : A -> bool) (l : list A) (x : A) :
  In x l -> f x = true ->
  exists i y, findIndex f l = Z.of_nat i /\ nth_error l i = Some y /\ f y = true.
Proof.
  induction l as [|z r IH]; [intros []|]. intros Hin Hf. cbn [findIndex].
  destruct (f z) eqn:Ez; [exists 0%nat, z; split; [reflexivity|split; [reflexivity|exact Ez]]|].
  destruct Hin as [->|Hin]; [congruence|].
  destruct (IH Hin Hf) as (i & y & Hi & Hy & Hfy). rewrite Hi.
  replace (Z.of_nat i =? -1) with false by (symmetry; apply Z.eqb_neq; lia).
  exists (S i), y. split; [lia|split; [exact Hy|exact Hfy]].
Qed.

Lemma ids_at_activePositions (allPlayers active : list Player) :
  (forall p, In p active -> In p allPlayers) ->
  ids_at allPlayers (activePositions allPlayers active) = map id active.
Proof.
  induction active as [|p r IH]; intros Hsub; [reflexivity|].
  unfold activePositions in *. cbn [map filter].
  destruct (findIndex_found (fun q => String.eqb (id q) (id p)) allPlayers p
              (Hsub p (or_introl eq_refl)) (String.eqb_refl _)) as (i & y & Hi & Hy & Hfy).
  rewrite Hi. replace (Z.of_nat i =? -1) with false by (symmetry; apply Z.eqb_neq; lia).
  cbn [negb]. unfold ids_at in *. cbn [flat_map].
  replace (Z.of_nat i <? 0) with false by (symmetry; apply Z.ltb_ge; lia).
  rewrite Nat2Z.id, Hy. apply String.eqb_eq in Hfy. rewrite Hfy. cbn [app].
  f_equal. apply IH. intros q Hq. apply Hsub. right; exact Hq.
Qed.

Lemma rotate_perm {A} (l : list A) :
  Permutation (match l with [] => [] | x :: r => (r ++ [x])%list end) l.
Proof.
  destruct l as [|x r]; [reflexivity|]. rewrite <- Permutation_cons_append. reflexivity.
Qed.

(** X8: for every table and street, the action order of
    [ActionOrderRules.getActionOrder] lists the ids of the table's active
    players (status [Active] or [AllIn]), each as often as it occurs among
    them: nobody active is left out and nobody else is added. *)
Theorem getActionOrder_covers_active (t : Table) (street : BettingStreet) :
  Permutation (playerOrder (getActionOrder t street)) (map id (getActivePlayers t)).
Proof.
  assert (Hsub : forall p, In p (getActivePlayers t) -> In p (getPlayers t))
    by (intros p Hp; unfold getActivePlayers in Hp; apply filter_In in Hp; apply Hp).
  assert (Hids : forall l, Permutation l (activePositions (getPlayers t) (getActivePlayers t)) ->
            Permutation (ids_at (getPlayers t) l) (map id (getActivePlayers t))).
  { intros l Hl. rewrite <- (ids_at_activePositions _ _ Hsub).
    apply Permutation_flat_map_l. exact Hl. }
  unfold getActionOrder.
  destruct (getActivePlayers t) as [|a r] eqn:Ea; [reflexivity|].
  destruct street; cbn [playerOrder]; unfold getPreflopOrder, getPostFlopOrder;
    cbn [playerOrder]; apply Hids.
  all: repeat match goal with
         |- Permutation (if ?c then _ else _) _ => destruct c
         end;
    try rewrite rotate_perm; apply js_sort_perm.
Qed.

(** ** Pots built by [collectBets] *)

Lemma set_has_snoc (l : list string) (x q : string) :
  set_has String.eqb (l ++ [x])%list q = set_has String.eqb l q || String.eqb q x.
Proof. unfold set_has. rewrite existsb_app. cbn [existsb]. rewrite orb_false_r. reflexivity. Qed.

Lemma set_has_of_list (l : list string) (q : string) :
  set_has String.eqb (set_of_list String.eqb l) q = existsb (String.eqb q) l.
Proof.
  unfold set_of_list.
  assert (H : forall acc, set_has String.eqb (fold_left (set_add String.eqb) l acc) q
                          = set_has String.eqb acc q || existsb (String.eqb q) l).
  { induction l as [|x r IH]; intros acc; cbn [fold_left existsb]; [rewrite orb_false_r; reflexivity|].
    rewrite IH. unfold set_add at 1.
    destruct (set_has String.eqb acc x) eqn:Ex.
    - destruct (String.eqb q x) eqn:Eq; [|reflexivity].
      apply String.eqb_eq in Eq. subst x. rewrite Ex. reflexivity.
    - rewrite set_has_snoc. symmetry. apply orb_assoc. }
  rewrite H. reflexivity.
Qed.

Lemma collect_from_step (ps : list string) (pot pot' : Pot) (rem rem' : list (string * Z))
    (inc : Z) :
  0 < inc -> NoDup ps -> collect_from pot rem inc ps = Ok (pot', rem') ->
  (forall q, get_or0 (contributions pot') q
             = get_or0 (contributions pot) q + if existsb (String.eqb q) ps then inc else 0)
  /\ (forall q, set_has String.eqb (eligiblePlayerIds pot') q
                = set_has String.eqb (eligiblePlayerIds pot) q || existsb (String.eqb q) ps)
  /\ (pot_invariant pot -> pot_invariant pot').
Proof.
  intros Hinc. revert pot rem; induction ps as [|p ps IH]; intros pot rem Hnd H.
  - cbn [collect_from] in H. injection H as <- _. cbn [existsb].
    split; [intros q; lia|split; [intros q; rewrite orb_false_r; reflexivity|auto]].
  - inversion Hnd as [|? ? Hp Hndps]; subst. cbn [collect_from] in H.
    destruct (addContribution pot p inc) as [pot1|e] eqn:Ea; [|discriminate].
    destruct (IH pot1 _ Hndps H) as (H1 & H2 & H3).
    unfold addContribution in Ea. destruct (inc <=? 0) eqn:Ei; [discriminate|].
    split; [|split].
    + intros q. rewrite H1. injection Ea as <-. cbn [contributions existsb].
      rewrite get_or0_map_set. destruct (String.eqb q p) eqn:Eq; cbn [orb].
      * apply String.eqb_eq in Eq. subst q.
        destruct (existsb (String.eqb p) ps) eqn:E2; [|lia].
        apply existsb_exists in E2 as [y [Hy Ey]]. apply String.eqb_eq in Ey. subst y.
        contradiction.
      * lia.
    + intros q. rewrite H2. injection Ea as <-. cbn [eligiblePlayerIds existsb].
      destruct (set_has String.eqb (eligiblePlayerIds pot) p) eqn:Ep.
      * destruct (String.eqb q p) eqn:Eq; [|reflexivity].
        apply String.eqb_eq in Eq. subst q. rewrite Ep. reflexivity.
      * rewrite set_has_snoc. apply eq_sym, orb_assoc.
    + intros Hi. apply H3. eapply pot_invariant_addContribution; [exact Hi|].
      unfold addContribution. rewrite Ei. exact Ea.
Qed.

Lemma set_has_delete (e : list string) (f q : string) :
  set_has String.eqb (set_delete String.eqb e f) q
  = set_has String.eqb e q && negb (String.eqb f q).
Proof.
  unfold set_has, set_delete. induction e as [|y r IH]; [reflexivity|].
  cbn [filter existsb]. destruct (String.eqb f y) eqn:Efy; cbn [negb].
  - apply String.eqb_eq in Efy. subst y. rewrite IH.
    destruct (String.eqb q f) eqn:Eq; [|reflexivity].
    apply String.eqb_eq in Eq; subst q. rewrite String.eqb_refl. cbn. apply andb_false_r.
  - cbn [existsb]. rewrite IH. destruct (String.eqb q y) eqn:Eq; cbn [orb]; [|reflexivity].
    apply String.eqb_eq in Eq; subst y. rewrite Efy. reflexivity.
Qed.

Lemma removeEligibility_step (folded : list string) (pot : Pot) :
  contributions (fold_left removePlayerEligibility folded pot) = contributions pot
  /\ (forall q, set_has String.eqb (eligiblePlayerIds (fold_left removePlayerEligibility folded pot)) q
        = set_has String.eqb (eligiblePlayerIds pot) q && negb (existsb (String.eqb q) folded)).
Proof.
  revert pot; induction folded as [|f r IH]; intros pot; cbn [fold_left existsb].
  - split; [reflexivity|intros q; rewrite andb_true_r; reflexivity].
  - destruct (IH (removePlayerEligibility pot f)) as [H1 H2]. split; [exact H1|].
    intros q. rewrite H2. unfold removePlayerEligibility. cbn [eligiblePlayerIds].
    rewrite set_has_delete, String.eqb_sym, negb_orb, andb_assoc. reflexivity.
Qed.

Lemma get_or0_sub (ps : list string) (inc : Z) (rem : list (string * Z)) (q : string) :
  (existsb (String.eqb q) ps = true -> In q (map fst rem)) ->
  get_or0 (map (sub_entries ps inc) rem) q
  = get_or0 rem q - if existsb (String.eqb q) ps then inc else 0.
Proof.
  intros Hsub.
  assert (H : map_get (map (sub_entries ps inc) rem) q
              = option_map (fun v => if existsb (String.eqb q) ps then v - inc else v)
                  (map_get rem q)).
  { clear Hsub. induction rem as [|[k v] r IH]; [reflexivity|].
    cbn [map map_get]. unfold sub_entries at 1. cbn [fst snd].
    destruct (existsb (String.eqb k) ps) eqn:Ek; cbn [map_get fst snd];
      destruct (String.eqb q k) eqn:Eq; try exact IH;
      apply String.eqb_eq in Eq; subst k; rewrite Ek; reflexivity. }
  unfold get_or0. rewrite H.
  destruct (map_get rem q) as [v|] eqn:Ev; cbn [option_map].
  - destruct (existsb _ _); lia.
  - destruct (existsb (String.eqb q) ps) eqn:E; [|lia]. exfalso.
    specialize (Hsub eq_refl). apply in_map_iff in Hsub as [[k v] [Ek Hin]].
    cbn [fst] in Ek. subst k. clear -Ev Hin. induction rem as [|[k' v'] r IH]; [destruct Hin|].
    cbn [map_get] in Ev. destruct (String.eqb q k') eqn:E; [discriminate|].
    destruct Hin as [Heq|Hin]; [injection Heq as -> _; rewrite String.eqb_refl in E; discriminate|].
    exact (IH Hin Ev).
Qed.

Lemma pot_zero_empty (pot : Pot) :
  pot_invariant pot -> total pot = 0 -> contributions pot = [].
Proof.
  unfold pot_invariant. rewrite total_sum. destruct (contributions pot) as [|kv r]; [reflexivity|].
  intros H. inversion H as [|? ? Hkv Hr]; subst. apply sum_values_nonneg in Hr.
  cbn [sum_values fold_right] in *. unfold sum_values in Hr. lia.
Qed.

Definition pots (pm : PotManager) : list Pot := mainPot pm :: sidePots pm.

(** What one player has in all pots together. *)
Definition player_total (pm : PotManager) (q : string) : Z :=
  fold_right (fun pot acc => get_or0 (contributions pot) q + acc) 0 (pots pm).

(** A pot whose eligible players are exactly its non-folded contributors. *)
Definition elig_exact (folded : list string) (pot : Pot) : Prop :=
  forall q, isPlayerEligible pot q = true
            <-> 0 < get_or0 (contributions pot) q /\ ~ In q folded.

(** Every level still to come is reached by some remaining amount. *)
Definition levels_cover (prev : Z) (levels : list Z) (rem : list (string * Z)) : Prop :=
  Forall (fun l => exists kv, In kv rem /\ l = prev + snd kv) levels.

Lemma existsb_eqb_In (q : string) (l : list string) :
  existsb (String.eqb q) l = true <-> In q l.
Proof.
  rewrite existsb_exists. split.
  - intros [y [Hy E]]. apply String.eqb_eq in E. subst. exact Hy.
  - intros H. exists q. split; [exact H|apply String.eqb_refl].
Qed.

Lemma player_total_snoc (main : Pot) (side : list Pot) (pot : Pot) (q : string) :
  player_total (mkPM main (side ++ [pot])%list) q
  = player_total (mkPM main side) q + get_or0 (contributions pot) q.
Proof.
  unfold player_total, pots. cbn [mainPot sidePots fold_right].
  rewrite fold_right_app. cbn [fold_right].
  induction side as [|s r IH]; cbn [fold_right]; [lia|]. lia.
Qed.

Lemma collect_levels_pots (folded : list string) (levels : list Z) :
  forall prev rem pm,
  StronglySorted Z.lt (prev :: levels) -> NoDup (map fst rem) ->
  levels_invariant prev levels rem -> Forall pot_invariant (pots pm) ->
  exists pm', collect_levels folded prev levels rem pm = Ok pm'
    /\ (forall q, player_total pm' q = player_total pm q + get_or0 rem q)
    /\ Forall pot_invariant (pots pm')
    /\ (forall pot, In pot (pots pm') -> In pot (pots pm) \/ elig_exact folded pot)
    /\ (total (mainPot pm) <> 0 -> mainPot pm' = mainPot pm)
    /\ (levels_cover prev levels rem ->
          (levels <> [] -> total (mainPot pm') <> 0)
          /\ (List.length (sidePots pm') + (if Z.eqb (total (mainPot pm)) 0 then 1 else 0)
              = List.length (sidePots pm) + List.length levels
                + (if Z.eqb (total (mainPot pm')) 0 then 1 else 0))%nat).
Proof.
  induction levels as [|cur rest IH]; intros prev rem pm Hs Hnd Hinv Hpi.
  - exists pm. split; [reflexivity|].
    assert (H0 : forall q, get_or0 rem q = 0).
    { intros q. unfold get_or0. clear -Hinv. induction Hinv as [|[k v] r [H|[_ []]] _ IH];
        [reflexivity|]. cbn [map_get snd] in *. destruct (String.eqb q k); [exact H|exact IH]. }
    split; [intros q; rewrite H0; lia|].
    split; [exact Hpi|split; [intros pot H; left; exact H|split; [reflexivity|]]].
    intros _. split; [intros H; contradiction|]. cbn [List.length]. lia.
  - apply StronglySorted_inv in Hs as [Hs Hlt].
    apply StronglySorted_inv in Hs as Hs'. destruct Hs' as [_ Hrest].
    rewrite Forall_forall in Hlt, Hrest.
    assert (Hcur : prev < cur) by (apply Hlt; left; reflexivity).
    set (inc := cur - prev).
    assert (Hge : forall kv, In kv rem -> snd kv = 0 \/ inc <= snd kv).
    { intros kv Hkv. unfold levels_invariant in Hinv. rewrite Forall_forall in Hinv.
      destruct (Hinv kv Hkv) as [H|[Hp [E|Hin]]]; [left; exact H|right..].
      - unfold inc. lia.
      - pose proof (Hrest _ Hin). unfold inc. lia. }
    cbn [collect_levels]. fold inc.
    destruct (map fst (filter (fun kv => inc <=? snd kv) rem)) as [|c cs] eqn:Ecp.
    + assert (Hz : forall kv, In kv rem -> snd kv = 0).
      { intros kv Hkv. destruct (Hge kv Hkv) as [H|H]; [exact H|].
        assert (In (fst kv) (map fst (filter (fun kv => inc <=? snd kv) rem))).
        { apply in_map, filter_In. split; [exact Hkv | apply Z.leb_le, H]. }
        rewrite Ecp in H0. destruct H0. }
      destruct (IH cur rem pm Hs Hnd) as (pm' & E & H1 & H2 & H3 & H4 & H5);
        [apply Forall_forall; intros kv Hkv; left; apply Hz, Hkv|exact Hpi|].
      exists pm'. split; [exact E|split; [exact H1|split; [exact H2|split; [exact H3|split; [exact H4|]]]]].
      intros Hcov. exfalso. unfold levels_cover in Hcov. inversion Hcov as [|? ? [kv [Hkv Ecur]] _].
      pose proof (Hz kv Hkv). unfold inc in Ecp. lia.
    + assert (Hinc : 0 < inc) by (unfold inc; lia).
      assert (Hndc : NoDup (c :: cs)).
      { rewrite <- Ecp. apply NoDup_keys_filter, Hnd. }
      assert (Hsub : forall p, In p (c :: cs) -> In p (map fst rem)).
      { intros p Hp. rewrite <- Ecp in Hp. apply in_map_iff in Hp as [kv [<- Hkv]].
        apply filter_In in Hkv as [Hkv _]. apply in_map, Hkv. }
      set (E := filter (fun id => negb (set_has String.eqb folded id)) (c :: cs)).
      destruct (collect_from_ok (c :: cs) (new_Pot E) rem inc Hinc Hndc Hnd Hsub)
        as [pot [Ec [Ht Hsum]]].
      rewrite Ec.
      destruct (collect_from_step (c :: cs) (new_Pot E) pot rem _ inc Hinc Hndc Ec)
        as (Hc & He & Hpinv).
      destruct (removeEligibility_step folded pot) as [Hrc Hre].
      set (pot' := fold_left removePlayerEligibility folded pot).
      set (rem' := map (sub_entries (c :: cs) inc) rem).
      set (pm'' := if total (mainPot pm) =? 0 then mkPM pot' (sidePots pm)
                   else mkPM (mainPot pm) (sidePots pm ++ [pot'])).
      assert (Hpc : forall q, get_or0 (contributions pot') q
                              = if existsb (String.eqb q) (c :: cs) then inc else 0).
      { intros q. unfold pot'. rewrite Hrc, Hc. reflexivity. }
      assert (Hpt : 0 < total pot').
      { unfold pot'. rewrite removeEligibility_total, Ht. unfold new_Pot, total.
        cbn [contributions fold_left List.length]. lia. }
      assert (Hpi' : pot_invariant pot').
      { unfold pot_invariant, pot'. rewrite Hrc. apply Hpinv, pot_invariant_new. }
      assert (Hpe : elig_exact folded pot').
      { intros q. unfold isPlayerEligible, pot'. rewrite Hre, He.
        unfold new_Pot. cbn [eligiblePlayerIds]. rewrite set_has_of_list.
        fold pot'. rewrite Hpc.
        destruct (existsb (String.eqb q) (c :: cs)) eqn:Eq.
        - rewrite orb_true_r. cbn [andb].
          destruct (existsb (String.eqb q) folded) eqn:Ef; cbn [negb].
          + apply existsb_eqb_In in Ef. split; [discriminate|intros [_ H]; contradiction].
          + split; [intros _; split; [exact Hinc|]|reflexivity].
            intros Hf. apply existsb_eqb_In in Hf. congruence.
        - destruct (existsb (String.eqb q) E) eqn:EE.
          + exfalso. apply existsb_eqb_In in EE. unfold E in EE.
            apply filter_In in EE as [EE _]. apply existsb_eqb_In in EE. congruence.
          + cbn. split; [discriminate|lia]. }
      assert (Hk' : map fst rem' = map fst rem).
      { unfold rem'. rewrite map_map. apply map_ext. intros [k v]. unfold sub_entries.
        cbn [fst]. destruct (existsb _ _); reflexivity. }
      assert (Hinv' : levels_invariant cur rest rem').
      { unfold levels_invariant, rem'. apply Forall_forall. intros kv' Hkv'.
        apply in_map_iff in Hkv' as [kv [<- Hkv]].
        unfold sub_entries. rewrite <- Ecp, (contributors_exact _ rem kv Hnd Hkv).
        unfold levels_invariant in Hinv. rewrite Forall_forall in Hinv.
        destruct (inc <=? snd kv) eqn:Ei; cbn [fst snd].
        - apply Z.leb_le in Ei.
          destruct (Hinv kv Hkv) as [H|[Hp [E0|Hin]]]; [lia|left; unfold inc; lia|].
          pose proof (Hrest _ Hin). right. split; [unfold inc; lia|].
          replace (cur + (snd kv - inc)) with (prev + snd kv) by (unfold inc; lia).
          exact Hin.
        - apply Z.leb_gt in Ei. destruct (Hge kv Hkv) as [H|H]; [left; exact H | lia]. }
      inversion Hpi as [|? ? Hmain Hside]; subst.
      assert (Hpm1 : Forall pot_invariant (pots pm'')).
      { unfold pm'', pots. destruct (total (mainPot pm) =? 0); cbn [mainPot sidePots].
        - constructor; assumption.
        - constructor; [assumption|]. apply Forall_app. split; [assumption|].
          constructor; [exact Hpi'|constructor]. }
      assert (Hpm2 : forall q, player_total pm'' q
                               = player_total pm q + get_or0 (contributions pot') q).
      { intros q. unfold pm''. destruct (total (mainPot pm) =? 0) eqn:E0.
        - apply Z.eqb_eq in E0. unfold player_total, pots. cbn [mainPot sidePots fold_right].
          rewrite (pot_zero_empty _ Hmain E0). change (get_or0 [] q) with 0. lia.
        - destruct pm as [main side]. apply player_total_snoc. }
      assert (Hpm3 : forall pot0, In pot0 (pots pm'') -> In pot0 (pots pm) \/ pot0 = pot').
      { intros pot0 H. unfold pm'', pots in *.
        destruct (total (mainPot pm) =? 0); cbn [mainPot sidePots In] in *.
        - destruct H as [H|H]; [right; symmetry; exact H|left; right; exact H].
        - destruct H as [H|H]; [left; left; exact H|].
          apply in_app_or in H as [H|[H|[]]]; [left; right; exact H|right; symmetry; exact H]. }
      assert (Hpm4 : total (mainPot pm'') <> 0).
      { unfold pm''. destruct (total (mainPot pm) =? 0) eqn:E0; cbn [mainPot].
        - lia.
        - apply Z.eqb_neq in E0. exact E0. }
      assert (Hpm5 : total (mainPot pm) <> 0 -> mainPot pm'' = mainPot pm).
      { intros H. unfold pm''. apply Z.eqb_neq in H. rewrite H. reflexivity. }
      assert (Hpm6 : (List.length (sidePots pm'') + (if Z.eqb (total (mainPot pm)) 0 then 1 else 0)
                      = List.length (sidePots pm) + 1)%nat).
      { unfold pm''. destruct (total (mainPot pm) =? 0); cbn [sidePots];
          [|rewrite length_app; cbn [List.length]]; lia. }
      destruct (IH cur rem' pm'' Hs) as (pm' & Ef & H1 & H2 & H3 & H4 & H5).
      { rewrite Hk'. exact Hnd. }
      { exact Hinv'. }
      { exact Hpm1. }
      exists pm'. split; [exact Ef|split; [|split; [exact H2|split; [|split]]]].
      * intros q. rewrite H1, Hpm2, Hpc. unfold rem'. rewrite get_or0_sub.
        { destruct (existsb _ _); lia. }
        intros Hq. apply Hsub, existsb_eqb_In, Hq.
      * intros pot0 Hp0. destruct (H3 pot0 Hp0) as [Hp1|Hp1]; [|right; exact Hp1].
        destruct (Hpm3 pot0 Hp1) as [Hp2| ->]; [left; exact Hp2|right; exact Hpe].
      * intros Hm. rewrite (H4 Hpm4). apply Hpm5, Hm.
      * intros Hcov. split.
        { intros _. rewrite (H4 Hpm4). exact Hpm4. }
        assert (Hcov' : levels_cover cur rest rem').
        { unfold levels_cover in *. inversion Hcov as [|? ? _ Hcr]; subst.
          rewrite Forall_forall in Hcr |- *. intros l Hl.
          destruct (Hcr l Hl) as [kv [Hkv El]]. pose proof (Hrest l Hl) as Hgt.
          exists (sub_entries (c :: cs) inc kv). split; [apply in_map, Hkv|].
          unfold sub_entries. rewrite <- Ecp, (contributors_exact _ rem kv Hnd Hkv).
          replace (inc <=? snd kv) with true by (symmetry; apply Z.leb_le; unfold inc in *; lia).
          cbn [snd]. unfold inc. lia. }
        destruct (H5 Hcov') as [_ Hcount].
        apply Z.eqb_neq in Hpm4. rewrite Hpm4 in Hcount. cbn [List.length]. lia.
Qed.

Lemma collectBets_levels (pm : PotManager) (bets : list (string * Z))
    (allIn folded : list string) :
  Forall (fun kv => 0 <= snd kv) bets ->
  collectBets pm bets allIn folded
  = match uniqueBetAmounts bets with
    | [] => Ok pm
    | levels => collect_levels folded 0 levels bets pm
    end
  /\ levels_invariant 0 (uniqueBetAmounts bets) bets
  /\ levels_cover 0 (uniqueBetAmounts bets) bets.
Proof.
  intros Hnn. destruct (uniqueBetAmounts_spec bets) as [Hs Hmem]. split; [|split].
  - unfold collectBets. destruct bets as [|kv r]; [reflexivity|].
    destruct (uniqueBetAmounts (kv :: r)); reflexivity.
  - unfold levels_invariant. rewrite Forall_forall in Hnn |- *. intros kv Hkv.
    destruct (Z.eq_dec (snd kv) 0) as [H|H]; [left; exact H|right].
    pose proof (Hnn kv Hkv). split; [lia|]. rewrite Z.add_0_l. apply Hmem.
    split; [lia|apply in_map, Hkv].
  - unfold levels_cover. apply Forall_forall. intros l Hl. apply Hmem in Hl as [_ Hl].
    apply in_map_iff in Hl as [kv [<- Hkv]]. exists kv. split; [exact Hkv|lia].
Qed.

Lemma get_or0_all_zero (bets : list (string * Z)) (q : string) :
  Forall (fun kv => 0 <= snd kv) bets -> uniqueBetAmounts bets = [] -> get_or0 bets q = 0.
Proof.
  intros Hnn Hu. destruct (uniqueBetAmounts_spec bets) as [_ Hmem].
  unfold get_or0. destruct (map_get bets q) as [v|] eqn:Ev; [|reflexivity].
  assert (Hin : In (q, v) bets).
  { clear -Ev. induction bets as [|[k w] r IH]; [discriminate|]. cbn [map_get] in Ev.
    destruct (String.eqb q k) eqn:E; [|right; apply IH, Ev].
    apply String.eqb_eq in E. injection Ev as ->. subst. left; reflexivity. }
  rewrite Forall_forall in Hnn. specialize (Hnn _ Hin). cbn [snd] in Hnn.
  destruct (Z.eq_dec v 0) as [->|Hv]; [reflexivity|]. exfalso.
  assert (H : In v (uniqueBetAmounts bets)) by (apply Hmem; split; [lia|apply in_map_iff; exists (q, v); auto]).
  rewrite Hu in H. exact H.
Qed.

(** X9: [collectBets] with non-negative amounts under distinct player ids
    (a JS [Map]), on a [PotManager] whose pots hold only positive
    contributions (as every pot built by the code does), succeeds; each
    player's contributions summed over the main pot and all side pots grow by
    exactly the amount passed in for that player; and every pot it creates
    lists as eligible exactly the players that put chips in it and are not in
    the folded set. *)
Theorem collectBets_player_shares (pm : PotManager) (bets : list (string * Z))
    (allIn folded : list string) :
  Forall (fun kv => 0 <= snd kv) bets -> NoDup (map fst bets) ->
  Forall pot_invariant (pots pm) ->
  exists pm', collectBets pm bets allIn folded = Ok pm'
    /\ (forall q, player_total pm' q = player_total pm q + get_or0 bets q)
    /\ Forall pot_invariant (pots pm')
    /\ (forall pot, In pot (pots pm') -> In pot (pots pm) \/ elig_exact folded pot).
Proof.
  intros Hnn Hnd Hpi. destruct (collectBets_levels pm bets allIn folded Hnn) as (E & Hinv & _).
  destruct (uniqueBetAmounts_spec bets) as [Hs _].
  rewrite E. destruct (uniqueBetAmounts bets) as [|l ls] eqn:Eu.
  - exists pm. split; [reflexivity|]. split; [|split; [exact Hpi|intros pot H; left; exact H]].
    intros q. rewrite (get_or0_all_zero bets q Hnn Eu). lia.
  - destruct (collect_levels_pots folded (l :: ls) 0 bets pm Hs Hnd Hinv Hpi)
      as (pm' & Ec & H1 & H2 & H3 & _).
    exists pm'. split; [exact Ec|split; [exact H1|split; [exact H2|exact H3]]].
Qed.

Lemma collectBets_player_shares_witness :
  exists pm', collectBets new_PotManager [("a", 50); ("b", 200); ("c", 0)] [] ["b"] = Ok pm'
    /\ player_total pm' "b" = 200
    /\ (forall pot, In pot (pots pm') -> In pot (pots new_PotManager) \/ elig_exact ["b"] pot).
Proof.
  destruct (collectBets_player_shares new_PotManager [("a", 50); ("b", 200); ("c", 0)] [] ["b"])
    as (pm' & E & H1 & _ & H3).
  - repeat constructor; cbn; lia.
  - cbn. repeat constructor; cbn; intuition discriminate.
  - repeat constructor.
  - exists pm'. split; [exact E|split; [rewrite H1; reflexivity|exact H3]].
Defined.



(** ** Who receives winnings *)

Lemma map_get_map_set {V} (m : list (string * V)) (k p : string) (v : V) :
  map_get (map_set m k v) p = if String.eqb p k then Some v else map_get m p.
Proof.
  induction m as [|[k' v'] r IH]; cbn [map_set map_get].
  - destruct (String.eqb p k); reflexivity.
  - destruct (String.eqb k k') eqn:E; cbn [map_get].
    + apply String.eqb_eq in E; subst k'. destruct (String.eqb p k); reflexivity.
    + rewrite IH. destruct (String.eqb p k') eqn:E2; [|reflexivity].
      apply String.eqb_eq in E2; subst k'.
      destruct (String.eqb p k) eqn:E3; [|reflexivity].
      apply String.eqb_eq in E3; subst. rewrite String.eqb_refl in E. discriminate.
Qed.

Lemma credit_winners_other (b : bool) (ew : list string) (q r : Z)
    (w : list (string * Z)) (p : string) :
  ~ In p ew -> map_get (credit_winners b ew q r w) p = map_get w p.
Proof.
  revert b w; induction ew as [|f rest IH]; intros b w Hp; [reflexivity|].
  cbn [credit_winners]. rewrite IH by (intros H; apply Hp; right; exact H).
  rewrite map_get_map_set. destruct (String.eqb p f) eqn:E; [|reflexivity].
  apply String.eqb_eq in E. subst. exfalso. apply Hp. left; reflexivity.
Qed.

Lemma distributeSinglePot_touch (pot : Pot) (winners : list string)
    (w : list (string * Z)) (p : string) :
  map_get (distributeSinglePot pot winners w) p <> map_get w p ->
  In p winners /\ isPlayerEligible pot p = true /\ total pot <> 0.
Proof.
  unfold distributeSinglePot. destruct (total pot =? 0) eqn:E0; [congruence|].
  apply Z.eqb_neq in E0.
  destruct (filter (isPlayerEligible pot) winners) as [|f rest] eqn:Ew; [congruence|].
  intros H. destruct (in_dec String.string_dec p (f :: rest)) as [Hin|Hout].
  - rewrite <- Ew in Hin. apply filter_In in Hin as [H1 H2]. split; [exact H1|split; assumption].
  - rewrite credit_winners_other in H by exact Hout. congruence.
Qed.

Lemma distribute_fold_touch (ps : list Pot) (winners : list string)
    (w : list (string * Z)) (p : string) :
  map_get (fold_left (fun w pot => distributeSinglePot pot winners w) ps w) p <> map_get w p ->
  In p winners /\ exists pot, In pot ps /\ isPlayerEligible pot p = true /\ total pot <> 0.
Proof.
  revert w; induction ps as [|pot rest IH]; intros w H; cbn [fold_left] in H; [congruence|].
  assert (Hdec : forall x y : option Z, {x = y} + {x <> y})
    by (decide equality; apply Z.eq_dec).
  destruct (Hdec (map_get (distributeSinglePot pot winners w) p) (map_get w p))
    as [Eq|Ne].
  - rewrite <- Eq in H. destruct (IH _ H) as [Hw [pot' [Hin Hp]]].
    split; [exact Hw|]. exists pot'. split; [right; exact Hin|exact Hp].
  - destruct (distributeSinglePot_touch pot winners w p Ne) as (H1 & H2 & H3).
    split; [exact H1|]. exists pot. split; [left; reflexivity|split; assumption].
Qed.

(** X11: the winnings map of [PotManager.distributePots] has an entry for a
    player only if the player is among the winners and is eligible for some
    pot (main or side) that is not empty: a player who did not win, or who
    is eligible for no non-empty pot, receives nothing, not even a 0
    entry. *)
Theorem distributePots_pays_eligible_winners (pm : PotManager) (winners : list string)
    (p : string) :
  map_get (distributePots pm winners) p <> None ->
  In p winners
  /\ exists pot, In pot (pots pm) /\ isPlayerEligible pot p = true /\ total pot <> 0.
Proof.
  intros H. apply (distribute_fold_touch (pots pm) winners [] p). exact H.
Qed.

Lemma distributePots_pays_eligible_winners_witness :
  In "p2" ["p2"; "p3"]
  /\ exists pot, In pot (pots (mkPM (mkPot [("p2", 100); ("p3", 100)] ["p2"]) []))
      /\ isPlayerEligible pot "p2" = true /\ total pot <> 0.
Proof.
  apply (distributePots_pays_eligible_winners
           (mkPM (mkPot [("p2", 100); ("p3", 100)] ["p2"]) []) ["p2"; "p3"] "p2").
  vm_compute. discriminate.
Defined.

(** ** Dealing from the deck *)

Lemma bind_ok {A B} (m : HM A) (k : A -> HM B) s a s' :
  m s = (Ok a, s') -> bind m k s = k a s'.
Proof. intros E. unfold bind. rewrite E. reflexivity. Qed.

Lemma bind_ret {A B} (a : A) (k : A -> HM B) s : bind (ret a) k s = k a s.
Proof. reflexivity. Qed.

Lemma bind_get {A} (k : HandManager -> HM A) s : bind get k s = k s s.
Proof. reflexivity. Qed.

Lemma hm_dealCard_pop s rest c :
  deckCards (deck s) = (rest ++ [c])%list ->
  hm_dealCard s = (Ok c, with_deck (mkDeck rest (dealtCards (deck s) ++ [c])) s).
Proof.
  intros H. unfold hm_dealCard. rewrite bind_get. unfold dealCard.
  rewrite H, rev_app_distr. simpl. rewrite rev_involutive. reflexivity.
Qed.

Lemma hm_dealCard_empty s :
  deckCards (deck s) = [] ->
  hm_dealCard s = (Throw (Error "Cannot deal from empty deck"), s).
Proof.
  intros H. unfold hm_dealCard. rewrite bind_get. unfold dealCard.
  rewrite H. reflexivity.
Qed.

Lemma deck_pop s :
  (1 <= List.length (deckCards (deck s)))%nat ->
  exists rest c, deckCards (deck s) = (rest ++ [c])%list.
Proof.
  intros H. assert (Hne : deckCards (deck s) <> []).
  { intros E. rewrite E in H. simpl in H. lia. }
  destruct (exists_last Hne) as [rest [c Hrc]]. eauto.
Qed.

Lemma deal_loop_ok (n : nat) : forall s,
  (n <= List.length (deckCards (deck s)))%nat ->
  exists cs d', deal_loop n s = (Ok cs, with_deck d' s) /\
    List.length cs = n /\
    deckCards (deck s) = (deckCards d' ++ rev cs)%list /\
    dealtCards d' = (dealtCards (deck s) ++ cs)%list.
Proof.
  induction n as [|n IH]; intros s Hn.
  - exists [], (deck s). destruct s. simpl. rewrite !app_nil_r. auto.
  - destruct (deck_pop s) as [rest [c Hrc]]; [lia|].
    set (s1 := with_deck (mkDeck rest (dealtCards (deck s) ++ [c])) s).
    assert (E1 := hm_dealCard_pop s rest c Hrc).
    destruct (IH s1) as [cs [d' [E2 [Hl [Hd Ht]]]]].
    { simpl. rewrite Hrc, length_app in Hn. simpl in Hn. lia. }
    exists (c :: cs), d'. cbn [deal_loop].
    rewrite (bind_ok _ _ _ _ _ E1). cbv beta. rewrite (bind_ok _ _ _ _ _ E2).
    split; [reflexivity|]. simpl in Hd, Ht. split; [simpl; lia|]. split.
    + rewrite Hrc, Hd. simpl. rewrite <- app_assoc. reflexivity.
    + rewrite Ht, <- app_assoc. reflexivity.
Qed.

Lemma hm_dealCards_ok s count :
  count <= Z.of_nat (List.length (deckCards (deck s))) ->
  exists cs d', hm_dealCards count s = (Ok cs, with_deck d' s) /\
    List.length cs = Z.to_nat count /\
    deckCards (deck s) = (deckCards d' ++ rev cs)%list /\
    dealtCards d' = (dealtCards (deck s) ++ cs)%list.
Proof.
  intros H. unfold hm_dealCards. rewrite bind_get. cbv zeta.
  rewrite (proj2 (Z.ltb_ge _ _) H). apply deal_loop_ok. lia.
Qed.

Lemma hm_burnCard_ok s rest b :
  deckCards (deck s) = (rest ++ [b])%list ->
  hm_burnCard s = (Ok tt, with_deck (mkDeck rest (dealtCards (deck s) ++ [b])) s).
Proof.
  intros H. unfold hm_burnCard. rewrite (bind_ok _ _ _ _ _ (hm_dealCard_pop s rest b H)).
  reflexivity.
Qed.

Lemma dealFlop_ok s :
  (4 <= List.length (deckCards (deck s)))%nat ->
  exists b f d', dealFlop s = (Ok f, with_table (setCommunityCards (table s) f) (with_deck d' s)) /\
    List.length f = 3%nat /\
    deckCards (deck s) = (deckCards d' ++ rev (b :: f))%list /\
    dealtCards d' = (dealtCards (deck s) ++ b :: f)%list.
Proof.
  intros Hn. destruct (deck_pop s) as [rest [b Hrb]]; [lia|].
  set (s1 := with_deck (mkDeck rest (dealtCards (deck s) ++ [b])) s).
  assert (E1 := hm_burnCard_ok s rest b Hrb).
  destruct (hm_dealCards_ok s1 3) as [f [d' [E2 [Hl [Hd Ht]]]]].
  { simpl. rewrite Hrb, length_app in Hn. simpl in Hn. lia. }
  exists b, f, d'. split.
  { unfold dealFlop. rewrite (bind_ok _ _ _ _ _ E1). cbv beta.
    rewrite (bind_ok _ _ _ _ _ E2). reflexivity. }
  simpl in Hd, Ht. split; [exact Hl|]. split.
  - rewrite Hrb, Hd. simpl. rewrite <- !app_assoc. reflexivity.
  - rewrite Ht, <- app_assoc. reflexivity.
Qed.

Lemma dealTurn_ok s :
  (2 <= List.length (deckCards (deck s)))%nat ->
  exists b c d', dealTurn s =
      (Ok c, with_table (setCommunityCards (table s) (communityCards (table s) ++ [c])%list)
                        (with_deck d' s)) /\
    deckCards (deck s) = (deckCards d' ++ rev [b; c])%list /\
    dealtCards d' = (dealtCards (deck s) ++ [b; c])%list.
Proof.
  intros Hn. destruct (deck_pop s) as [rest [b Hrb]]; [lia|].
  set (s1 := with_deck (mkDeck rest (dealtCards (deck s) ++ [b])) s).
  assert (E1 := hm_burnCard_ok s rest b Hrb).
  destruct (deck_pop s1) as [rest' [c Hrc]].
  { simpl. rewrite Hrb, length_app in Hn. simpl in Hn. lia. }
  assert (E2 := hm_dealCard_pop s1 rest' c Hrc).
  exists b, c, (mkDeck rest' (dealtCards (deck s1) ++ [c])). split.
  { unfold dealTurn. rewrite (bind_ok _ _ _ _ _ E1). cbv beta.
    rewrite (bind_ok _ _ _ _ _ E2). reflexivity. }
  simpl in Hrc |- *. split.
  - rewrite Hrb, Hrc, <- app_assoc. reflexivity.
  - rewrite <- app_assoc. reflexivity.
Qed.

Lemma dealRiver_ok s :
  (2 <= List.length (deckCards (deck s)))%nat ->
  exists b c d', dealRiver s =
      (Ok c, with_table (setCommunityCards (table s) (communityCards (table s) ++ [c])%list)
                        (with_deck d' s)) /\
    deckCards (deck s) = (deckCards d' ++ rev [b; c])%list /\
    dealtCards d' = (dealtCards (deck s) ++ [b; c])%list.
Proof.
  intros Hn. destruct (deck_pop s) as [rest [b Hrb]]; [lia|].
  set (s1 := with_deck (mkDeck rest (dealtCards (deck s) ++ [b])) s).
  assert (E1 := hm_burnCard_ok s rest b Hrb).
  destruct (deck_pop s1) as [rest' [c Hrc]].
  { simpl. rewrite Hrb, length_app in Hn. simpl in Hn. lia. }
  assert (E2 := hm_dealCard_pop s1 rest' c Hrc).
  exists b, c, (mkDeck rest' (dealtCards (deck s1) ++ [c])). split.
  { unfold dealRiver. rewrite (bind_ok _ _ _ _ _ E1). cbv beta.
    rewrite (bind_ok _ _ _ _ _ E2). reflexivity. }
  simpl in Hrc |- *. split.
  - rewrite Hrb, Hrc, <- app_assoc. reflexivity.
  - rewrite <- app_assoc. reflexivity.
Qed.

(** X12: [Deck.dealCards count] throws "Cannot deal <count> cards, only <n>
    remaining" and changes nothing when [count] exceeds the [n] cards left;
    otherwise it returns [max count 0] cards popped from the end of the deck,
    in the order dealt, appends them to the dealt cards and touches nothing
    but the deck. *)
Theorem dealCards_spec (s : HandManager) (count : Z) :
  (Z.of_nat (List.length (deckCards (deck s))) < count ->
   hm_dealCards count s =
     (Throw (Error ("Cannot deal " ++ string_of_Z count ++ " cards, only "
                    ++ string_of_nat (List.length (deckCards (deck s))) ++ " remaining")), s)) /\
  (count <= Z.of_nat (List.length (deckCards (deck s))) ->
   exists cs d', hm_dealCards count s = (Ok cs, with_deck d' s) /\
     List.length cs = Z.to_nat count /\
     deckCards (deck s) = (deckCards d' ++ rev cs)%list /\
     dealtCards d' = (dealtCards (deck s) ++ cs)%list).
Proof.
  split.
  - intros H. unfold hm_dealCards. rewrite bind_get. cbv zeta.
    rewrite (proj2 (Z.ltb_lt _ _) H). reflexivity.
  - apply hm_dealCards_ok.
Qed.

Lemma dealCards_spec_witness :
  let s := mkHM (mkTable [None; None] 0 [] (mkConfig 2 1 2)) (mkDeck [mkCard Two Spades; mkCard Ace Hearts] []) (mkPM (mkPot [] []) [])
             WaitingForPlayers 0 None in
  hm_dealCards 3 s = (Throw (Error "Cannot deal 3 cards, only 2 remaining"), s) /\
  exists cs d', hm_dealCards 1 s = (Ok cs, with_deck d' s) /\ List.length cs = 1%nat /\
    deckCards (deck s) = (deckCards d' ++ rev cs)%list /\
    dealtCards d' = (dealtCards (deck s) ++ cs)%list.
Proof.
  intros s. split.
  - apply (proj1 (dealCards_spec s 3)). vm_compute. reflexivity.
  - apply (proj2 (dealCards_spec s 1)). vm_compute. discriminate.
Defined.

(** X13: [HandManager.dealRemainingCards] on a board of at most five cards
    and a deck holding the cards it burns and deals (four for the flop when
    fewer than three cards are out, two each for the turn and the river)
    succeeds and leaves exactly five community cards. Cards already out are
    kept when there are at least three; with fewer, the flop replaces them.
    Every new board card comes from the deck, the drawn cards leave the
    deck from its end and join the dealt cards, and the seats, button and
    configuration of the table are unchanged. *)
Theorem dealRemainingCards_completes_board (s : HandManager) :
  (List.length (communityCards (table s)) <= 5)%nat ->
  (((if Nat.ltb (List.length (communityCards (table s))) 3 then 4 else 0)
    + (if Nat.ltb (List.length (communityCards (table s))) 4 then 2 else 0)
    + (if Nat.ltb (List.length (communityCards (table s))) 5 then 2 else 0))
   <= List.length (deckCards (deck s)))%nat ->
  exists t' d' drawn newCards,
    dealRemainingCards s = (Ok tt, with_table t' (with_deck d' s)) /\
    seats t' = seats (table s) /\ buttonPosition t' = buttonPosition (table s) /\
    config t' = config (table s) /\
    communityCards t' =
      ((if Nat.ltb (List.length (communityCards (table s))) 3 then []
        else communityCards (table s)) ++ newCards)%list /\
    List.length (communityCards t') = 5%nat /\
    incl newCards drawn /\
    List.length drawn =
      ((if Nat.ltb (List.length (communityCards (table s))) 3 then 4 else 0)
       + (if Nat.ltb (List.length (communityCards (table s))) 4 then 2 else 0)
       + (if Nat.ltb (List.length (communityCards (table s))) 5 then 2 else 0))%nat /\
    deckCards (deck s) = (deckCards d' ++ rev drawn)%list /\
    dealtCards d' = (dealtCards (deck s) ++ drawn)%list.
Proof.
  intros Hcc Hn. unfold dealRemainingCards. rewrite bind_get. cbv zeta.
  remember (List.length (communityCards (table s))) as n eqn:En.
  assert (Hcases : (n < 3 \/ n = 3 \/ n = 4 \/ n = 5)%nat) by lia.
  destruct Hcases as [H3 | [-> | [-> | ->]]].
  - rewrite (proj2 (Nat.ltb_lt _ _) H3) in Hn |- *.
    rewrite (proj2 (Nat.ltb_lt n 4)), (proj2 (Nat.ltb_lt n 5)) in Hn |- * by lia.
    destruct (dealFlop_ok s) as [b1 [f [d1 [E1 [Hf [Hd1 Ht1]]]]]]; [lia|].
    set (s1 := with_table (setCommunityCards (table s) f) (with_deck d1 s)) in E1.
    destruct (dealTurn_ok s1) as [b2 [c2 [d2 [E2 [Hd2 Ht2]]]]].
    { simpl. rewrite Hd1, length_app, length_rev in Hn. simpl in Hn. lia. }
    set (s2 := with_table (setCommunityCards (table s1) (communityCards (table s1) ++ [c2])%list)
                 (with_deck d2 s1)) in E2.
    destruct (dealRiver_ok s2) as [b3 [c3 [d3 [E3 [Hd3 Ht3]]]]].
    { simpl. simpl in Hd2. rewrite Hd1, Hd2, !length_app, !length_rev in Hn.
      simpl in Hn. lia. }
    exists (setCommunityCards (table s) ((f ++ [c2]) ++ [c3])%list), d3,
      ((b1 :: f) ++ [b2; c2] ++ [b3; c3])%list, ((f ++ [c2]) ++ [c3])%list.
    split.
    { assert (E1' : (dealFlop ;;; ret tt) s = (Ok tt, s1))
        by (rewrite (bind_ok _ _ _ _ _ E1); reflexivity).
      assert (E2' : (dealTurn ;;; ret tt) s1 = (Ok tt, s2))
        by (rewrite (bind_ok _ _ _ _ _ E2); reflexivity).
      rewrite (bind_ok _ _ _ _ _ E1'). cbv beta. rewrite (bind_ok _ _ _ _ _ E2'). cbv beta.
      rewrite (bind_ok _ _ _ _ _ E3). reflexivity. }
    simpl in Hd2, Ht2, Hd3, Ht3. simpl.
    split; [reflexivity|]. split; [reflexivity|]. split; [reflexivity|].
    split; [reflexivity|]. split; [rewrite !length_app, Hf; reflexivity|].
    split; [intros x Hx; repeat rewrite in_app_iff in Hx; simpl in Hx; simpl;
             repeat rewrite in_app_iff; simpl; tauto|].
    split; [rewrite !length_app, Hf; reflexivity|]. split.
    + rewrite Hd1, Hd2, Hd3, !rev_app_distr, <- !app_assoc. reflexivity.
    + rewrite Ht3, Ht2, Ht1, <- !app_assoc. reflexivity.
  - cbn [Nat.ltb Nat.leb] in Hn |- *.
    destruct (dealTurn_ok s) as [b2 [c2 [d2 [E2 [Hd2 Ht2]]]]]; [lia|].
    set (s2 := with_table (setCommunityCards (table s) (communityCards (table s) ++ [c2])%list)
                 (with_deck d2 s)) in E2.
    destruct (dealRiver_ok s2) as [b3 [c3 [d3 [E3 [Hd3 Ht3]]]]].
    { simpl. rewrite Hd2, length_app, length_rev in Hn. simpl in Hn. lia. }
    exists (setCommunityCards (table s) ((communityCards (table s) ++ [c2]) ++ [c3])%list), d3,
      ([b2; c2] ++ [b3; c3])%list, [c2; c3].
    split.
    { assert (E2' : (dealTurn ;;; ret tt) s = (Ok tt, s2))
        by (rewrite (bind_ok _ _ _ _ _ E2); reflexivity).
      rewrite bind_ret. rewrite (bind_ok _ _ _ _ _ E2'). cbv beta.
      rewrite (bind_ok _ _ _ _ _ E3). reflexivity. }
    simpl in Hd3, Ht3. simpl.
    split; [reflexivity|]. split; [reflexivity|]. split; [reflexivity|].
    split; [rewrite <- app_assoc; reflexivity|].
    split; [rewrite !length_app, <- En; reflexivity|].
    split; [intros x Hx; simpl in Hx |- *; tauto|].
    split; [reflexivity|]. split.
    + rewrite Hd2, Hd3, <- !app_assoc. reflexivity.
    + rewrite Ht3, Ht2, <- !app_assoc. reflexivity.
  - cbn [Nat.ltb Nat.leb] in Hn |- *.
    destruct (dealRiver_ok s) as [b3 [c3 [d3 [E3 [Hd3 Ht3]]]]]; [lia|].
    exists (setCommunityCards (table s) (communityCards (table s) ++ [c3])%list), d3,
      [b3; c3], [c3].
    split.
    { rewrite !bind_ret. rewrite (bind_ok _ _ _ _ _ E3). reflexivity. }
    simpl.
    split; [reflexivity|]. split; [reflexivity|]. split; [reflexivity|].
    split; [reflexivity|].
    split; [rewrite length_app, <- En; reflexivity|].
    split; [intros x Hx; simpl in Hx |- *; tauto|].
    split; [reflexivity|]. split; assumption.
  - cbn [Nat.ltb Nat.leb].
    exists (table s), (deck s), [], [].
    split; [destruct s; reflexivity|]. simpl.
    split; [reflexivity|]. split; [reflexivity|]. split; [reflexivity|].
    split; [rewrite app_nil_r; reflexivity|].
    split; [symmetry; exact En|].
    split; [intros x Hx; exact Hx|].
    split; [reflexivity|]. rewrite !app_nil_r. split; reflexivity.
Qed.

Lemma dealRemainingCards_completes_board_witness :
  let s := mkHM (mkTable [None; None] 0 [] (mkConfig 2 1 2)) deck_reset
             (mkPM (mkPot [] []) []) PreflopBetting 1 None in
  exists t' d' drawn newCards,
    dealRemainingCards s = (Ok tt, with_table t' (with_deck d' s)) /\
    seats t' = seats (table s) /\ buttonPosition t' = buttonPosition (table s) /\
    config t' = config (table s) /\
    communityCards t' = ([] ++ newCards)%list /\
    List.length (communityCards t') = 5%nat /\
    incl newCards drawn /\ List.length drawn = 8%nat /\
    deckCards (deck s) = (deckCards d' ++ rev drawn)%list /\
    dealtCards d' = (dealtCards (deck s) ++ drawn)%list.
Proof.
  intros s. apply (dealRemainingCards_completes_board s); vm_compute; lia.
Defined.

(** ** Shuffling *)

Lemma list_set_split {A} (l : list A) i x d :
  (i < List.length l)%nat ->
  l = (firstn i l ++ nth i l d :: skipn (S i) l)%list /\
  list_set l i x = (firstn i l ++ x :: skipn (S i) l)%list.
Proof.
  intros Hi. split; [|reflexivity].
  rewrite <- (firstn_skipn i l) at 1. f_equal.
  revert l Hi. induction i as [|i IH]; intros [|a l] Hi; simpl in *; try lia.
  - reflexivity.
  - apply IH. lia.
Qed.

Lemma list_set_perm {A} (l : list A) i x d :
  (i < List.length l)%nat ->
  Permutation (x :: l) (nth i l d :: list_set l i x).
Proof.
  intros Hi. destruct (list_set_split l i x d Hi) as [E1 E2].
  rewrite E2. rewrite E1 at 1.
  eapply perm_trans; [apply perm_skip; symmetry; apply Permutation_middle|].
  eapply perm_trans; [apply perm_swap|].
  apply perm_skip. apply Permutation_middle.
Qed.

Lemma length_list_set {A} (l : list A) i x :
  (i < List.length l)%nat -> List.length (list_set l i x) = List.length l.
Proof.
  intros Hi. unfold list_set. rewrite length_app, length_firstn. cbn [List.length].
  rewrite length_skipn. lia.
Qed.

Lemma nth_list_set_le {A} (l : list A) i j x d :
  (i < List.length l)%nat -> (j <= i)%nat ->
  nth j (list_set l i x) d = if Nat.eqb j i then x else nth j l d.
Proof.
  intros Hi Hj. unfold list_set.
  assert (Hf : List.length (firstn i l) = i) by (rewrite length_firstn; lia).
  destruct (Nat.eqb_spec j i) as [->|Hne].
  - rewrite app_nth2 by lia. rewrite Hf, Nat.sub_diag. reflexivity.
  - rewrite app_nth1 by lia.
    rewrite <- (firstn_skipn i l) at 2. rewrite app_nth1 by lia. reflexivity.
Qed.

Lemma swap_perm (cs : list Card) i j d :
  (i < List.length cs)%nat -> (j <= i)%nat ->
  Permutation (list_set (list_set cs i (nth j cs d)) j (nth i cs d)) cs.
Proof.
  intros Hi Hj.
  set (l1 := list_set cs i (nth j cs d)).
  assert (P1 := list_set_perm cs i (nth j cs d) d Hi).
  assert (Hl1 : (j < List.length l1)%nat) by (unfold l1; rewrite length_list_set; lia).
  assert (P2 := list_set_perm l1 j (nth i cs d) d Hl1).
  assert (Hn : nth j l1 d = nth j cs d).
  { unfold l1. rewrite nth_list_set_le by assumption.
    destruct (Nat.eqb_spec j i) as [->|]; reflexivity. }
  rewrite Hn in P2.
  apply (Permutation_cons_inv (a := nth j cs d)).
  symmetry. eapply perm_trans; [exact P1|]. exact P2.
Qed.

Lemma fisher_yates_perm (random_index : nat -> nat) (i : nat) : forall cs,
  (i < List.length cs \/ i = 0)%nat ->
  Permutation (fisher_yates random_index i cs) cs.
Proof.
  induction i as [|i IH]; intros cs Hi.
  - reflexivity.
  - cbn [fisher_yates]. assert (Hlt : (S i < List.length cs)%nat) by lia.
    assert (Hj : (random_index (S i) mod S (S i) <= S i)%nat).
    { apply Nat.lt_succ_r, Nat.mod_upper_bound. discriminate. }
    eapply perm_trans; [apply IH|apply swap_perm; assumption].
    left. rewrite !length_list_set; try lia.
    rewrite length_list_set; lia.
Qed.

Lemma full_deck_NoDup : NoDup full_deck.
Proof.
  unfold full_deck. simpl.
  repeat constructor; simpl; intros H;
    repeat (destruct H as [H|H]; [discriminate|]); exact H.
Qed.

Lemma full_deck_complete r su : In (mkCard r su) full_deck.
Proof.
  destruct r, su; unfold full_deck; simpl;
    repeat (first [left; reflexivity | right]).
Qed.

(** X14: [Deck.shuffle] only reorders the cards, whatever indices
    [Math.random] produces: the cards left in the deck after a shuffle are a
    permutation of those before it, and the dealt cards are unchanged. In
    particular a freshly reset and shuffled deck holds 52 distinct cards,
    among them every rank of every suit. *)
Theorem deck_shuffle_permutes (random_index : nat -> nat) (d : Deck) :
  Permutation (deckCards (deck_shuffle random_index d)) (deckCards d) /\
  dealtCards (deck_shuffle random_index d) = dealtCards d /\
  (NoDup (deckCards (deck_shuffle random_index deck_reset)) /\
   List.length (deckCards (deck_shuffle random_index deck_reset)) = 52%nat /\
   forall r su, In (mkCard r su) (deckCards (deck_shuffle random_index deck_reset))).
Proof.
  assert (P : forall d, Permutation (deckCards (deck_shuffle random_index d)) (deckCards d)).
  { intros d0. unfold deck_shuffle. simpl. apply fisher_yates_perm.
    destruct (List.length (deckCards d0)); simpl; lia. }
  split; [apply P|]. split; [reflexivity|].
  split; [|split].
  - eapply Permutation_NoDup; [symmetry; apply P|]. apply full_deck_NoDup.
  - rewrite (Permutation_length (P deck_reset)). reflexivity.
  - intros r su. eapply Permutation_in; [symmetry; apply P|]. apply full_deck_complete.
Qed.

(** ** Hand flow *)

(** X15: the state [getNextState] proposes is always one [setState]
    accepts, whatever [allButOneFolded] says, except from [GameOver], for
    which it proposes [GameOver] itself, a transition [isValidTransition]
    refuses. *)
Theorem getNextState_valid (current : GameState) (allButOneFolded : bool) :
  (current <> GameOver ->
     isValidTransition current (getNextState current allButOneFolded) = true)
  /\ getNextState GameOver allButOneFolded = GameOver
  /\ isValidTransition GameOver GameOver = false.
Proof.
  split; [|split; [destruct allButOneFolded; reflexivity|reflexivity]].
  intros H. destruct current, allButOneFolded; try reflexivity; congruence.
Qed.

Lemma getNextState_valid_witness :
  isValidTransition PreflopBetting (getNextState PreflopBetting true) = true.
Proof. apply (proj1 (getNextState_valid PreflopBetting true)). discriminate. Defined.

(** X16: [setReadyToStart] does nothing from [ReadyToStart]; from
    [WaitingForPlayers] it moves to [ReadyToStart] when at least two players
    are active and otherwise throws "Need at least 2 players to be ready to
    start"; from any other state it throws "Cannot transition to
    ReadyToStart from state: <state>". A throw changes nothing, and calling
    it twice has the same effect as calling it once. *)
Theorem setReadyToStart_spec (s : HandManager) :
  (setReadyToStart ;;; setReadyToStart) s = setReadyToStart s
  /\ (currentState s = ReadyToStart -> setReadyToStart s = (Ok tt, s))
  /\ (currentState s = WaitingForPlayers ->
      (2 <= List.length (getActivePlayers (table s)))%nat ->
      setReadyToStart s = (Ok tt, with_state ReadyToStart s))
  /\ (currentState s = WaitingForPlayers ->
      (List.length (getActivePlayers (table s)) < 2)%nat ->
      setReadyToStart s = (Throw (Error "Need at least 2 players to be ready to start"), s))
  /\ (currentState s <> ReadyToStart -> currentState s <> WaitingForPlayers ->
      setReadyToStart s =
        (Throw (Error ("Cannot transition to ReadyToStart from state: "
                       ++ GameState_string (currentState s))), s)).
Proof.
  destruct s as [t d pm st hn bt]. cbn [currentState table].
  split; [|split; [|split; [|split]]].
  - destruct st; try reflexivity.
    unfold setReadyToStart, bind, get, ret, throw, setState, put.
    cbv beta. cbn [currentState table GameState_beq negb].
    destruct (Nat.ltb (List.length (getActivePlayers t)) 2); reflexivity.
  - intros ->. reflexivity.
  - intros -> H. unfold setReadyToStart. rewrite bind_get.
    cbn [currentState table GameState_beq negb].
    rewrite (proj2 (Nat.ltb_ge _ _) H). reflexivity.
  - intros -> H. unfold setReadyToStart. rewrite bind_get.
    cbn [currentState table GameState_beq negb].
    rewrite (proj2 (Nat.ltb_lt _ _) H). reflexivity.
  - intros H1 H2. destruct st; try congruence; reflexivity.
Qed.

Lemma setReadyToStart_spec_witness :
  let s := mkHM (mkTable [Some (new_Player "a" 100); Some (new_Player "b" 100)] 0 []
                   (mkConfig 2 1 2)) deck_reset new_PotManager WaitingForPlayers 0 None in
  setReadyToStart s = (Ok tt, with_state ReadyToStart s)
  /\ setReadyToStart (with_state ReadyToStart s) = (Ok tt, with_state ReadyToStart s)
  /\ setReadyToStart (with_state Showdown s)
     = (Throw (Error "Cannot transition to ReadyToStart from state: SHOWDOWN"),
        with_state Showdown s).
Proof.
  intros s. split; [|split].
  - apply (proj1 (proj2 (proj2 (setReadyToStart_spec s)))); [reflexivity|vm_compute; lia].
  - apply (proj1 (proj2 (setReadyToStart_spec (with_state ReadyToStart s)))). reflexivity.
  - apply (proj2 (proj2 (proj2 (proj2 (setReadyToStart_spec (with_state Showdown s))))));
      discriminate.
Defined.

(** The seat after the removal loop of [prepareNextHand]: emptied when its
    player is eliminated. *)
Definition elim_seat (x : option Player) : option Player :=
  match x with Some p => if isEliminated p then None else Some p | None => None end.

(** The removal loop on the seat list alone. *)
Definition elim_seats (players : list Player) (l : list (option Player)) : list (option Player) :=
  fold_left (fun l p => if isEliminated p then snd (remove_first (id p) l) else l) players l.

Lemma remove_eliminated_mk (players : list Player) : forall l b c cfg,
  remove_eliminated (mkTable l b c cfg) players = mkTable (elim_seats players l) b c cfg.
Proof.
  induction players as [|p r IH]; intros l b c cfg; [reflexivity|].
  cbn [remove_eliminated]. unfold elim_seats. cbn [fold_left]. fold (elim_seats r).
  destruct (isEliminated p); [|apply IH].
  unfold removePlayer. cbn [seats buttonPosition communityCards config].
  destruct (remove_first (id p) l) as [bb ss]. cbn [snd]. apply IH.
Qed.

Lemma elim_seats_none (players : list Player) : forall l,
  elim_seats players (None :: l) = None :: elim_seats players l.
Proof.
  induction players as [|p r IH]; intros l; [reflexivity|].
  unfold elim_seats. cbn [fold_left]. fold (elim_seats r).
  destruct (isEliminated p); [|apply IH].
  cbn [remove_first]. destruct (remove_first (id p) l) as [bb ss]. apply IH.
Qed.

Lemma elim_seats_some (players : list Player) (q : Player) : forall l,
  Forall (fun p => id p <> id q) players ->
  elim_seats players (Some q :: l) = Some q :: elim_seats players l.
Proof.
  induction players as [|p r IH]; intros l Hf; [reflexivity|].
  inversion Hf as [|? ? Hp Hr]; subst.
  unfold elim_seats. cbn [fold_left]. fold (elim_seats r).
  destruct (isEliminated p); [|apply IH, Hr].
  cbn [remove_first]. replace (String.eqb (id q) (id p)) with false
    by (symmetry; apply String.eqb_neq; congruence).
  destruct (remove_first (id p) l) as [bb ss]. apply IH, Hr.
Qed.

Lemma elim_seats_all (l : list (option Player)) :
  NoDup (map id (seat_players l)) -> elim_seats (seat_players l) l = map elim_seat l.
Proof.
  induction l as [|x r IH]; intros Hnd; [reflexivity|].
  destruct x as [q|]; cbn [seat_players flat_map app] in *; fold (seat_players r) in *.
  - cbn [map] in Hnd. inversion Hnd as [|? ? Hq Hnd']; subst.
    unfold elim_seats. cbn [fold_left]. fold (elim_seats (seat_players r)).
    cbn [remove_first map elim_seat]. rewrite String.eqb_refl.
    destruct (isEliminated q); cbn [snd].
    + rewrite elim_seats_none, IH by exact Hnd'. reflexivity.
    + rewrite elim_seats_some, IH by (assumption || (apply Forall_forall; intros p Hp He;
        apply Hq; rewrite <- He; apply in_map, Hp)). reflexivity.
  - cbn [map]. rewrite elim_seats_none, IH by exact Hnd. reflexivity.
Qed.

Lemma seat_players_elim (l : list (option Player)) :
  seat_players (map elim_seat l) = filter (fun p => negb (isEliminated p)) (seat_players l).
Proof.
  induction l as [|x r IH]; [reflexivity|].
  destruct x as [q|]; cbn [map elim_seat seat_players flat_map app];
    fold (seat_players r); fold (seat_players (map elim_seat r)); [|exact IH].
  cbn [filter]. destruct (isEliminated q); cbn [negb flat_map app];
    fold (seat_players (map elim_seat r)); rewrite IH; reflexivity.
Qed.

Lemma moveButton_fields (t t1 : Table) :
  moveButton t = Ok t1 ->
  t1 = mkTable (seats t) (buttonPosition t1) (communityCards t) (config t).
Proof.
  unfold moveButton. destruct (move_loop _ _ _ _) as [np a].
  destruct (maxSeats (config t) <=? a); [discriminate|]. intros E. injection E as <-.
  reflexivity.
Qed.

(** X17: [prepareNextHand] throws "Cannot prepare next hand from state:
    <state>" outside [HandComplete], and passes on a throw of
    [moveButton], in both cases changing nothing. Otherwise, when the
    players at the table have distinct ids, it keeps the moved button,
    empties exactly the seats of eliminated players (no chips, or status
    [Eliminated]), replaces the pots by a new empty main pot, and ends in
    [GameOver] when fewer than two players remain and in [ReadyToStart]
    otherwise; the remaining players are the non-eliminated ones, in seat
    order. *)
Theorem prepareNextHand_spec (s : HandManager) :
  (currentState s <> HandComplete ->
     prepareNextHand s = (Throw (Error ("Cannot prepare next hand from state: "
                                        ++ GameState_string (currentState s))), s))
  /\ (currentState s = HandComplete -> forall e,
        moveButton (table s) = Throw e -> prepareNextHand s = (Throw e, s))
  /\ (currentState s = HandComplete -> forall t1,
        moveButton (table s) = Ok t1 ->
        NoDup (map id (getPlayers (table s))) ->
        let t2 := mkTable (map elim_seat (seats (table s))) (buttonPosition t1)
                    (communityCards (table s)) (config (table s)) in
        prepareNextHand s
          = (Ok tt, mkHM t2 (deck s) (mkPM (mkPot [] []) [])
                      (if Nat.ltb (List.length (getPlayers t2)) 2 then GameOver else ReadyToStart)
                      (handNumber s) (bettingTracker s))
        /\ getPlayers t2 = filter (fun p => negb (isEliminated p)) (getPlayers (table s))).
Proof.
  destruct s as [t d pm st hn bt]. cbn [currentState table deck handNumber bettingTracker].
  split; [|split].
  - intros H. unfold prepareNextHand. rewrite bind_get. cbn [currentState].
    destruct st; try congruence; reflexivity.
  - intros -> e E. unfold prepareNextHand. rewrite bind_get. cbn [currentState table].
    rewrite E. reflexivity.
  - intros -> t1 E Hnd.
    set (t2 := mkTable (map elim_seat (seats t)) (buttonPosition t1) (communityCards t) (config t)).
    assert (Ht2 : remove_eliminated t1 (getPlayers t1) = t2).
    { rewrite (moveButton_fields t t1 E), remove_eliminated_mk.
      rewrite getPlayers_seat_players. cbn [seats]. rewrite elim_seats_all; [reflexivity|].
      rewrite <- getPlayers_seat_players. exact Hnd. }
    split.
    + unfold prepareNextHand. rewrite bind_get. cbn [currentState table].
      rewrite E. cbv zeta. rewrite Ht2.
      destruct (Nat.ltb (List.length (getPlayers t2)) 2); reflexivity.
    + unfold t2. rewrite !getPlayers_seat_players. cbn [seats]. apply seat_players_elim.
Qed.

Lemma prepareNextHand_spec_witness :
  let t := mkTable [Some (new_Player "a" 100); Some (new_Player "b" 0); Some (new_Player "c" 50)]
             0 [] (mkConfig 3 1 2) in
  let s := mkHM t deck_reset new_PotManager HandComplete 4 None in
  let t2 := mkTable (map elim_seat (seats t)) 1 [] (config t) in
  prepareNextHand s = (Ok tt, mkHM t2 deck_reset (mkPM (mkPot [] []) []) ReadyToStart 4 None)
  /\ getPlayers t2 = filter (fun p => negb (isEliminated p)) (getPlayers t).
Proof.
  intros t s t2.
  apply (proj2 (proj2 (prepareNextHand_spec s)) eq_refl
           (mkTable (seats t) 1 [] (config t))); [vm_compute; reflexivity|].
  vm_compute. repeat constructor; simpl; intuition discriminate.
Defined.

Lemma map_set_fresh (m : list (string * Z)) (k : string) (v : Z) :
  ~ In k (map fst m) -> map_set m k v = (m ++ [(k, v)])%list.
Proof.
  induction m as [|[k' v'] r IH]; intros Hn; [reflexivity|].
  cbn [map_set]. cbn [map fst] in Hn.
  replace (String.eqb k k') with false by (symmetry; apply String.eqb_neq; intros ->; apply Hn; left; reflexivity).
  rewrite IH by (intros H; apply Hn; right; exact H). reflexivity.
Qed.

Lemma collect_loop_bets_aux (players : list Player) : forall m a f,
  NoDup (map fst m ++ map id players) ->
  fst (fst (fold_left (fun acc player =>
               let '(playerBets, allInPlayers, foldedPlayers) := acc in
               (map_set playerBets (id player) (currentBet player),
                if PlayerStatus_eqb (status player) AllIn
                then set_add String.eqb allInPlayers (id player) else allInPlayers,
                if PlayerStatus_eqb (status player) Folded
                then set_add String.eqb foldedPlayers (id player) else foldedPlayers))
    players (m, a, f)))
  = (m ++ map (fun p => (id p, currentBet p)) players)%list.
Proof.
  induction players as [|p r IH]; intros m a f Hnd; [rewrite app_nil_r; reflexivity|].
  cbn [fold_left]. rewrite IH.
  - rewrite map_set_fresh, <- app_assoc; [reflexivity|].
    intros H. apply NoDup_remove_2 in Hnd. apply Hnd. apply in_or_app. left; exact H.
  - rewrite map_set_fresh.
    + rewrite map_app, <- app_assoc. exact Hnd.
    + intros H. apply NoDup_remove_2 in Hnd. apply Hnd. apply in_or_app. left; exact H.
Qed.

Lemma collect_loop_bets (players : list Player) :
  NoDup (map id players) ->
  fst (fst (collect_loop players)) = map (fun p => (id p, currentBet p)) players.
Proof. intros Hnd. apply (collect_loop_bets_aux players [] [] []). exact Hnd. Qed.

Lemma get_or0_players (players : list Player) (p : Player) :
  NoDup (map id players) -> In p players ->
  get_or0 (map (fun p => (id p, currentBet p)) players) (id p) = currentBet p.
Proof.
  induction players as [|q r IH]; intros Hnd Hin; [destruct Hin|].
  inversion Hnd as [|? ? Hq Hnd']; subst. unfold get_or0. cbn [map map_get fst snd].
  destruct Hin as [->|Hin]; [rewrite String.eqb_refl; reflexivity|].
  replace (String.eqb (id p) (id q)) with false.
  - apply IH; assumption.
  - symmetry. apply String.eqb_neq. intros He. apply Hq. rewrite <- He. apply in_map, Hin.
Qed.

Lemma get_or0_players_absent (players : list Player) (x : string) :
  ~ In x (map id players) -> get_or0 (map (fun p => (id p, currentBet p)) players) x = 0.
Proof.
  induction players as [|q r IH]; intros Hn; [reflexivity|].
  unfold get_or0. cbn [map map_get fst snd].
  replace (String.eqb x (id q)) with false.
  - apply IH. intros H. apply Hn. right. exact H.
  - symmetry. apply String.eqb_neq. intros ->. apply Hn. left. reflexivity.
Qed.

Lemma sum_values_players (players : list Player) :
  sum_values (map (fun p => (id p, currentBet p)) players)
  = fold_right (fun p acc => currentBet p + acc) 0 players.
Proof. induction players as [|p r IH]; [reflexivity|]. cbn. rewrite <- IH. reflexivity. Qed.

Lemma sum_values_zero (bets : list (string * Z)) :
  Forall (fun kv => 0 <= snd kv) bets -> uniqueBetAmounts bets = [] -> sum_values bets = 0.
Proof.
  intros Hnn Hu. destruct (uniqueBetAmounts_spec bets) as [_ Hmem].
  assert (Hz : Forall (fun kv => snd kv = 0) bets).
  { rewrite Forall_forall in *. intros kv Hkv. specialize (Hnn kv Hkv).
    destruct (Z.eq_dec (snd kv) 0) as [H|H]; [exact H|]. exfalso.
    assert (Hi : In (snd kv) (uniqueBetAmounts bets))
      by (apply Hmem; split; [lia|apply in_map, Hkv]).
    rewrite Hu in Hi. exact Hi. }
  clear -Hz. induction Hz as [|kv r H _ IH]; [reflexivity|].
  unfold sum_values in *. cbn [fold_right]. lia.
Qed.

Lemma seat_players_reset (l : list (option Player)) :
  seat_players (map (option_map resetBet) l) = map resetBet (seat_players l).
Proof.
  induction l as [|x r IH]; [reflexivity|].
  destruct x; cbn [map option_map seat_players flat_map app]; fold (seat_players r);
    fold (seat_players (map (option_map resetBet) r)); rewrite IH; reflexivity.
Qed.

(** X18: [HandManager.collectBets], when the players at the table have
    distinct ids and no negative current bet, and every pot holds only
    positive contributions, succeeds; it puts each player's current bet into
    the pots under that player's id (nothing for an id not at the table),
    raises the pot total by the sum of the current bets, and then sets every
    player's current bet to 0 and clears the last action, leaving ids,
    chips and statuses as they were and everything else unchanged. *)
Theorem hm_collectBets_moves_bets_to_pots (s : HandManager) :
  NoDup (map id (getPlayers (table s))) ->
  Forall (fun p => 0 <= currentBet p) (getPlayers (table s)) ->
  Forall pot_invariant (pots (potManager s)) ->
  exists pm', hm_collectBets s
      = (Ok tt, mkHM (reset_bets (table s)) (deck s) pm' (currentState s) (handNumber s)
                  (bettingTracker s))
    /\ getTotalPotAmount pm'
       = getTotalPotAmount (potManager s)
         + fold_right (fun p acc => currentBet p + acc) 0 (getPlayers (table s))
    /\ (forall p, In p (getPlayers (table s)) ->
          player_total pm' (id p) = player_total (potManager s) (id p) + currentBet p)
    /\ (forall x, ~ In x (map id (getPlayers (table s))) ->
          player_total pm' x = player_total (potManager s) x)
    /\ getPlayers (reset_bets (table s)) = map resetBet (getPlayers (table s))
    /\ Forall (fun p => currentBet p = 0 /\ lastAction p = None)
         (getPlayers (reset_bets (table s))).
Proof.
  intros Hnd Hnn Hpi.
  set (players := getPlayers (table s)) in *.
  set (bets := map (fun p => (id p, currentBet p)) players).
  assert (Hb : fst (fst (collect_loop players)) = bets) by (apply collect_loop_bets, Hnd).
  assert (Hbnn : Forall (fun kv => 0 <= snd kv) bets).
  { unfold bets. rewrite Forall_map. exact Hnn. }
  assert (Hbnd : NoDup (map fst bets)).
  { unfold bets. rewrite map_map. exact Hnd. }
  assert (Hreset : getPlayers (reset_bets (table s)) = map resetBet players).
  { unfold reset_bets, players. rewrite !getPlayers_seat_players. apply seat_players_reset. }
  destruct (collectBets_levels (potManager s) bets (snd (fst (collect_loop players)))
              (snd (collect_loop players)) Hbnn) as (Ec & Hinv & _).
  destruct (uniqueBetAmounts_spec bets) as [Hs _].
  assert (Hmain : exists pm', collectBets (potManager s) bets (snd (fst (collect_loop players)))
                                (snd (collect_loop players)) = Ok pm'
             /\ getTotalPotAmount pm' = getTotalPotAmount (potManager s) + sum_values bets
             /\ (forall q, player_total pm' q = player_total (potManager s) q + get_or0 bets q)).
  { rewrite Ec. destruct (uniqueBetAmounts bets) as [|l ls] eqn:Eu.
    - exists (potManager s). split; [reflexivity|].
      rewrite (sum_values_zero bets Hbnn Eu). split; [lia|].
      intros q. rewrite (get_or0_all_zero bets q Hbnn Eu). lia.
    - destruct (collect_levels_conserve (snd (collect_loop players)) (l :: ls) 0 bets
                  (potManager s) Hs Hbnd Hinv) as (pm1 & E1 & T1).
      destruct (collect_levels_pots (snd (collect_loop players)) (l :: ls) 0 bets
                  (potManager s) Hs Hbnd Hinv Hpi) as (pm2 & E2 & T2 & _).
      rewrite E1 in E2. injection E2 as <-.
      exists pm1. split; [exact E1|split; [exact T1|exact T2]]. }
  destruct Hmain as (pm' & E & T & P).
  exists pm'. split; [|split; [|split; [|split; [|split]]]].
  - unfold hm_collectBets. rewrite bind_get. fold players.
    destruct (collect_loop players) as [[pb ai] fo] eqn:El. cbn [fst snd] in Hb, E.
    subst pb. rewrite E. reflexivity.
  - rewrite T. unfold bets. rewrite sum_values_players. reflexivity.
  - intros p Hp. rewrite P. unfold bets. rewrite get_or0_players by assumption. reflexivity.
  - intros x Hx. rewrite P. unfold bets. rewrite get_or0_players_absent by exact Hx. lia.
  - exact Hreset.
  - rewrite Hreset, Forall_map. apply Forall_forall. intros p _. split; reflexivity.
Qed.

Lemma hm_collectBets_moves_bets_to_pots_witness :
  let t := mkTable [Some (mkPlayer "a" [] 90 10 Active None); None;
                    Some (mkPlayer "b" [] 0 40 AllIn None)] 0 [] (mkConfig 3 5 10) in
  let s := mkHM t deck_reset new_PotManager FlopBetting 2 None in
  exists pm', hm_collectBets s
      = (Ok tt, mkHM (reset_bets t) deck_reset pm' FlopBetting 2 None)
    /\ getTotalPotAmount pm' = 50
    /\ player_total pm' "b" = 40.
Proof.
  intros t s.
  destruct (hm_collectBets_moves_bets_to_pots s) as (pm' & E & T & P & _).
  - vm_compute. repeat constructor; simpl; intuition discriminate.
  - vm_compute. repeat constructor; discriminate.
  - vm_compute. repeat constructor.
  - exists pm'. split; [exact E|split].
    + rewrite T. vm_compute. reflexivity.
    + assert (Hb := P (mkPlayer "b" [] 0 40 AllIn None) ltac:(vm_compute; right; left; reflexivity)).
      cbn [id currentBet] in Hb. rewrite Hb. vm_compute. reflexivity.
Defined.

(** ** Dealing hole cards *)

(** One round of [dealHoleCards] as it acts on a seat: the player whose id
    is dealt card [c] gets [getHoleCards() ++ [c]]. *)
Definition give_round (dealt : list (string * Card)) (x : option Player) : option Player :=
  match x with
  | Some p =>
      match map_get dealt (id p) with
      | Some c => Some (mkPlayer (id p) (getHoleCards p ++ [c]) (chipCount p) (currentBet p)
                          (status p) (lastAction p))
      | None => Some p
      end
  | None => None
  end.

Lemma give_round_nil (l : list (option Player)) : map (give_round []) l = l.
Proof. induction l as [|[p|] r IH]; cbn; rewrite ?IH; reflexivity. Qed.

Lemma give_round_not_id (pid : string) (c : Card) (l : list (option Player)) :
  Forall (not_id pid) l -> map (give_round [(pid, c)]) l = l.
Proof.
  induction 1 as [|x r Hx _ IH]; [reflexivity|]. cbn [map]. rewrite IH.
  destruct x as [p|]; [|reflexivity]. cbn [give_round map_get].
  replace (String.eqb (id p) pid) with false by (symmetry; apply String.eqb_neq; exact Hx).
  reflexivity.
Qed.

Lemma give_round_compose (pid : string) (c : Card) (dealt : list (string * Card))
    (l : list (option Player)) :
  map_get dealt pid = None ->
  map (give_round dealt) (map (give_round [(pid, c)]) l) = map (give_round ((pid, c) :: dealt)) l.
Proof.
  intros Hn. rewrite map_map. apply map_ext. intros [p|]; [|reflexivity].
  cbn [give_round map_get]. destruct (String.eqb (id p) pid) eqn:E.
  - apply String.eqb_eq in E. cbn [give_round id]. rewrite E, Hn. reflexivity.
  - reflexivity.
Qed.

Lemma ids_give_round (dealt : list (string * Card)) (l : list (option Player)) :
  map id (seat_players (map (give_round dealt) l)) = map id (seat_players l).
Proof.
  induction l as [|[p|] r IH]; [reflexivity| |exact IH].
  cbn [map give_round]. destruct (map_get dealt (id p));
    cbn [seat_players flat_map app map id] in *; fold (seat_players r) in *;
    fold (seat_players (map (give_round dealt) r)) in *; rewrite IH; reflexivity.
Qed.

Lemma not_id_seat_players (pid : string) (l : list (option Player)) :
  ~ In pid (map id (seat_players l)) -> Forall (not_id pid) l.
Proof.
  induction l as [|[p|] r IH]; intros Hn; constructor; cbn [seat_players flat_map app map] in Hn;
    fold (seat_players r) in Hn.
  - intros E. apply Hn. left. exact E.
  - apply IH. intros H. apply Hn. right. exact H.
  - exact I.
  - apply IH, Hn.
Qed.

Lemma seats_split_id (l : list (option Player)) (pid : string) :
  NoDup (map id (seat_players l)) -> In pid (map id (seat_players l)) ->
  exists l1 q l2, l = (l1 ++ Some q :: l2)%list /\ id q = pid
    /\ Forall (not_id pid) l1 /\ Forall (not_id pid) l2.
Proof.
  intros Hnd Hin. destruct (remove_first_cases pid l) as [[_ Hf]|(l1 & q & l2 & El & Hq & Hf & _)].
  - exfalso. apply seat_players_not_id in Hf. rewrite Forall_forall in Hf.
    apply in_map_iff in Hin as [p [Hp Hi]]. exact (Hf p Hi Hp).
  - exists l1, q, l2. split; [exact El|split; [exact Hq|split; [exact Hf|]]].
    apply not_id_seat_players. rewrite El, seat_players_app in Hnd.
    cbn [seat_players flat_map app] in Hnd. fold (seat_players l2) in Hnd.
    rewrite map_app in Hnd. cbn [map] in Hnd. apply NoDup_remove_2 in Hnd.
    rewrite <- Hq. intros H. apply Hnd. apply in_or_app. right. exact H.
Qed.

Lemma find_seat_players (pid : string) (l1 l2 : list (option Player)) (q : Player) :
  Forall (not_id pid) l1 -> id q = pid ->
  find (fun p => String.eqb (id p) pid) (seat_players (l1 ++ Some q :: l2)) = Some q.
Proof.
  intros Hf Hq. rewrite seat_players_app.
  induction Hf as [|x r Hx _ IH].
  - cbn [seat_players flat_map app find]. rewrite Hq, String.eqb_refl. reflexivity.
  - destruct x as [p|]; cbn [seat_players flat_map app] in *; fold (seat_players r) in *;
      [|exact IH].
    cbn [app find]. replace (String.eqb (id p) pid) with false
      by (symmetry; apply String.eqb_neq; exact Hx). exact IH.
Qed.

Lemma findIndex_seats (pid : string) (l1 l2 : list (option Player)) (q : Player) :
  Forall (not_id pid) l1 -> id q = pid ->
  findIndex (fun so => match so with Some p => String.eqb (id p) pid | None => false end)
    (l1 ++ Some q :: l2) = Z.of_nat (List.length l1).
Proof.
  intros Hf Hq. induction Hf as [|x r Hx _ IH].
  - cbn. rewrite Hq, String.eqb_refl. reflexivity.
  - cbn [app findIndex]. replace (match x with Some p => String.eqb (id p) pid | None => false end)
      with false by (destruct x as [p|]; [symmetry; apply String.eqb_neq; exact Hx|reflexivity]).
    rewrite IH. cbv zeta. replace (Z.of_nat (List.length r) =? -1) with false
      by (symmetry; apply Z.eqb_neq; lia).
    cbn [List.length]. lia.
Qed.

Lemma deal_round_step (pid : string) (rest : list string) (s : HandManager)
    (restCards : list Card) (c : Card) :
  NoDup (map id (getPlayers (table s))) -> In pid (map id (getPlayers (table s))) ->
  deckCards (deck s) = (restCards ++ [c])%list ->
  deal_round (pid :: rest) s
  = deal_round rest
      (with_table (mkTable (map (give_round [(pid, c)]) (seats (table s)))
                     (buttonPosition (table s)) (communityCards (table s)) (config (table s)))
         (with_deck (mkDeck restCards (dealtCards (deck s) ++ [c])) s)).
Proof.
  intros Hnd Hin Hd. rewrite getPlayers_seat_players in Hnd, Hin.
  destruct (seats_split_id _ pid Hnd Hin) as (l1 & q & l2 & El & Hq & H1 & H2).
  cbn [deal_round]. rewrite bind_get. unfold dealCard. rewrite Hd, rev_app_distr.
  cbn [rev app]. rewrite rev_involutive.
  rewrite getPlayers_seat_players, El, (find_seat_players pid l1 l2 q H1 Hq).
  rewrite (findIndex_seats pid l1 l2 q H1 Hq).
  replace (Z.of_nat (List.length l1) <? 0) with false by (symmetry; apply Z.ltb_ge; lia).
  set (q' := mkPlayer (id q) (getHoleCards q ++ [c]) (chipCount q) (currentBet q) (status q)
               (lastAction q)).
  assert (Hs := set_seat_seats (table s) (Z.of_nat (List.length l1)) q' l1 l2 (Some q) El
                  eq_refl).
  assert (Hm : map (give_round [(pid, c)]) (l1 ++ Some q :: l2)%list = (l1 ++ Some q' :: l2)%list).
  { rewrite map_app. cbn [map]. rewrite !give_round_not_id by assumption.
    cbn [give_round map_get].
    replace (String.eqb (id q) pid) with true by (symmetry; apply String.eqb_eq; exact Hq).
    reflexivity. }
  rewrite Hm, <- Hs. reflexivity.
Qed.

Lemma deal_round_ok (ids : list string) : forall s,
  NoDup ids -> NoDup (map id (getPlayers (table s))) -> incl ids (map id (getPlayers (table s))) ->
  (List.length ids <= List.length (deckCards (deck s)))%nat ->
  exists cs d', deal_round ids s
      = (Ok tt, with_table (mkTable (map (give_round (combine ids cs)) (seats (table s)))
                             (buttonPosition (table s)) (communityCards (table s))
                             (config (table s)))
                  (with_deck d' s))
    /\ List.length cs = List.length ids
    /\ deckCards (deck s) = (deckCards d' ++ rev cs)%list
    /\ dealtCards d' = (dealtCards (deck s) ++ cs)%list.
Proof.
  induction ids as [|pid rest IH]; intros s Hnd Hpl Hinc Hlen.
  - exists [], (deck s). cbn [combine]. rewrite give_round_nil, !app_nil_r.
    split; [|split; [reflexivity|split; reflexivity]].
    destruct s as [[ss b cc cfg] d pm st hn bt]. reflexivity.
  - inversion Hnd as [|? ? Hp Hnd']; subst.
    destruct (deck_pop s) as [restCards [c Hrc]]; [cbn [List.length] in Hlen; lia|].
    rewrite (deal_round_step pid rest s restCards c Hpl (Hinc pid (or_introl eq_refl)) Hrc).
    set (s1 := with_table (mkTable (map (give_round [(pid, c)]) (seats (table s)))
                     (buttonPosition (table s)) (communityCards (table s)) (config (table s)))
         (with_deck (mkDeck restCards (dealtCards (deck s) ++ [c])) s)).
    assert (Hids : map id (getPlayers (table s1)) = map id (getPlayers (table s))).
    { rewrite !getPlayers_seat_players. apply ids_give_round. }
    destruct (IH s1 Hnd') as (cs & d' & E & Hl & Hd & Ht).
    + rewrite Hids. exact Hpl.
    + rewrite Hids. intros x Hx. apply Hinc. right. exact Hx.
    + cbn. rewrite Hrc, length_app in Hlen. cbn [List.length] in Hlen. lia.
    + exists (c :: cs), d'. rewrite E. cbn [combine].
      assert (Hg : map_get (combine rest cs) pid = None).
      { clear -Hp. revert cs. induction rest as [|x r IH]; intros [|y cs]; try reflexivity.
        cbn [combine map_get]. replace (String.eqb pid x) with false.
        - apply IH. intros H. apply Hp. right. exact H.
        - symmetry. apply String.eqb_neq. intros ->. apply Hp. left. reflexivity. }
      cbn [s1 table seats buttonPosition communityCards config with_table with_deck deck
             deckCards dealtCards] in *.
      rewrite give_round_compose by exact Hg.
      split; [reflexivity|]. split; [cbn [List.length]; lia|]. split.
      * rewrite Hrc, Hd. cbn [rev]. rewrite <- app_assoc. reflexivity.
      * rewrite Ht, <- app_assoc. reflexivity.
Qed.

Lemma NoDup_map_filter {A B} (g : A -> B) (f : A -> bool) (l : list A) :
  NoDup (map g l) -> NoDup (map g (filter f l)).
Proof.
  induction l as [|x r IH]; intros Hnd; [constructor|].
  inversion Hnd as [|? ? Hx Hr]; subst. cbn [filter].
  destruct (f x); [|apply IH, Hr]. cbn [map]. constructor; [|apply IH, Hr].
  intros H. apply Hx. apply in_map_iff in H as [y [Hy Hi]]. rewrite <- Hy.
  apply in_map. apply filter_In in Hi. apply Hi.
Qed.

Lemma NoDup_map_inj {A B} (g : A -> B) (l : list A) (x y : A) :
  NoDup (map g l) -> In x l -> In y l -> g x = g y -> x = y.
Proof.
  induction l as [|z r IH]; intros Hnd Hx Hy Hg; [destruct Hx|].
  inversion Hnd as [|? ? Hz Hr]; subst.
  destruct Hx as [<-|Hx], Hy as [<-|Hy]; try reflexivity.
  - exfalso. apply Hz. rewrite Hg. apply in_map, Hy.
  - exfalso. apply Hz. rewrite <- Hg. apply in_map, Hx.
  - apply IH; assumption.
Qed.

Lemma map_get_combine_nth {V} (ids : list string) (vs : list V) (i : nat) (k : string) :
  NoDup ids -> List.length vs = List.length ids -> nth_error ids i = Some k ->
  map_get (combine ids vs) k = nth_error vs i.
Proof.
  revert vs i. induction ids as [|x r IH]; intros vs i Hnd Hl Hi; [destruct i; discriminate|].
  destruct vs as [|v vs]; [discriminate|]. inversion Hnd as [|? ? Hx Hr]; subst.
  cbn [combine map_get]. destruct i as [|i]; cbn [nth_error] in Hi |- *.
  - injection Hi as ->. rewrite String.eqb_refl. reflexivity.
  - replace (String.eqb k x) with false.
    + apply IH; [exact Hr|cbn in Hl; lia|exact Hi].
    + symmetry. apply String.eqb_neq. intros ->. apply Hx. eapply nth_error_In. exact Hi.
Qed.

Lemma map_get_combine_notin {V} (ids : list string) (vs : list V) (k : string) :
  ~ In k ids -> map_get (combine ids vs) k = None.
Proof.
  revert vs. induction ids as [|x r IH]; intros [|v vs] Hn; try reflexivity.
  cbn [combine map_get]. replace (String.eqb k x) with false.
  - apply IH. intros H. apply Hn. right. exact H.
  - symmetry. apply String.eqb_neq. intros ->. apply Hn. left. reflexivity.
Qed.

Lemma In_seat_players (l : list (option Player)) (p : Player) :
  In (Some p) l -> In p (seat_players l).
Proof.
  intros H. unfold seat_players. apply in_flat_map. exists (Some p). split; [exact H|left; reflexivity].
Qed.

(** X19: [Dealer.dealHoleCards] throws "Need at least 2 players to deal"
    and changes nothing when fewer than two players are active. With at
    least two active players, distinct player ids and two cards per active
    player left in the deck, it succeeds: the [i]-th active player (in seat
    order) receives the [i]-th card of the first round and then the [i]-th
    card of the second round after the hole cards it had, in its own seat;
    every other seat is unchanged; the cards come off the end of the deck
    and join the dealt cards; the button, board and configuration are
    unchanged. *)
Theorem dealHoleCards_spec (s : HandManager) :
  ((List.length (getActivePlayers (table s)) < 2)%nat ->
     dealHoleCards s = (Throw (Error "Need at least 2 players to deal"), s))
  /\ (NoDup (map id (getPlayers (table s))) ->
      (2 <= List.length (getActivePlayers (table s)))%nat ->
      (2 * List.length (getActivePlayers (table s)) <= List.length (deckCards (deck s)))%nat ->
      exists t' d' cs1 cs2, dealHoleCards s = (Ok tt, with_table t' (with_deck d' s))
        /\ buttonPosition t' = buttonPosition (table s)
        /\ communityCards t' = communityCards (table s) /\ config t' = config (table s)
        /\ List.length (seats t') = List.length (seats (table s))
        /\ List.length cs1 = List.length (getActivePlayers (table s))
        /\ List.length cs2 = List.length (getActivePlayers (table s))
        /\ deckCards (deck s) = (deckCards d' ++ rev (cs1 ++ cs2))%list
        /\ dealtCards d' = (dealtCards (deck s) ++ cs1 ++ cs2)%list
        /\ (forall k, nth_error (seats (table s)) k = Some None ->
              nth_error (seats t') k = Some None)
        /\ (forall k p, nth_error (seats (table s)) k = Some (Some p) ->
              ~ In p (getActivePlayers (table s)) -> nth_error (seats t') k = Some (Some p))
        /\ (forall k p i, nth_error (seats (table s)) k = Some (Some p) ->
              nth_error (getActivePlayers (table s)) i = Some p ->
              exists c1 c2, nth_error cs1 i = Some c1 /\ nth_error cs2 i = Some c2
                /\ nth_error (seats t') k
                   = Some (Some (mkPlayer (id p) (holeCards p ++ [c1; c2]) (chipCount p)
                                   (currentBet p) (status p) (lastAction p))))).
Proof.
  split.
  - intros H. unfold dealHoleCards. rewrite bind_get. cbv zeta.
    rewrite (proj2 (Nat.ltb_lt _ _) H). reflexivity.
  - intros Hnd H2 Hdeck.
    set (active := getActivePlayers (table s)) in *.
    set (ids := map id active).
    assert (Hids : NoDup ids) by (apply NoDup_map_filter, Hnd).
    assert (Hinc : incl ids (map id (getPlayers (table s)))).
    { intros x Hx. apply in_map_iff in Hx as [p [<- Hp]]. apply in_map.
      apply filter_In in Hp. apply Hp. }
    assert (Hlen : List.length ids = List.length active) by apply length_map.
    destruct (deal_round_ok ids s Hids Hnd Hinc ltac:(lia)) as (cs1 & d1 & E1 & L1 & D1 & T1).
    set (s1 := with_table (mkTable (map (give_round (combine ids cs1)) (seats (table s)))
                             (buttonPosition (table s)) (communityCards (table s))
                             (config (table s))) (with_deck d1 s)) in E1.
    assert (Hp1 : map id (getPlayers (table s1)) = map id (getPlayers (table s))).
    { rewrite !getPlayers_seat_players. apply ids_give_round. }
    destruct (deal_round_ok ids s1 Hids) as (cs2 & d2 & E2 & L2 & D2 & T2).
    { rewrite Hp1. exact Hnd. }
    { rewrite Hp1. exact Hinc. }
    { cbn. rewrite D1, length_app, length_rev in Hdeck. lia. }
    set (g1 := give_round (combine ids cs1)) in *.
    set (g2 := give_round (combine ids cs2)) in *.
    exists (mkTable (map g2 (map g1 (seats (table s)))) (buttonPosition (table s))
              (communityCards (table s)) (config (table s))), d2, cs1, cs2.
    split.
    { unfold dealHoleCards. rewrite bind_get. cbv zeta. fold active.
      rewrite (proj2 (Nat.ltb_ge _ _) H2). fold ids.
      rewrite (bind_ok _ _ _ _ _ E1). exact E2. }
    cbn [seats buttonPosition communityCards config] in *.
    cbn in D2, T2.
    split; [reflexivity|]. split; [reflexivity|]. split; [reflexivity|].
    split; [rewrite !length_map; reflexivity|].
    split; [lia|]. split; [lia|]. split.
    { rewrite D1, D2, rev_app_distr, app_assoc. reflexivity. }
    split; [rewrite T2, T1, app_assoc; reflexivity|].
    split; [|split].
    + intros k Hk. rewrite !nth_error_map, Hk. reflexivity.
    + intros k p Hk Hna. rewrite !nth_error_map, Hk. cbn [option_map].
      assert (Hni : ~ In (id p) ids).
      { intros Hi. apply in_map_iff in Hi as [q [Hq Hqa]]. apply Hna.
        replace p with q; [exact Hqa|].
        apply (NoDup_map_inj id (getPlayers (table s))); [exact Hnd| | |exact Hq].
        - apply filter_In in Hqa. apply Hqa.
        - rewrite getPlayers_seat_players. apply In_seat_players. eapply nth_error_In. exact Hk. }
      unfold g1, g2. cbn [give_round]. rewrite map_get_combine_notin by exact Hni.
      cbn [give_round]. rewrite map_get_combine_notin by exact Hni. reflexivity.
    + intros k p i Hk Hi. rewrite !nth_error_map, Hk. cbn [option_map].
      assert (Hii : nth_error ids i = Some (id p)) by (unfold ids; rewrite nth_error_map, Hi; reflexivity).
      assert (Hlt : (i < List.length active)%nat) by (apply nth_error_Some; congruence).
      destruct (nth_error cs1 i) as [c1|] eqn:Ec1; [|apply nth_error_None in Ec1; lia].
      destruct (nth_error cs2 i) as [c2|] eqn:Ec2; [|apply nth_error_None in Ec2; lia].
      exists c1, c2. split; [reflexivity|split; [reflexivity|]].
      assert (Hact : match status p with Active | AllIn => true | _ => false end = true)
        by (apply nth_error_In in Hi; apply filter_In in Hi; apply Hi).
      unfold g1, g2. cbn [give_round].
      rewrite (map_get_combine_nth ids cs1 i (id p) Hids ltac:(lia) Hii), Ec1.
      cbn [give_round id].
      rewrite (map_get_combine_nth ids cs2 i (id p) Hids ltac:(lia) Hii), Ec2.
      unfold getHoleCards. cbn [status holeCards].
      destruct (status p); try discriminate Hact; rewrite <- app_assoc; reflexivity.
Qed.

Lemma dealHoleCards_spec_witness :
  let t := mkTable [Some (new_Player "a" 100); None; Some (new_Player "b" 100)] 0 []
             (mkConfig 3 5 10) in
  let s := mkHM t deck_reset new_PotManager DealingHoleCards 1 None in
  exists t' d' cs1 cs2, dealHoleCards s = (Ok tt, with_table t' (with_deck d' s))
    /\ nth_error (seats t') 1 = Some None
    /\ exists c1 c2, nth_error cs1 1 = Some c1 /\ nth_error cs2 1 = Some c2
         /\ nth_error (seats t') 2
            = Some (Some (mkPlayer "b" [c1; c2] 100 0 Active None)).
Proof.
  intros t s.
  destruct (proj2 (dealHoleCards_spec s)) as
    (t' & d' & cs1 & cs2 & E & _ & _ & _ & _ & _ & _ & _ & _ & He & _ & Ha).
  - vm_compute. repeat constructor; simpl; intuition discriminate.
  - vm_compute. lia.
  - vm_compute. lia.
  - exists t', d', cs1, cs2. split; [exact E|split].
    + apply He. reflexivity.
    + exact (Ha 2%nat (new_Player "b" 100) 1%nat eq_refl eq_refl).
Defined.

(** ** Pot contributions *)

(** X20: [Pot.addContribution] throws "Contribution must be positive" for
    an amount [<= 0]. For a positive amount it adds exactly that amount to
    the player's contribution and to the pot total, leaves every other
    player's contribution and eligibility as it was, and makes the player
    eligible. *)
Theorem addContribution_accounting (pot : Pot) (p : string) (a : Z) :
  (a <= 0 -> addContribution pot p a = Throw (Error "Contribution must be positive"))
  /\ (0 < a -> exists pot', addContribution pot p a = Ok pot'
       /\ total pot' = total pot + a
       /\ get_or0 (contributions pot') p = get_or0 (contributions pot) p + a
       /\ (forall q, q <> p -> get_or0 (contributions pot') q = get_or0 (contributions pot) q)
       /\ isPlayerEligible pot' p = true
       /\ (forall q, q <> p -> isPlayerEligible pot' q = isPlayerEligible pot q)).
Proof.
  split.
  - intros Ha. unfold addContribution. rewrite (proj2 (Z.leb_le _ _) Ha). reflexivity.
  - intros Ha. destruct (addContribution_total pot p a Ha) as [pot' [E T]].
    exists pot'. split; [exact E|split; [exact T|]].
    unfold addContribution in E. rewrite (proj2 (Z.leb_gt _ _) Ha) in E.
    injection E as <-. cbn [contributions].
    split; [rewrite get_or0_map_set, String.eqb_refl; reflexivity|].
    split; [intros q Hq; rewrite get_or0_map_set;
            replace (String.eqb q p) with false by (symmetry; apply String.eqb_neq; exact Hq);
            reflexivity|].
    unfold isPlayerEligible, set_has. cbn [eligiblePlayerIds].
    destruct (existsb (String.eqb p) (eligiblePlayerIds pot)) eqn:Hs.
    + split; [exact Hs|]. intros q _. reflexivity.
    + split; [rewrite existsb_app; cbn; rewrite String.eqb_refl; apply orb_true_r|].
      intros q Hq. rewrite existsb_app. cbn.
      replace (String.eqb q p) with false by (symmetry; apply String.eqb_neq; exact Hq).
      rewrite orb_false_r. reflexivity.
Qed.

Lemma addContribution_accounting_witness :
  addContribution (mkPot [("a", 10)] ["a"]) "b" 0 = Throw (Error "Contribution must be positive")
  /\ exists pot', addContribution (mkPot [("a", 10)] ["a"]) "a" 5 = Ok pot'
       /\ total pot' = 15 /\ get_or0 (contributions pot') "a" = 15.
Proof.
  split.
  - apply (proj1 (addContribution_accounting (mkPot [("a", 10)] ["a"]) "b" 0)). lia.
  - destruct (proj2 (addContribution_accounting (mkPot [("a", 10)] ["a"]) "a" 5) ltac:(lia))
      as (pot' & E & T & G & _).
    exists pot'. split; [exact E|]. rewrite T, G. split; reflexivity.
Defined.
